(** * GeoNode MapStore client: resource utilities, save epics, download
      button and compact catalog

    A shallow embedding of the parts of the client that the specification
    talks about:

    - [ResourceUtils] : the functions of [@js/utils/ResourceUtils] that
      translate between a backend resource and a map-viewer configuration;
    - [GnSave] : the [SaveAPI] table and the [gnSaveDirectContent] epic of
      [js/epics/gnsave.js];
    - [DownloadResource] : the [DownloadButton] component of
      [js/plugins/DownloadResource.jsx];
    - [Catalog] : the state and effects of the [ResourcesCompactCatalog]
      component.

    The data the client handles is JSON decoded from backend responses, so
    the embedding works on a type of JSON values and on the fragment of the
    JavaScript semantics that the sources exercise on such values
    (module [JS]); the lodash helpers the sources import are in [Lodash]. *)

From Stdlib Require Import QArith.
From stdpp Require Import gmap strings list fin_maps pretty sorting.

Local Open Scope string_scope.

(* ===================================================================== *)
(** * A fragment of JavaScript on JSON values *)
(* ===================================================================== *)

Module JS.

(** JSON values, plus [undefined]. Numbers are rationals: every finite
    double is one, and JSON has neither NaN nor infinities. Objects are
    finite maps from property names to values. *)
#[warnings="-register-all"]
Inductive value : Type :=
| VUndef
| VNull
| VBool (b : bool)
| VNum (q : Q)
| VStr (s : string)
| VArr (l : list value)
| VObj (m : gmap string value).

(** What an evaluation can raise: a JavaScript [TypeError], or
    [OutOfFragment] when the sources would apply a coercion that this
    embedding does not cover (string-to-number conversion, [ToPrimitive] of
    arrays and objects). *)
Inductive thrown : Type :=
| TypeError
| OutOfFragment.

Inductive completion (A : Type) : Type :=
| Returns (a : A)
| Throws (e : thrown).

Arguments Returns {A} a.
Arguments Throws {A} e.

#[global] Instance completion_ret : MRet completion := fun _ a => Returns a.
#[global] Instance completion_bind : MBind completion := fun _ _ f c =>
  match c with
  | Returns a => f a
  | Throws e => Throws e
  end.
#[global] Instance completion_fmap : FMap completion := fun _ _ f c =>
  match c with
  | Returns a => Returns (f a)
  | Throws e => Throws e
  end.

Definition num (z : Z) : value := VNum (inject_Z z).
Definition len {A} (l : list A) : value := num (Z.of_nat (length l)).

(** [undefined] and [null]. *)
Definition nullish (v : value) : bool :=
  match v with
  | VUndef | VNull => true
  | _ => false
  end.

(** [ToBoolean]. *)
Definition truthy (v : value) : bool :=
  match v with
  | VUndef | VNull => false
  | VBool b => b
  | VNum q => negb (Qeq_bool q 0)
  | VStr s => negb (String.eqb s "")
  | VArr _ | VObj _ => true
  end.

(** [!v] *)
Definition not (v : value) : bool := negb (truthy v).

(** [a && b], [a || b] and [a ?? b] on operands that are already values. *)
Definition and (a b : value) : value := if truthy a then b else a.
Definition or (a b : value) : value := if truthy a then a else b.
Definition coalesce (a b : value) : value := if nullish a then b else a.

(** The characters of a string, as one-character strings. *)
Definition chars (s : string) : list value :=
  (fun c => VStr (String c EmptyString)) <$> String.list_ascii_of_string s.

(** The own enumerable properties of a value, as an object spread
    [{...v}] copies them: the entries of an object, the indexed elements of
    an array or string, nothing for the other primitives. *)
Definition indexed (l : list value) : gmap string value :=
  list_to_map (imap (fun i x => (pretty i, x)) l).

Definition own (v : value) : gmap string value :=
  match v with
  | VObj m => m
  | VArr l => indexed l
  | VStr s => indexed (chars s)
  | _ => ∅
  end.

(** [v?.k]: the property read guarded by optional chaining. On a value
    that is neither [undefined] nor [null] this is the plain read [v.k]. *)
Definition field (v : value) (k : string) : value :=
  match v with
  | VObj m => default VUndef (m !! k)
  | VArr l => if String.eqb k "length" then len l else default VUndef (indexed l !! k)
  | VStr s => if String.eqb k "length" then len (chars s) else default VUndef (indexed (chars s) !! k)
  | _ => VUndef
  end.

(** [v.k]: throws on [undefined] and [null]. *)
Definition get (v : value) (k : string) : completion value :=
  if nullish v then Throws TypeError else Returns (field v k).

(** [v.k1.k2...] *)
Definition path (v : value) (ks : list string) : completion value :=
  foldl (fun c k => c ≫= fun x => get x k) (Returns v) ks.

(** [v[i]] for a numeric literal [i]. *)
Definition index (v : value) (i : nat) : completion value :=
  get v (pretty i).

(** Object literals: members are evaluated and added from left to right,
    a later member overriding an earlier one of the same name. *)
Inductive member : Type :=
| Field (k : string) (v : value)
| Spread (v : value).

Definition add_member (acc : gmap string value) (m : member) : gmap string value :=
  match m with
  | Field k v => <[k := v]> acc
  | Spread v => own v ∪ acc
  end.

Definition object (ms : list member) : value := VObj (foldl add_member ∅ ms).

(** [a === b]. Arrays and objects compare by reference; the values here
    are decoded from JSON, where two containers are never the same
    reference, so the comparison of two containers is [false]. The same
    function is [SameValueZero] (no NaN among JSON numbers). *)
Definition strict_eq (a b : value) : bool :=
  match a, b with
  | VUndef, VUndef => true
  | VNull, VNull => true
  | VBool x, VBool y => Bool.eqb x y
  | VNum x, VNum y => Qeq_bool x y
  | VStr x, VStr y => String.eqb x y
  | _, _ => false
  end.

(** [v === 'lit'] *)
Definition is_str (v : value) (lit : string) : bool := strict_eq v (VStr lit).

(** [ToNumber] on the operands the relational operators meet here;
    [None] is NaN. *)
Definition to_number (v : value) : completion (option Q) :=
  match v with
  | VUndef => Returns None
  | VNull => Returns (Some 0%Q)
  | VBool b => Returns (Some (if b then 1%Q else 0%Q))
  | VNum q => Returns (Some q)
  | VStr _ | VArr _ | VObj _ => Throws OutOfFragment
  end.

Definition Qltb (x y : Q) : bool := if Qlt_le_dec x y then true else false.

(** [a < b] and [a > b] against a numeric literal. *)
Definition lt (a : value) (b : Q) : completion bool :=
  x ← to_number a; mret (from_option (fun x => Qltb x b) false x).
Definition gt (a : value) (b : Q) : completion bool :=
  x ← to_number a; mret (from_option (fun x => Qltb b x) false x).

(** [c1 || c2] with the right operand evaluated only when needed. *)
Definition orelse (c1 c2 : completion bool) : completion bool :=
  c1 ≫= fun b : bool => if b then Returns true else c2.

(** The elements of an iterable, as array destructuring and array spread
    read them. *)
Definition iterate (v : value) : completion (list value) :=
  match v with
  | VArr l => Returns l
  | VStr s => Returns (chars s)
  | _ => Throws TypeError
  end.

(** [nth] element of a destructured iterable, [undefined] past the end. *)
Definition elem (l : list value) (i : nat) : value := default VUndef (l !! i).

(** The receiver of an array method ([find], [filter], [map], [reduce]):
    the sources call them on values that must be arrays. *)
Definition array (v : value) : completion (list value) :=
  match v with
  | VArr l => Returns l
  | _ => Throws TypeError
  end.

(** [s.includes('lit')] on a string and [l.includes(x)] on an array
    receiver; [undefined] and [null] or a receiver without the method
    throw. *)
Definition substring (sub s : string) : bool :=
  match String.index 0 sub s with
  | Some _ => true
  | None => false
  end.

Definition includes (v : value) (x : value) : completion bool :=
  match v, x with
  | VArr l, _ => Returns (existsb (strict_eq x) l)
  | VStr s, VStr sub => Returns (substring sub s)
  | VStr _, _ => Throws OutOfFragment
  | _, _ => Throws TypeError
  end.

(** [Array.prototype.find]: the first element satisfying the predicate,
    [undefined] when there is none. *)
Definition find (p : value -> bool) (l : list value) : value :=
  default VUndef (List.find p l).

(** Template literals [`${a}:${b}`] convert their operands with
    [ToString]. *)
Definition to_string (v : value) : completion string :=
  match v with
  | VStr s => Returns s
  | VUndef => Returns "undefined"
  | VNull => Returns "null"
  | VBool b => Returns (if b then "true" else "false")
  | VNum _ | VArr _ | VObj _ => Throws OutOfFragment
  end.

(** The parameter of a callback written with a destructuring pattern
    [({ a, b }) => ...]: binding it throws on [undefined] and [null]. *)
Definition destructure (v : value) : completion value :=
  if nullish v then Throws TypeError else Returns v.

(** [Array.prototype.find] and [filter] with a callback that may throw.
    [find] stops at the first element the callback accepts. *)
Fixpoint find_c (p : value -> completion bool) (l : list value) : completion value :=
  match l with
  | [] => Returns VUndef
  | x :: l' => p x ≫= fun b : bool => if b then Returns x else find_c p l'
  end.

Fixpoint filter_c (p : value -> completion bool) (l : list value) : completion (list value) :=
  match l with
  | [] => Returns []
  | x :: l' =>
      p x ≫= fun b : bool =>
      filter_c p l' ≫= fun r => Returns (if b then x :: r else r)
  end.

(** [s.split(sep)[0]]: the part of [s] before the first occurrence of a
    non-empty separator, all of [s] when there is none. *)
Definition split_head (sep s : string) : string :=
  match String.index 0 sep s with
  | Some n => String.substring 0 n s
  | None => s
  end.

(** [s.replace(pat, by)] with a string pattern: the first occurrence only. *)
Definition replace_first (pat by_ s : string) : string :=
  match String.index 0 pat s with
  | Some n =>
      String.substring 0 n s ++ by_
        ++ String.substring (n + String.length pat) (String.length s - (n + String.length pat)) s
  | None => s
  end.

(** Calling a string method on a receiver: only strings have it. *)
Definition string_receiver (v : value) : completion string :=
  match v with
  | VStr s => Returns s
  | _ => Throws TypeError
  end.

(** [v?.includes(x)]: [undefined] on a receiver that is [undefined] or
    [null]. *)
Definition includes_chain (v x : value) : completion value :=
  if nullish v then Returns VUndef else VBool <$> includes v x.

(** [s.split(c)] for a separator of one character. *)
Fixpoint split_on (sep : Ascii.ascii) (s : string) : list string :=
  match s with
  | EmptyString => [EmptyString]
  | String a rest =>
      if Ascii.eqb a sep then EmptyString :: split_on sep rest
      else match split_on sep rest with
           | part :: parts => String a part :: parts
           | [] => [String a EmptyString]
           end
  end.

(** [a > b]: two strings compare by their characters, the other
    primitives as numbers; a comparison with NaN is [false]. *)
Definition greater (a b : value) : completion bool :=
  match a, b with
  | VStr x, VStr y => Returns (match String.compare x y with Gt => true | _ => false end)
  | _, _ =>
      x ← to_number a; y ← to_number b;
      match x, y with
      | Some x, Some y => Returns (Qltb y x)
      | _, _ => Returns false
      end
  end.

(** [array.sort(compare)] for a comparison that answers [-1] when its first
    argument goes first and [1] otherwise. The engine is free in how it
    applies the comparison, and the result is determined only when the
    comparison orders the elements consistently: here, when of every two
    elements exactly one goes before the other. The order of the other
    arrays is implementation-defined and outside this embedding. *)
Fixpoint strictly_ordered (first : value -> value -> completion bool) (l : list value) : bool :=
  match l with
  | [] => true
  | x :: rest =>
      forallb (fun y =>
        match first x y, first y x with
        | Returns a, Returns b => xorb a b
        | _, _ => false
        end) rest
      && strictly_ordered first rest
  end.

Fixpoint place (first : value -> value -> completion bool) (x : value) (l : list value)
    : list value :=
  match l with
  | [] => [x]
  | y :: rest =>
      match first x y with
      | Returns false => y :: place first x rest
      | _ => x :: l
      end
  end.

Definition sort (first : value -> value -> completion bool) (l : list value)
    : completion (list value) :=
  if strictly_ordered first l then Returns (foldr (place first) [] l)
  else Throws OutOfFragment.

End JS.

Import JS.

Notation "k ↦ v" := (Field k v) (at level 69, no associativity).
Notation "v ?. k" := (field v k) (at level 8, left associativity, format "v ?. k").

(* ===================================================================== *)
(** * The lodash helpers the sources import *)
(* ===================================================================== *)

Module Lodash.

(** [_.isEmpty]: [null] and [undefined], empty arrays, strings and
    objects, and every number and boolean are empty. *)
Definition isEmpty (v : value) : bool :=
  match v with
  | VUndef | VNull => true
  | VBool _ | VNum _ => true
  | VStr s => String.eqb s ""
  | VArr l => match l with [] => true | _ => false end
  | VObj m => bool_decide (dom m = ∅)
  end.

(** [_.uniqBy(array, 'key')]: the first element for each value of the
    property, values compared with [SameValueZero]. The property of an
    element that is [null] or [undefined] reads as [undefined]. *)
Fixpoint uniqBy_from (seen : list value) (key : string) (array : list value) : list value :=
  match array with
  | [] => []
  | x :: rest =>
      if existsb (strict_eq x?.key) seen then uniqBy_from seen key rest
      else x :: uniqBy_from (x?.key :: seen) key rest
  end.

Definition uniqBy (array : list value) (key : string) : list value :=
  uniqBy_from [] key array.

(** lodash's [compareAscending] on JSON values (no symbols, no NaN):
    [undefined] sorts last, [null] just before it, and the other values
    by [>] and [<]; two strings compare by their characters, numbers and
    booleans as numbers. *)
Definition compareAscending (value other : value) : completion comparison :=
  if strict_eq value other then Returns Eq else
  match value, other with
  | VUndef, _ => Returns Gt
  | _, VUndef => Returns Lt
  | VNull, _ => Returns Gt
  | _, VNull => Returns Lt
  | VStr a, VStr b => Returns (String.compare a b)
  | _, _ =>
      x ← to_number value; y ← to_number other;
      match x, y with
      | Some x, Some y => Returns (Qcompare x y)
      | _, _ => Returns Eq
      end
  end.

Inductive order : Type := asc | desc.

(** [comparer(x, y) <= 0] for two elements [x], [y] in their original
    order: [x] stays before [y] unless its property sorts strictly after
    (before, for [desc]) that of [y]. *)
Definition precedes (key : string) (o : order) (x y : value) : bool :=
  match compareAscending x?.key y?.key, o with
  | Returns Gt, asc => false
  | Returns Lt, desc => false
  | _, _ => true
  end.

Definition comparable (key : string) (l : list value) : bool :=
  forallb (fun x => forallb (fun y =>
    match compareAscending x?.key y?.key with
    | Returns _ => true
    | Throws _ => false
    end) l) l.

Fixpoint insert_by (le : value -> value -> bool) (x : value) (l : list value) : list value :=
  match l with
  | [] => [x]
  | y :: l' => if le x y then x :: l else y :: insert_by le x l'
  end.

(** [_.orderBy(collection, 'key', order)]: the stable sort of the
    collection by one property. *)
Definition orderBy (collection : list value) (key : string) (o : order) : completion (list value) :=
  if comparable key collection
  then Returns (foldr (insert_by (precedes key o)) [] collection)
  else Throws OutOfFragment.

(** [_.omit(object, 'key')]: the properties of the object but one. *)
Definition omit (object : value) (key : string) : value := VObj (delete key (own object)).

(** [_.isString] and [_.isObject]; arrays are objects. *)
Definition isString (v : value) : bool :=
  match v with VStr _ => true | _ => false end.

Definition isObject (v : value) : bool :=
  match v with VArr _ | VObj _ => true | _ => false end.

End Lodash.

Import Lodash.

(* ===================================================================== *)
(** * [@js/utils/ResourceUtils] *)
(* ===================================================================== *)

(** What the utilities import from outside this repository or from modules
    whose code is not at hand. [uuid_at n] is the identifier that the
    [n]-th call of [uuid()] returns. *)
Record imports : Type := {
  uuid_at : nat -> string;
  parseDevHostname : value -> value;
  isImageServerUrl : value -> bool;
  getConfigProp : string -> value;
  url_parse_query : string -> value;
  ServerTypes_NO_VENDOR : value
}.

(** Computations that may call [uuid()]: they thread the number of
    identifiers drawn so far. *)
Definition effect (A : Type) : Type := nat -> completion A * nat.

#[global] Instance effect_ret : MRet effect := fun _ a n => (Returns a, n).
#[global] Instance effect_bind : MBind effect := fun _ _ f c n =>
  match c n with
  | (Returns a, n') => f a n'
  | (Throws e, n') => (Throws e, n')
  end.

Definition lift {A} (c : completion A) : effect A := fun n => (c, n).

Module ResourceUtils.

Definition WGS84_MAX_EXTENT : list Q := [-180; -90; 180; 90]%Q.
Definition bound (i : nat) : Q := nth i WGS84_MAX_EXTENT 0%Q.

Definition getExtentFromResource (resource : value) : completion value :=
  extent ← get resource "extent";
  if isEmpty extent?."coords" then Returns VNull else
  coords ← iterate extent?."coords";
  let minx := elem coords 0 in
  let miny := elem coords 1 in
  let maxx := elem coords 2 in
  let maxy := elem coords 3 in
  (* if the extent is greater than the max extent of the WGS84 return null *)
  outside ← orelse (orelse (orelse (lt minx (bound 0)) (lt miny (bound 1)))
                           (gt maxx (bound 2))) (gt maxy (bound 3));
  if outside : bool then Returns VNull else
  let bbox := object [
    "crs" ↦ VStr "EPSG:4326";
    "bounds" ↦ object ["minx" ↦ minx; "miny" ↦ miny; "maxx" ↦ maxx; "maxy" ↦ maxy]
  ] in
  Returns bbox.

Module GXP_PTYPES.
Definition AUTO := "gxp_wmscsource".
Definition OWS := "gxp_wmscsource".
Definition WMS := "gxp_wmscsource".
Definition WFS := "gxp_wmscsource".
Definition WCS := "gxp_wmscsource".
Definition REST_MAP := "gxp_arcrestsource".
Definition REST_IMG := "gxp_arcrestsource".
Definition HGL := "gxp_hglsource".
Definition GN_WMS := "gxp_geonodecataloguesource".
End GXP_PTYPES.

Definition FEATURE_INFO_FORMAT := "TEMPLATE".

Module SOURCE_TYPES.
Definition LOCAL := "LOCAL".
Definition REMOTE := "REMOTE".
End SOURCE_TYPES.

(** A parameter or binding with a default value: the default replaces
    [undefined] only. *)
Definition defaulted (v d : value) : value :=
  match v with
  | VUndef => d
  | _ => v
  end.

Definition datasetAttributeSetToFields (resource : value) : completion value :=
  r ← destructure resource;
  let attributeSet := defaulted r?."attribute_set" (VArr []) in
  l ← array attributeSet;
  kept ← filter_c (fun a =>
            a ← destructure a;
            negb <$> includes a?."attribute_type" (VStr "gml:")) l;
  fields ← mapM (fun a =>
              a ← destructure a;
              mret (object [
                "name" ↦ a?."attribute";
                "alias" ↦ a?."attribute_label";
                "type" ↦ a?."attribute_type"
              ])) kept;
  mret (VArr fields).

(** [links?.find(({ link_type: linkType }) => linkType === t) || {}] and
    its siblings: the receiver may be nullish under [?.], and must be an
    array otherwise. *)
Definition find_link_opt (links : value) (p : value -> bool) : completion value :=
  if nullish links then Returns (object []) else
  l ← array links;
  found ← find_c (fun x => p <$> destructure x) l;
  mret (or found (object [])).

Definition find_link (links : value) (p : value -> bool) : completion value :=
  l ← array links;
  found ← find_c (fun x => p <$> destructure x) l;
  mret (or found (object [])).

Definition getDimensions (resource : value) : completion value :=
  r ← destructure (defaulted resource (object []));
  let links := r?."links" in
  let hasTime := r?."has_time" in
  wms ← find_link_opt links (fun x => is_str x?."link_type" "OGC:WMS");
  let wmsUrl := wms?."url" in
  wmts ← find_link_opt links (fun x => is_str x?."link_type" "OGC:WMTS");
  let wmtsUrl := wmts?."url" in
  if truthy hasTime then
    url ← (if truthy wmtsUrl then Returns wmtsUrl else
           s ← string_receiver (or wmsUrl (VStr ""));
           mret (VStr (split_head "/geoserver/" s ++ "/geoserver/gwc/service/wmts")));
    mret (VArr [object [
      "name" ↦ VStr "time";
      "source" ↦ object ["type" ↦ VStr "multidim-extension"; "url" ↦ url]
    ]])
  else mret (VArr []).

Module ResourceTypes.
Definition DATASET := "dataset".
Definition MAP := "map".
Definition DOCUMENT := "document".
Definition GEOSTORY := "geostory".
Definition DASHBOARD := "dashboard".
Definition VIEWER := "mapviewer".
End ResourceTypes.

Definition isDocumentExternalSource (resource : value) : value :=
  and resource
    (VBool (is_str resource?."resource_type" ResourceTypes.DOCUMENT
            && is_str resource?."sourcetype" SOURCE_TYPES.REMOTE)).

(** In the callback of [map] every layer has passed the filter, so that
    [layer], [layer.extendedParams] and [layer.extendedParams.mapLayer] are
    not nullish and the plain reads of the source cannot throw. *)
Definition getGeoNodeMapLayers (data : value) : completion value :=
  layers ← array (or data?."map"?."layers" (VArr []));
  let kept := List.filter (fun layer => truthy layer?."extendedParams"?."mapLayer") layers in
  mret (VArr (imap (fun index layer =>
    object [
      Spread (and layer?."extendedParams"?."mapLayer"
                  (object ["pk" ↦ layer?."extendedParams"?."mapLayer"?."pk"]));
      "current_style" ↦ or layer?."style" (VStr "");
      "extra_params" ↦ object ["msId" ↦ layer?."id"];
      Spread (and (VBool (is_str layer?."type" "wms"))
                  (object ["current_style" ↦ or layer?."style" (VStr "")]));
      "name" ↦ or layer?."name" (VStr "");
      "order" ↦ num (Z.of_nat index);
      "opacity" ↦ coalesce layer?."opacity" (num 1);
      "visibility" ↦ layer?."visibility"
    ]) kept)).

Definition toGeoNodeMapConfig (data : value) : completion value :=
  if not data then Returns (object []) else
  maplayers ← getGeoNodeMapLayers data;
  mret (object ["maplayers" ↦ maplayers]).

Definition compareBackgroundLayers (aLayer bLayer : value) : completion bool :=
  a ← destructure aLayer;
  b ← destructure bLayer;
  mret (strict_eq a?."type" b?."type"
        && strict_eq a?."name" b?."name"
        && strict_eq a?."source" b?."source"
        && strict_eq a?."provider" b?."provider"
        && strict_eq a?."url" b?."url").

(** [layers.filter(layer => layer.group === 'background')] and its
    complement: the read of [layer.group] throws on a nullish layer. *)
Definition in_background (layer : value) : completion bool :=
  g ← get layer "group"; mret (is_str g "background").

(** The callback that [toMapStoreMapConfig] maps over the layers that are
    not in the background; these have passed a filter that reads
    [layer.group], so [layer] is not nullish. *)
Definition attachMapLayer (maplayers : list value) (layer : value) : value :=
  let mapLayer := find (fun mLayer =>
    negb (strict_eq layer?."id" VUndef)
    && strict_eq mLayer?."extra_params"?."msId" layer?."id") maplayers in
  if truthy mapLayer then
    object [
      Spread layer;
      Spread (and (VBool (is_str layer?."type" "wms"))
                  (object ["style" ↦ or (or mapLayer?."current_style" layer?."style") (VStr "")]));
      "extendedParams" ↦ object [Spread layer?."extendedParams"; "mapLayer" ↦ mapLayer]
    ]
  else if not mapLayer && truthy layer?."extendedParams"?."mapLayer" then VNull
  else layer.

(** The local constant [layers] of [toMapStoreMapConfig]. [maplayers.find]
    is the first use of [maplayers]; a value that is not an array throws
    there or, when there is no layer to map, at [maplayers.filter] right
    after, with the same [TypeError]. *)
Definition mapStoreLayers (maplayers data : value) : completion (list value) :=
  all ← array (or data?."map"?."layers" (VArr []));
  front ← filter_c (fun layer => negb <$> in_background layer) all;
  ml ← array maplayers;
  mret (List.filter truthy (attachMapLayer ml <$> front)).

Definition parseUploadResponse (upload : value) : completion value :=
  l ← iterate upload;
  VArr <$> orderBy (uniqBy l "id") "create_date" desc.

(** The two callbacks of [processUploadResponse], [acc.find] and
    [acc.filter]; [upload] is an element of the accumulator, an object. *)
Definition isDuplicate (currentResponse upload : value) : bool :=
  if truthy upload?."id" && truthy currentResponse?."id" then
    strict_eq upload?."id" currentResponse?."id"
  else if truthy upload?."id" && truthy currentResponse?."exec_id" then
    strict_eq upload?."id" currentResponse?."exec_id"
  else if truthy upload?."exec_id" && truthy currentResponse?."id" then
    strict_eq upload?."exec_id" currentResponse?."id"
  else strict_eq upload?."exec_id" currentResponse?."exec_id".

Definition isOther (currentResponse upload : value) : bool :=
  if truthy upload?."id" && truthy currentResponse?."id" then
    negb (strict_eq upload?."id" currentResponse?."id")
  else if truthy upload?."id" && truthy currentResponse?."exec_id" then
    negb (strict_eq upload?."id" currentResponse?."exec_id")
  else if truthy upload?."exec_id" && truthy currentResponse?."id" then
    negb (strict_eq upload?."exec_id" currentResponse?."id")
  else negb (strict_eq upload?."exec_id" currentResponse?."exec_id").

(** [{...currentResponse, ...(!currentResponse.id && {create_date:
    currentResponse.created, id: currentResponse.exec_id})}] *)
Definition withId (currentResponse : value) : value :=
  object [
    Spread currentResponse;
    Spread (and (VBool (not currentResponse?."id"))
                (object ["create_date" ↦ currentResponse?."created";
                         "id" ↦ currentResponse?."exec_id"]))
  ].

(** The reducer; reading [currentResponse.id] throws on a nullish
    element. *)
Definition addUpload (acc : list value) (currentResponse : value) : completion (list value) :=
  cur ← destructure currentResponse;
  let duplicate := find (isDuplicate cur) acc in
  if truthy duplicate then
    let newAcc := List.filter (isOther cur) acc in
    mret (withId cur :: newAcc)
  else mret (withId cur :: acc).

Definition processUploadResponse (response : value) : completion value :=
  l ← array response;
  newResponse ← foldl (fun acc cur => acc ≫= fun a => addUpload a cur) (Returns []) l;
  parseUploadResponse (VArr newResponse).

Definition getDownloadUrlInfo (resource : value) : completion value :=
  let hrefUrl := object ["url" ↦ resource?."href"; "ajaxSafe" ↦ VBool false] in
  if truthy (isDocumentExternalSource resource) then Returns hrefUrl else
  if negb (isEmpty resource?."download_urls") then
    let download_urls := resource?."download_urls" in
    downloadData ← (
      if strict_eq download_urls?."length" (num 1) then index download_urls 0
      else
        l ← array download_urls;
        find_c (fun d => truthy <$> get d "default") l);
    if negb (isEmpty downloadData) then
      Returns (object ["url" ↦ downloadData?."url"; "ajaxSafe" ↦ downloadData?."ajax_safe"])
    else Returns hrefUrl
  else Returns hrefUrl.

(** ** Permissions *)

Definition resourceToPermissionEntry (type resource : value) : completion value :=
  if is_str type "user" then
    id ← get resource "id";
    mret (object [
      "type" ↦ VStr "user";
      "id" ↦ or id resource?."pk";
      "avatar" ↦ resource?."avatar";
      "name" ↦ resource?."username";
      "permissions" ↦ resource?."permissions";
      "parsed" ↦ VBool true
    ])
  else
    id ← get resource "id";
    mret (object [
      "type" ↦ VStr "group";
      "id" ↦ or id resource?."group"?."pk";
      "name" ↦ resource?."title";
      "avatar" ↦ resource?."logo";
      "permissions" ↦ resource?."permissions";
      "parsed" ↦ VBool true
    ]).

(** The callbacks of [permissionsListsToCompact]:
    [({ permissions }) => permissions],
    [({ permissions, type }) => permissions && type === t] and
    [({ type, ...properties }) => (properties)]. *)
Definition hasPermissions (entry : value) : completion bool :=
  e ← destructure entry; mret (truthy e?."permissions").

Definition hasPermissionsAs (t : string) (entry : value) : completion bool :=
  e ← destructure entry;
  mret (truthy (and e?."permissions" (VBool (is_str e?."type" t)))).

Definition withoutType (entry : value) : completion value :=
  e ← destructure entry; mret (VObj (delete "type" (own e))).

Definition permissionsListsToCompact (lists : value) : completion value :=
  a ← destructure lists;
  let groups := a?."groups" in
  let entries := a?."entries" in
  gs ← array groups;
  gs ← filter_c hasPermissions gs;
  gs ← mapM withoutType gs;
  es ← array entries;
  os ← filter_c (hasPermissionsAs "group") es;
  os ← mapM withoutType os;
  us ← filter_c (hasPermissionsAs "user") es;
  us ← mapM withoutType us;
  mret (object ["groups" ↦ VArr gs; "organizations" ↦ VArr os; "users" ↦ VArr us]).

(** [(entry) => ({ ...entry, type: t, ...(!entry.parsed && { name:
    entry[name], avatar: entry[avatar] }) })]; the spread copies nothing of
    an entry that is [undefined] or [null], and the read of [entry.parsed]
    throws on it. *)
Definition toListEntry (t name avatar : string) (entry : value) : completion value :=
  parsed ← get entry "parsed";
  mret (object [
    Spread entry;
    "type" ↦ VStr t;
    Spread (and (VBool (not parsed))
                (object ["name" ↦ entry?.name; "avatar" ↦ entry?.avatar]))
  ]).

Definition permissionsCompactToLists (compact : value) : completion value :=
  c ← destructure compact;
  let groups := c?."groups" in
  let users := c?."users" in
  let organizations := c?."organizations" in
  gs ← array (or groups (VArr []));
  gs ← mapM (toListEntry "group" "name" "logo") gs;
  us ← array (or users (VArr []));
  us ← mapM (toListEntry "user" "username" "avatar") us;
  os ← array (or organizations (VArr []));
  os ← mapM (toListEntry "group" "title" "logo") os;
  mret (object ["groups" ↦ VArr gs; "entries" ↦ VArr (us ++ os)]).

(** [({ id, permissions }) => ({ id, permissions })] and the comparison
    [(a, b) => a.id > b.id ? -1 : 1] of [cleanCompactPermissions]. *)
Definition idAndPermissions (entry : value) : completion value :=
  e ← destructure entry;
  mret (object ["id" ↦ e?."id"; "permissions" ↦ e?."permissions"]).

Definition greaterId (a b : value) : completion bool :=
  x ← get a "id"; y ← get b "id"; greater x y.

Definition cleanCompactPermissions (compact : value) : completion value :=
  c ← destructure compact;
  let groups := c?."groups" in
  let users := c?."users" in
  let organizations := c?."organizations" in
  gs ← array groups;
  gs ← mapM idAndPermissions gs;
  gs ← sort greaterId gs;
  os ← array organizations;
  os ← mapM idAndPermissions os;
  os ← sort greaterId os;
  us ← array users;
  us ← mapM idAndPermissions us;
  us ← sort greaterId us;
  mret (object ["groups" ↦ VArr gs; "organizations" ↦ VArr os; "users" ↦ VArr us]).

(** The callbacks of [getGeoLimitsFromCompactPermissions]. *)
Definition isGeoLimitsChanged (entry : value) : completion bool :=
  e ← destructure entry; mret (truthy e?."isGeoLimitsChanged").

Definition toGeoLimits (t : string) (entry : value) : completion value :=
  e ← destructure entry;
  mret (object ["id" ↦ e?."id"; "features" ↦ e?."features"; "type" ↦ VStr t]).

Definition getGeoLimitsFromCompactPermissions (compact : value) : completion value :=
  c ← destructure compact;
  let groups := defaulted c?."groups" (VArr []) in
  let users := defaulted c?."users" (VArr []) in
  let organizations := defaulted c?."organizations" (VArr []) in
  us ← array users;
  us ← filter_c isGeoLimitsChanged us;
  us ← mapM (toGeoLimits "user") us;
  gs ← iterate groups;
  os ← iterate organizations;
  gos ← filter_c isGeoLimitsChanged (gs ++ os);
  gos ← mapM (toGeoLimits "group") gos;
  mret (VArr (us ++ gos)).

Definition resourceHasPermission (resource perm : value) : completion value :=
  includes_chain resource?."perms" perm.

(** Util to check if resource can be cloned (Save As). Requirements for
    copying are 'add_resource' permission and is_copyable property on
    resource; the dataset and document need also the
    download_resourcebase permission. *)
Definition canCopyResource (resource user : value) : completion value :=
  canAdd ← includes_chain user?."perms" (VStr "add_resource");
  let canCopy := resource?."is_copyable" in
  let resourceType := resource?."resource_type" in
  if existsb (strict_eq resourceType)
       [VStr ResourceTypes.DATASET; VStr ResourceTypes.DOCUMENT] then
    canDownload ← includes_chain resource?."perms" (VStr "download_resourcebase");
    let canDownload := VBool (truthy canDownload) in
    mret (VBool (truthy (and (and canAdd canCopy) canDownload)))
  else mret (VBool (truthy (and canAdd canCopy))).

Definition settingsPerms : list value :=
  [VStr "feature_resourcebase"; VStr "approve_resourcebase"; VStr "publish_resourcebase"].

Definition canManageResourceSettings (resource : value) : completion value :=
  let perms := (or resource (object []))?."perms" in
  l ← array (or perms (VArr []));
  mret (VBool (truthy (find (fun perm => existsb (strict_eq perm) settingsPerms) l))).

Definition canAccessPermissions (resource : value) : completion value :=
  let perms := (or resource (object []))?."perms" in
  includes_chain perms (VStr "change_resourcebase_permissions").

(** ** Statuses *)

(** The constants of [@js/utils/ResourceServiceUtils] that the statuses
    read. *)
Record processes : Type := {
  ProcessStatus_RUNNING : value;
  ProcessStatus_READY : value;
  ProcessTypes_DELETE_RESOURCE : value;
  ProcessTypes_COPY_RESOURCE : value
}.

(** The callback that selects the running executions. *)
Definition isRunning (P : processes) (userInfo : value) (execution : value) : completion bool :=
  e ← destructure execution;
  let funcName := e?."func_name" in
  let status := e?."status" in
  let user := e?."user" in
  mret (existsb (strict_eq status) [ProcessStatus_RUNNING P; ProcessStatus_READY P]
        && existsb (strict_eq funcName)
             [VStr "delete"; VStr "copy";
              ProcessTypes_DELETE_RESOURCE P; ProcessTypes_COPY_RESOURCE P]
        && (strict_eq user VUndef || strict_eq user userInfo?."info"?."preferred_username")).

Definition getResourceStatuses (P : processes) (resource userInfo : value) : completion value :=
  let executions := defaulted (or resource (object []))?."executions" (VArr []) in
  let isApproved := resource?."is_approved" in
  let isPublished := and isApproved resource?."is_published" in
  l ← array executions;
  runningExecutions ← filter_c (isRunning P userInfo) l;
  let isProcessing := truthy (len runningExecutions) in
  let isDeleting := existsb (fun e =>
    existsb (strict_eq e?."func_name") [VStr "delete"; ProcessTypes_DELETE_RESOURCE P])
    runningExecutions in
  let isCopying := existsb (fun e =>
    existsb (strict_eq e?."func_name") [VStr "copy"; ProcessTypes_COPY_RESOURCE P])
    runningExecutions in
  advertised ← get resource "advertised";
  mret (object [
    "isApproved" ↦ isApproved;
    "isPublished" ↦ isPublished;
    "isProcessing" ↦ VBool isProcessing;
    "isDeleting" ↦ VBool isDeleting;
    "isCopying" ↦ VBool isCopying;
    "items" ↦ VArr (
      (if strict_eq advertised (VBool false) then [object [
         "type" ↦ VStr "icon";
         "tooltipId" ↦ VStr "resourcesCatalog.unadvertised";
         "glyph" ↦ VStr "eye-slash"
       ]] else [])
      ++ (if isDeleting then [object [
            "type" ↦ VStr "text";
            "labelId" ↦ VStr "gnviewer.deleting";
            "variant" ↦ VStr "danger"
          ]] else [])
      ++ (if isCopying then [object [
            "type" ↦ VStr "text";
            "labelId" ↦ VStr "gnviewer.cloning";
            "variant" ↦ VStr "primary"
          ]] else []))
  ]).

(** ** Styles *)

Definition parseStyleName (style : value) : completion value :=
  s ← destructure style;
  let workspace := s?."workspace" in
  let name := s?."name" in
  n ← string_receiver name;
  let nameParts := split_on (Ascii.ascii_of_nat 58) n in
  if Nat.ltb 1 (length nameParts) then mret name
  else if isString workspace then
    w ← to_string workspace;
    mret (VStr (w ++ ":" ++ n))
  else if isObject workspace && negb (strict_eq workspace?."name" VUndef) then
    w ← to_string workspace?."name";
    mret (VStr (w ++ ":" ++ n))
  else mret name.

(** The callback that [cleanStyles] maps over the styles. *)
Definition cleanStyle (style : value) : completion value :=
  s ← destructure style;
  let name := s?."name" in
  let sldTitle := s?."sld_title" in
  let title := s?."title" in
  let workspace := s?."workspace" in
  parsed ← parseStyleName (object ["workspace" ↦ workspace; "name" ↦ name]);
  mret (object [
    "name" ↦ parsed;
    "title" ↦ or (or sldTitle title) name;
    "metadata" ↦ s?."metadata";
    "format" ↦ s?."format";
    "canEdit" ↦ s?."canEdit"
  ]).

Definition cleanStyles (styles excluded : value) : completion value :=
  let styles := defaulted styles (VArr []) in
  let excluded := defaulted excluded (VArr []) in
  l ← array styles;
  cleaned ← mapM cleanStyle l;
  kept ← filter_c (fun s =>
            s ← destructure s;
            negb <$> includes excluded s?."name") (uniqBy cleaned "name");
  mret (VArr kept).

(** ** Linked resources and assets *)

Definition getResourceWithLinkedResources (resource : value) : completion value :=
  let resource := defaulted resource (object []) in
  linked ← get resource "linked_resources";
  let linkedResources := coalesce linked (object []) in
  if negb (isEmpty linkedResources) then
    let linkedTo := coalesce linkedResources?."linked_to" (VArr []) in
    let linkedBy := coalesce linkedResources?."linked_by" (VArr []) in
    let linkedResources :=
      if isEmpty linkedTo && isEmpty linkedBy then object []
      else object ["linkedTo" ↦ linkedTo; "linkedBy" ↦ linkedBy] in
    mret (object [Spread (omit resource "linked_resources");
                  "linkedResources" ↦ linkedResources])
  else mret resource.

Definition isAsset (link : value) : bool :=
  truthy (and (VBool (is_str link?."extras"?."type" "asset"))
              link?."extras"?."content"?."title").

Definition getResourceAdditionalProperties (_resource : value) : completion value :=
  let _resource := defaulted _resource (object []) in
  resource ← getResourceWithLinkedResources _resource;
  let links := or resource?."links" (VArr []) in
  l ← array links;
  let assets := List.filter isAsset l in
  mret (object [
    Spread resource;
    Spread (and (len assets) (object ["assets" ↦ VArr assets]))
  ]).

Section WithImports.

Variable I : imports.

Definition uuid : effect value := fun n => (Returns (VStr (uuid_at I n)), S n).

(** convert resource layer configuration to a mapstore layer object *)
Definition resourceToLayerConfig (resource : value) : effect value :=
  r ← lift (destructure resource);
  let alternate := r?."alternate" in
  let links := defaulted r?."links" (VArr []) in
  let template := r?."featureinfo_custom_template" in
  let title := r?."title" in
  let perms := r?."perms" in
  let pk := r?."pk" in
  let defaultStyle := r?."default_style" in
  let ptype := r?."ptype" in
  let subtype := r?."subtype" in
  let sourcetype := r?."sourcetype" in
  let layerSettings := r?."data" in
  bbox ← lift (getExtentFromResource resource);
  defaultStyleParams ← lift (
    if truthy defaultStyle then
      name ← (if truthy defaultStyle?."workspace" then
                w ← to_string defaultStyle?."workspace";
                n ← to_string defaultStyle?."name";
                mret (VStr (w ++ ":" ++ n))
              else mret defaultStyle?."name");
      mret (object ["defaultStyle" ↦ object ["title" ↦ defaultStyle?."sld_title"; "name" ↦ name]])
    else mret defaultStyle);
  let extendedParams := object [
    "pk" ↦ pk;
    "mapLayer" ↦ object ["dataset" ↦ resource];
    Spread defaultStyleParams
  ] in
  if is_str subtype "3dtiles" then
    tileset ← lift (find_link links (fun x => is_str x?."extension" "3dtiles"));
    let tilesetUrl := tileset?."url" in
    id ← uuid;
    mret (object [
      "id" ↦ id;
      "type" ↦ VStr "3dtiles";
      "title" ↦ title;
      "url" ↦ parseDevHostname I (or tilesetUrl (VStr ""));
      Spread (and bbox (object ["bbox" ↦ bbox]));
      "visibility" ↦ VBool true;
      "extendedParams" ↦ extendedParams
    ])
  else if is_str ptype GXP_PTYPES.REST_MAP || is_str ptype GXP_PTYPES.REST_IMG then
    arcgis ← lift (find_link links (fun x =>
                is_str x?."mime" "text/html" && is_str x?."link_type" "image"));
    let arcgisUrl := arcgis?."url" in
    id ← uuid;
    named ← lift (
      if isImageServerUrl I arcgisUrl then mret (object ["queryable" ↦ VBool false])
      else
        a ← string_receiver alternate;
        mret (object ["name" ↦ VStr (replace_first "remoteWorkspace:" "" a)]));
    mret (object [
      "perms" ↦ perms;
      "id" ↦ id;
      "pk" ↦ pk;
      "type" ↦ VStr "arcgis";
      Spread named;
      "url" ↦ arcgisUrl;
      Spread (and bbox (object ["bbox" ↦ bbox]));
      "title" ↦ title;
      "visibility" ↦ VBool true;
      "extendedParams" ↦ extendedParams
    ])
  else
    wfs ← lift (find_link links (fun x => is_str x?."link_type" "OGC:WFS"));
    let wfsUrl := wfs?."url" in
    wms ← lift (find_link links (fun x => is_str x?."link_type" "OGC:WMS"));
    let wmsUrl := wms?."url" in
    dimensions ← lift (getDimensions resource);
    params ← lift (
      if truthy wmsUrl then
        u ← string_receiver wmsUrl; mret (url_parse_query I u)
      else mret wmsUrl);
    let settings := or (getConfigProp I "geoNodeSettings") (object []) in
    let defaultLayerFormat := defaulted settings?."defaultLayerFormat" (VStr "image/png") in
    let defaultTileSize := defaulted settings?."defaultTileSize" (num 512) in
    fields ← lift (datasetAttributeSetToFields resource);
    id ← uuid;
    hasDimensions ← lift (gt dimensions?."length" 0%Q);
    vendor ← lift (
      if is_str sourcetype SOURCE_TYPES.REMOTE then
        inc ← includes wmsUrl (VStr "/geoserver/");
        mret (and (VBool (negb inc)) (object ["serverType" ↦ ServerTypes_NO_VENDOR I]))
      else mret (VBool false));
    mret (object [
      "perms" ↦ perms;
      "id" ↦ id;
      "pk" ↦ pk;
      "type" ↦ VStr "wms";
      "name" ↦ alternate;
      "url" ↦ or wmsUrl (VStr "");
      "format" ↦ defaultLayerFormat;
      Spread (and wfsUrl (object ["search" ↦ object ["type" ↦ VStr "wfs"; "url" ↦ wfsUrl]]));
      Spread (if truthy bbox then object ["bbox" ↦ bbox] else object ["bboxError" ↦ VBool true]);
      Spread (and template (object ["featureInfo" ↦
                object ["format" ↦ VStr FEATURE_INFO_FORMAT; "template" ↦ template]]));
      "style" ↦ or defaultStyleParams?."defaultStyle"?."name" (VStr "");
      "title" ↦ title;
      "tileSize" ↦ defaultTileSize;
      "visibility" ↦ VBool true;
      Spread (and params (object ["params" ↦ params]));
      Spread (and (VBool hasDimensions) (object ["dimensions" ↦ dimensions]));
      "extendedParams" ↦ extendedParams;
      Spread (and fields (object ["fields" ↦ fields]));
      Spread vendor;
      Spread layerSettings
    ]).

Definition toMapStoreMapConfig (resource baseConfig : value) : effect value :=
  let r := or resource (object []) in
  let maplayers := defaulted r?."maplayers" (VArr []) in
  let data := r?."data" in
  baseMapBackgroundLayers ← lift (
    l ← array (or baseConfig?."map"?."layers" (VArr []));
    filter_c in_background l);
  currentBackgroundLayer ← lift (
    l ← array (or data?."map"?."layers" (VArr []));
    bg ← filter_c in_background l;
    find_c (fun layer =>
      if truthy layer?."visibility" then
        truthy <$> find_c (fun bLayer => compareBackgroundLayers layer bLayer) baseMapBackgroundLayers
      else mret false) bg);
  backgroundLayers ← lift (
    if not currentBackgroundLayer then mret baseMapBackgroundLayers
    else mapM (fun layer =>
           same ← compareBackgroundLayers layer currentBackgroundLayer;
           mret (object [Spread layer; "visibility" ↦ VBool same])) baseMapBackgroundLayers);
  layers ← lift (mapStoreLayers maplayers data);
  (* add all the map layers not included in the blob *)
  ml ← lift (array maplayers);
  let missing :=
    List.filter (fun mLayer => negb (truthy (find (fun layer =>
        negb (strict_eq layer?."id" VUndef)
        && strict_eq mLayer?."extra_params"?."msId" layer?."id") layers)))
      (List.filter (fun mLayer => truthy mLayer?."dataset") ml) in
  addMapLayers ← mapM (fun mLayer => resourceToLayerConfig mLayer?."dataset") missing;
  mret (object [
    Spread data;
    "map" ↦ object [
      Spread data?."map";
      "layers" ↦ VArr (backgroundLayers ++ layers ++ addMapLayers);
      "sources" ↦ object [Spread data?."map"?."sources"; Spread baseConfig?."map"?."sources"]
    ]
  ]).

(** The callback that [resourceToLayers] maps over the map layers. Its
    first statement evaluates [resourceToLayerConfig(maplayer.dataset)] and
    drops the result. *)
Definition maplayerToLayer (maplayer : value) : effect value :=
  dataset ← lift (get maplayer "dataset");
  _ ← (if truthy dataset then resourceToLayerConfig dataset else mret VNull);
  if truthy dataset then
    layer ← resourceToLayerConfig dataset;
    mret (object [Spread layer; "style" ↦ maplayer?."current_style"])
  else mret VNull.

Definition resourceToLayers (resource : value) : effect value :=
  if is_str resource?."resource_type" ResourceTypes.DATASET then
    layer ← resourceToLayerConfig resource;
    mret (VArr [object [Spread layer; "isDataset" ↦ VBool true]])
  else
    maplayers ← lift (get resource "maplayers");
    if truthy maplayers && is_str resource?."resource_type" ResourceTypes.MAP then
      l ← lift (array maplayers);
      layers ← mapM maplayerToLayer l;
      mret (VArr (List.filter truthy layers))
    else mret (VArr []).

End WithImports.

End ResourceUtils.

Import ResourceUtils.

(* ===================================================================== *)
(** * [js/epics/gnsave.js] *)
(* ===================================================================== *)

Module GnSave.

(** The calls of [@js/api/geonode/v2] and [@js/api/geonode/security] that
    the embedded code makes; each returns a promise. *)
Inductive request : Type :=
| getResourceByPk (pk : value)
| updateGeoLimits (resourceId id type body : value)
| deleteGeoLimits (resourceId id type : value)
| updateMap (id body : value)
| createMap (body : value)
| updateDocument (id body : value).

(** What an entry of [SaveAPI] returns: the promise of a call, or a plain
    value. *)
Inductive returned : Type :=
| Promise (r : request)
| Plain (v : value).

Definition parseMapBody (body : value) : completion value :=
  data ← get body "data";
  geoNodeMap ← toGeoNodeMapConfig data;
  mret (object [Spread body; Spread geoNodeMap]).

(** The entries [SaveAPI[ResourceTypes.MAP]] and
    [SaveAPI[ResourceTypes.DOCUMENT]]. The entries for geostories,
    dashboards, datasets and viewers are outside the embedded fragment; a
    content type without entry makes the call of [undefined] throw. *)
Definition SaveAPI (contentType : string) (state id body : value) : completion returned :=
  if String.eqb contentType ResourceTypes.MAP then
    if truthy id then
      b ← parseMapBody body;
      mret (Promise (updateMap id (object [Spread b; "id" ↦ id])))
    else
      b ← parseMapBody body;
      mret (Promise (createMap b))
  else if String.eqb contentType ResourceTypes.DOCUMENT then
    if truthy id then mret (Promise (updateDocument id body)) else mret (Plain (VBool false))
  else if String.eqb contentType ResourceTypes.GEOSTORY
          || String.eqb contentType ResourceTypes.DASHBOARD
          || String.eqb contentType ResourceTypes.DATASET
          || String.eqb contentType ResourceTypes.VIEWER then Throws OutOfFragment
  else Throws TypeError.

(** The actions the epic dispatches, by their creators. *)
Inductive action : Type :=
| savingResource
| saveContent (id metadata reload showNotifications : value)
| resetGeoLimits
| saveError (error : value)
| errorNotification (options : value).

(** The selectors of [@js/selectors/resource] and of the framework that
    the epic reads the store with, and the message the engine gives the
    error object of a thrown exception. *)
Record selectors : Type := {
  mapInfoSelector : value -> value;
  getResourceId : value -> value;
  getPermissionsPayload : value -> value;
  getResourceName : value -> value;
  getResourceDescription : value -> value;
  message_of : thrown -> string
}.

(** ** Promises

    A request is issued when its function is called. It settles later,
    once, resolved or rejected; [outcome_of i] is how the [i]-th issued
    request settles and the list [arrival] gives the order in which the
    responses come in. *)
Inductive outcome : Type :=
| Resolved (v : value)
| Rejected (reason : value).

Inductive event : Type :=
| Emitted (a : action)
| Issued (i : nat) (r : request)
| Settled (i : nat) (o : outcome)
| Crashed (e : thrown).

(** A promise with the handler that [.catch(handler)] has attached to it,
    if any. *)
Record promise : Type := {
  call : request;
  handler : option (value -> value)
}.

Definition settle (p : promise) (o : outcome) : outcome :=
  match o, handler p with
  | Rejected reason, Some h => Resolved (h reason)
  | _, _ => o
  end.

(** [Promise.all] (and [axios.all]): resolved with the values of all the
    promises, in their order, once all are resolved; rejected as soon as
    one of them is. *)
Inductive verdict : Type :=
| AllResolved (vs : list value)
| OneRejected (reason : value)
| Pending.

Definition collected (ps : list promise) (got : gmap nat value) : option (list value) :=
  mapM (fun i => got !! i) (seq 0 (length ps)).

(** The events while [Promise.all] waits, its verdict, and the arrivals
    that are left when the verdict falls. An arrival that names no promise
    or one that has already settled is no event. *)
Fixpoint all (ps : list promise) (outcome_of : nat -> outcome) (arrival : list nat)
    (got : gmap nat value) : list event * verdict * list nat :=
  match collected ps got with
  | Some vs => ([], AllResolved vs, arrival)
  | None =>
      match arrival with
      | [] => ([], Pending, [])
      | i :: rest =>
          match ps !! i, got !! i with
          | Some p, None =>
              match settle p (outcome_of i) with
              | Resolved v =>
                  let '(events, v', remaining) := all ps outcome_of rest (<[i := v]> got) in
                  (Settled i (outcome_of i) :: events, v', remaining)
              | Rejected reason => ([Settled i (outcome_of i)], OneRejected reason, rest)
              end
          | _, _ => all ps outcome_of rest got
          end
      end
  end.

(** The responses that come in after the verdict. *)
Fixpoint late (ps : list promise) (outcome_of : nat -> outcome) (arrival : list nat)
    (seen : gset nat) : list event :=
  match arrival with
  | [] => []
  | i :: rest =>
      match ps !! i with
      | Some _ =>
          if bool_decide (i ∈ seen) then late ps outcome_of rest seen
          else Settled i (outcome_of i) :: late ps outcome_of rest ({[i]} ∪ seen)
      | None => late ps outcome_of rest seen
      end
  end.

Definition settled_in (events : list event) : gset nat :=
  list_to_set (omap (fun e => match e with Settled i _ => Some i | _ => None end) events).

Section Epic.

Variable S : selectors.

(** The error object of a thrown exception. *)
Definition error_of (e : thrown) : value := object ["message" ↦ VStr (message_of S e)].

(** One element of [geoLimits.map(...)]: the call, with the handler of its
    [.catch]. *)
Definition geoLimitsCall (resourceId limits : value) : completion promise :=
  n ← path limits ["features"; "length"];
  let marker := fun _ : value =>
    object ["error" ↦ VBool true; "resourceId" ↦ resourceId; "limits" ↦ limits] in
  if strict_eq n (num 0) then
    mret {| call := deleteGeoLimits resourceId limits?."id" limits?."type";
            handler := Some marker |}
  else
    mret {| call := updateGeoLimits resourceId limits?."id" limits?."type"
                      (object ["features" ↦ limits?."features"]);
            handler := Some marker |}.

(** The elements of the array literal passed to [axios.all], evaluated
    from left to right: every call that is evaluated issues its request;
    an exception stops the evaluation. *)
Fixpoint geoLimitsCalls (resourceId : value) (limits : list value) : list promise * option thrown :=
  match limits with
  | [] => ([], None)
  | l :: rest =>
      match geoLimitsCall resourceId l with
      | Returns p =>
          let '(ps, t) := geoLimitsCalls resourceId rest in (p :: ps, t)
      | Throws e => ([], Some e)
      end
  end.

Definition calls (resourceId geoLimits : value) : list promise * option thrown :=
  let fetch := {| call := getResourceByPk resourceId; handler := None |} in
  if truthy geoLimits then
    match array geoLimits with
    | Returns limits =>
        let '(ps, t) := geoLimitsCalls resourceId limits in (fetch :: ps, t)
    | Throws e => ([fetch], Some e)
    end
  else ([fetch], None).

(** The function given to [switchMap]. *)
Definition onResponses (state resourceId : value) (responses : list value) : completion (list action) :=
  let resource := elem responses 0 in
  let geoLimitsResponses := drop 1 responses in
  geoLimitsErrors ← filter_c (fun r => r ← destructure r; mret (truthy r?."error"))
                      geoLimitsResponses;
  let name := getResourceName S state in
  let description := getResourceDescription S state in
  let metadata := object [
    "name" ↦ (if truthy name then name else resource?."title");
    "description" ↦ (if truthy description then description else resource?."abstract");
    "extension" ↦ resource?."extension";
    "href" ↦ resource?."href"
  ] in
  mret [
    saveContent resourceId metadata (VBool false)
      (if Nat.ltb 0 (length geoLimitsErrors) then
         object ["title" ↦ VStr "gnviewer.warningGeoLimitsSaveTitle";
                 "message" ↦ VStr "gnviewer.warningGeoLimitsSaveMessage"]
       else VBool true (* showNotification *));
    resetGeoLimits
  ].

(** The function given to [catch]. *)
Definition onError (error : value) : completion (list action) :=
  data ← get error "data";
  mret [
    saveError (or data error?."message");
    errorNotification (object [
      "title" ↦ VStr "map.mapError.errorTitle";
      "message" ↦ or (or error?."data"?."detail" error?."message")
                     (VStr "map.mapError.errorDefault")
    ])
  ].

Definition emit (c : completion (list action)) : list event :=
  match c with
  | Returns actions => Emitted <$> actions
  | Throws e => [Crashed e]
  end.

(** An exception in the function given to [switchMap] reaches [catch]. *)
Definition caught (c : completion (list action)) : list event :=
  match c with
  | Returns actions => Emitted <$> actions
  | Throws e => emit (onError (error_of e))
  end.

(** What the epic does on one [SAVE_DIRECT_CONTENT] action, as the
    sequence of its events. *)
Definition gnSaveDirectContent (state : value) (outcome_of : nat -> outcome)
    (arrival : list nat) : list event :=
  let mapInfo := mapInfoSelector S state in
  let resourceId := or mapInfo?."id" (getResourceId S state) in
  match destructure (getPermissionsPayload S state) with
  | Throws e => [Crashed e]
  | Returns payload =>
      let geoLimits := payload?."geoLimits" in
      (* resource information should be saved in a synchronous manner
         i.e update resource data followed by permissions *)
      let '(ps, t) := calls resourceId geoLimits in
      Emitted savingResource
        :: imap (fun i p => Issued i (call p)) ps
        ++ match t with
           | Some e => emit (onError (error_of e)) ++ late ps outcome_of arrival ∅
           | None =>
               let '(waiting, v, remaining) := all ps outcome_of arrival ∅ in
               waiting
                 ++ match v with
                    | AllResolved responses => caught (onResponses state resourceId responses)
                    | OneRejected reason => emit (onError reason)
                    | Pending => []
                    end
                 ++ late ps outcome_of remaining (settled_in waiting)
           end
  end.

End Epic.

End GnSave.

(* ===================================================================== *)
(** * [js/plugins/DownloadResource.jsx] *)
(* ===================================================================== *)

Module DownloadResource.

(** The properties the component reads, [undefined] when not passed;
    [onAction] is a function and appears only in the handler of the
    rendered element. *)
Record props : Type := {
  resource : value;
  resourceData : value;
  variant : value;
  size : value;
  renderType : value;
  showIcon : value;
  downloadMsgId : value;
  allowedSources : value;
  downloading : value
}.

(** What the component returns: [null], the element that links to the
    download url, or the element whose [onClick] calls [onAction(_resource)]
    unless a download is running. Elements are given by their component,
    their attributes and their child. *)
Inductive rendered : Type :=
| Null
| LinkTo (component attrs child : value)
| CallsOnAction (component attrs child : value).

(** [RENDER_TYPE[renderType]]; components are named by the variable that
    holds them. The key of an array or object would be its string
    conversion. *)
Definition RENDER_TYPE (renderType : value) : completion value :=
  match renderType with
  | VStr s =>
      Returns (object ["button" ↦ VStr "ButtonWithTooltip"; "menuItem" ↦ VStr "MenuItem"])?.s
  | VArr _ | VObj _ => Throws OutOfFragment
  | _ => Returns VUndef
  end.

(** [v?.includes(x)]: [undefined] when [v] is nullish. *)
Definition includes_opt (v x : value) : completion bool :=
  if nullish v then Returns false else includes v x.

Definition DownloadButton (p : props) : completion rendered :=
  let renderType := defaulted (renderType p) (VStr "button") in
  let downloadMsgId := defaulted (downloadMsgId p) (VStr "gnviewer.download") in
  let allowedSources := defaulted (allowedSources p)
                          (VArr [VStr SOURCE_TYPES.LOCAL; VStr SOURCE_TYPES.REMOTE]) in
  Component ← RENDER_TYPE renderType;
  let isButton := negb (is_str renderType "menuItem") in
  let _resource := coalesce (resource p) (resourceData p) in
  downloadInfo ← getDownloadUrlInfo _resource;
  let isExternal := isDocumentExternalSource _resource in
  let isNotAjaxSafe := negb (truthy downloadInfo?."ajaxSafe") in
  hidden ←
    orelse (orelse (orelse (orelse
      (if isEmpty _resource?."download_urls"
       then negb <$> includes_opt _resource?."perms" (VStr "download_resourcebase")
       else mret false)
      (negb <$> includes_opt _resource?."perms" (VStr "download_resourcebase")))
      (mret (negb isButton && isNotAjaxSafe)))
      (* exclude arcgis remote layers from direct download *)
      (mret (existsb (strict_eq _resource?."ptype")
               [VStr GXP_PTYPES.REST_MAP; VStr GXP_PTYPES.REST_IMG])))
      (negb <$> includes allowedSources _resource?."sourcetype");
  if hidden : bool then mret Null else
  let sized := and (VBool isButton) (object ["variant" ↦ variant p; "size" ↦ size p]) in
  let tipped := and (showIcon p) (object ["tooltipId" ↦ downloadMsgId]) in
  if isNotAjaxSafe then
    if truthy downloadInfo?."url" then
      mret (LinkTo Component
        (object [
          Spread sized;
          Spread tipped;
          "download" ↦ VBool true;
          "href" ↦ downloadInfo?."url";
          "target" ↦ VStr "_blank";
          "rel" ↦ VStr "noopener noreferrer"
        ])
        (if truthy (showIcon p)
         then object ["Icon" ↦ object ["glyph" ↦ VStr (if truthy isExternal then "external-link" else "download")]]
         else object ["Message" ↦ object ["msgId" ↦ downloadMsgId]]))
    else mret Null
  else
    mret (CallsOnAction Component
      (object [
        "disabled" ↦ VBool (truthy (downloading p));
        Spread sized;
        Spread tipped
      ])
      (if truthy (showIcon p)
       then object ["Icon" ↦ object ["glyph" ↦ VStr "download"]]
       else object ["Message" ↦ object ["msgId" ↦ downloadMsgId]])).

End DownloadResource.

(* ===================================================================== *)
(** * [js/components/ResourcesCompactCatalog/ResourcesCompactCatalog.jsx] *)
(* ===================================================================== *)

Module Catalog.

(** The state hooks of the component. *)
Record state : Type := {
  entries : value;
  loading : bool;
  page : nat;
  isNextPageAvailable : value;
  q : value
}.

Definition initial : state :=
  {| entries := VArr []; loading := false; page := 1;
     isNextPageAvailable := VBool false; q := VStr "" |}.

(** The calls of the state setters, and the reset of the scroll position. *)
Inductive update : Type :=
| setEntries (v : value)
| setLoading (b : bool)
| setPage (n : nat)
| setIsNextPageAvailable (v : value)
| setQ (v : value)
| scrollTop0.

Definition apply (s : state) (u : update) : state :=
  match u with
  | setEntries v =>
      {| entries := v; loading := loading s; page := page s;
         isNextPageAvailable := isNextPageAvailable s; q := q s |}
  | setLoading b =>
      {| entries := entries s; loading := b; page := page s;
         isNextPageAvailable := isNextPageAvailable s; q := q s |}
  | setPage n =>
      {| entries := entries s; loading := loading s; page := n;
         isNextPageAvailable := isNextPageAvailable s; q := q s |}
  | setIsNextPageAvailable v =>
      {| entries := entries s; loading := loading s; page := page s;
         isNextPageAvailable := v; q := q s |}
  | setQ v =>
      {| entries := entries s; loading := loading s; page := page s;
         isNextPageAvailable := isNextPageAvailable s; q := v |}
  | scrollTop0 => s
  end.

(** The properties the requests depend on: whether [request] is given,
    [responseToEntries], [pageSize], [params], and whether the scroll
    container is attached. *)
Record props : Type := {
  request : bool;
  responseToEntries : value -> completion value;
  pageSize : value;
  params : value;
  scrollContainer : bool
}.

(** A request in flight: the argument [request] was called with, and what
    the handlers given to [then] have captured from the render that issued
    it. *)
Record pending : Type := {
  argument : value;
  requested_page : nat;
  captured_entries : value
}.

Definition page_number (n : nat) : value := num (Z.of_nat n).

(** [updateRequest.current(options)], in the render whose state is [s]:
    the setter calls it makes, and the request it issues. *)
Definition updateRequest (p : props) (s : state) (options_page : nat) (options_reset : bool)
    : list update * option pending :=
  if negb (loading s) && request p then
    (app (if scrollContainer p && options_reset then [scrollTop0] else []) [setLoading true],
     Some {| argument := object [
               Spread (params p);
               "q" ↦ q s;
               "page" ↦ page_number options_page;
               "pageSize" ↦ pageSize p
             ];
             requested_page := options_page;
             captured_entries := entries s |})
  else ([], None).

(** The handler given to [catch]. *)
Definition onRejected (isMounted : bool) : list update :=
  if isMounted then [setLoading false] else [].

(** The handler given to [then]; an exception in it reaches the handler
    given to [catch], after the setters already called. *)
Definition onResponse (p : props) (r : pending) (isMounted : bool) (response : value)
    : list update :=
  if isMounted then
    match responseToEntries p response with
    | Throws _ => onRejected isMounted
    | Returns newEntries =>
        match get response "isNextPageAvailable" with
        | Throws _ => onRejected isMounted
        | Returns next =>
            setIsNextPageAvailable next ::
            match
              (if Nat.eqb (requested_page r) 1 then Returns newEntries
               else
                 old ← iterate (captured_entries r);
                 new ← iterate newEntries;
                 mret (VArr (app old new)))
            with
            | Returns v => [setEntries v; setLoading false]
            | Throws _ => onRejected isMounted
            end
        end
    end
  else [].

(** The effect on [page]. *)
Definition pageEffect (p : props) (s : state) : list update * option pending :=
  if Nat.ltb 1 (page s) then updateRequest p s (page s) false else ([], None).

(** The effect on [q]. *)
Definition queryEffect (p : props) (s : state) : list update * option pending :=
  let '(updates, issued) := updateRequest p s 1 true in
  (setPage 1 :: updates, issued).

(** The callbacks given to [useInfiniteScroll]. *)
Definition shouldScroll (s : state) : bool :=
  negb (loading s) && truthy (isNextPageAvailable s).

Definition onLoad (s : state) : list update := [setPage (page s + 1)].

End Catalog.

(* ===================================================================== *)
(** * Properties *)
(* ===================================================================== *)

(** ** Objects and property reads *)

(** The value that a read of [k] finds in an object built from the
    members [ms], given last member first, over what [base] holds. *)
Fixpoint resolve (ms : list member) (k : string) (base : option value) : option value :=
  match ms with
  | [] => base
  | Field k' v :: ms' => if decide (k' = k) then Some v else resolve ms' k base
  | Spread v :: ms' =>
      match own v !! k with
      | Some x => Some x
      | None => resolve ms' k base
      end
  end.

Lemma resolve_app ms1 ms2 k base :
  resolve (ms1 ++ ms2) k base = resolve ms1 k (resolve ms2 k base).
Proof.
  induction ms1 as [|[k' v|v] ms1 IH]; simpl; [done| |].
  - by case_decide.
  - by destruct (own v !! k).
Qed.

Lemma lookup_add_member acc m k :
  add_member acc m !! k = resolve [m] k (acc !! k).
Proof.
  destruct m as [k' v|v]; simpl.
  - case_decide; subst; [by rewrite lookup_insert_eq|by rewrite lookup_insert_ne].
  - rewrite lookup_union. destruct (own v !! k), (acc !! k); done.
Qed.

Lemma lookup_members acc ms k :
  foldl add_member acc ms !! k = resolve (rev ms) k (acc !! k).
Proof.
  revert acc. induction ms as [|m ms IH]; intros acc; simpl; [done|].
  by rewrite IH, resolve_app, lookup_add_member.
Qed.

Lemma field_object ms k :
  (object ms)?.k = default VUndef (resolve (rev ms) k None).
Proof. unfold object, field. by rewrite lookup_members, lookup_empty. Qed.

Lemma own_object_lookup ms k :
  own (object ms) !! k = resolve (rev ms) k None.
Proof. unfold object, own. by rewrite lookup_members, lookup_empty. Qed.

Lemma own_falsy v : truthy v = false -> own v = ∅.
Proof.
  destruct v as [| |b|q|s|l|m]; simpl; try done.
  destruct s; [done|discriminate].
Qed.

Lemma own_and_lookup x ms k :
  resolve (rev ms) k None = None -> own (and x (object ms)) !! k = None.
Proof.
  intros H. unfold and. destruct (truthy x) eqn:Hx.
  - by rewrite own_object_lookup.
  - by rewrite own_falsy.
Qed.

Lemma get_Returns v k x : get v k = Returns x -> nullish v = false /\ x = v?.k.
Proof. unfold get. destruct (nullish v); [discriminate|]. by intros [= <-]. Qed.

Lemma get_not_nullish v k : nullish v = false -> get v k = Returns v?.k.
Proof. unfold get. by intros ->. Qed.

Lemma destructure_Returns v x : destructure v = Returns x -> nullish v = false /\ x = v.
Proof. unfold destructure. destruct (nullish v); [discriminate|]. by intros [= <-]. Qed.

Lemma truthy_not_nullish v : truthy v = true -> nullish v = false.
Proof. by destruct v. Qed.

(** ** The completion monad *)

Lemma bind_Returns {A B} (c : completion A) (f : A -> completion B) b :
  c ≫= f = Returns b -> exists a, c = Returns a /\ f a = Returns b.
Proof. destruct c as [a|e]; [by exists a|discriminate]. Qed.

Lemma fmap_Returns {A B} (c : completion A) (f : A -> B) b :
  f <$> c = Returns b -> exists a, c = Returns a /\ b = f a.
Proof. destruct c as [a|e]; [intros [= <-]; by exists a|discriminate]. Qed.

Lemma filter_c_pure (p : value -> completion bool) (q : value -> bool) l :
  (forall x, In x l -> p x = Returns (q x)) ->
  filter_c p l = Returns (List.filter q l).
Proof.
  induction l as [|x l IH]; intros H; [done|].
  cbn [filter_c List.filter]. rewrite (H x) by (by left). cbn.
  rewrite IH by (intros; apply H; by right). cbn. by destruct (q x).
Qed.

Lemma mapM_pure {A B} (f : A -> completion B) (g : A -> B) l :
  (forall x, In x l -> f x = Returns (g x)) ->
  mapM f l = Returns (g <$> l).
Proof.
  induction l as [|x l IH]; intros H; [done|].
  cbn. rewrite (H x) by (by left). cbn.
  rewrite IH by (intros; apply H; by right). done.
Qed.

Lemma find_c_pure (p : value -> bool) (ok : value -> bool) l :
  forallb ok l = true ->
  (forall x, ok x = true -> nullish x = false) ->
  find_c (fun x => p <$> destructure x) l = Returns (find p l).
Proof.
  intros Hl Hok. induction l as [|x l IH]; [done|].
  simpl in Hl. apply andb_prop in Hl as [Hx Hl].
  cbn [find_c]. assert (destructure x = Returns x) as ->.
  { unfold destructure. by rewrite (Hok x Hx). }
  cbn. unfold find. cbn [List.find]. destruct (p x); [done|]. by apply IH.
Qed.

(** ** Computations that draw identifiers *)

Lemma run_bind_lift {A B} (c : completion A) (f : A -> effect B) n :
  (lift c ≫= f) n = match c with Returns a => f a n | Throws e => (Throws e, n) end.
Proof. unfold mbind, effect_bind, lift. by destruct c. Qed.

Lemma run_bind_uuid {B} I (f : value -> effect B) n :
  (uuid I ≫= f) n = f (VStr (uuid_at I n)) (S n).
Proof. done. Qed.

Lemma run_ret {A} (a : A) n : (mret a : effect A) n = (Returns a, n).
Proof. done. Qed.

#[local] Opaque object.

(** One step of a run that is known to return: the next computation has
    returned too. *)
Ltac returned_step H :=
  match type of H with
  | context [(lift ?c ≫= _) _] =>
      rewrite (run_bind_lift c) in H; destruct c eqn:?; [|discriminate H]
  | context [(uuid _ ≫= _) _] => rewrite run_bind_uuid in H
  | context [@mret effect _ _ _ _] => rewrite run_ret in H
  end.

(** Concrete imports, for the examples: identifiers numbered in the order
    of the calls, no configuration. *)
Definition sample_imports : imports := {|
  uuid_at := fun n => "uuid-" ++ pretty n;
  parseDevHostname := fun v => v;
  isImageServerUrl := fun _ => false;
  getConfigProp := fun _ => VUndef;
  url_parse_query := fun _ => object [];
  ServerTypes_NO_VENDOR := VStr "no-vendor"
|}.

(** ** Extents (claim C6) *)

Definition below (v : value) (b : Q) : Prop := exists q, v = VNum q /\ (q < b)%Q.
Definition above (v : value) (b : Q) : Prop := exists q, v = VNum q /\ (b < q)%Q.

(** A coordinate: a number, or [undefined] for one that is missing. *)
Definition numeric (v : value) : Prop := v = VUndef \/ exists q, v = VNum q.

(** [minx < -180 || miny < -90 || maxx > 180 || maxy > 90] *)
Definition outside (coords : list value) : Prop :=
  below (elem coords 0) (-180) \/ below (elem coords 1) (-90)
  \/ above (elem coords 2) 180 \/ above (elem coords 3) 90.

Definition bbox_of (coords : list value) : value :=
  object ["crs" ↦ VStr "EPSG:4326";
          "bounds" ↦ object ["minx" ↦ elem coords 0; "miny" ↦ elem coords 1;
                             "maxx" ↦ elem coords 2; "maxy" ↦ elem coords 3]].

Lemma Qltb_true x y : Qltb x y = true <-> (x < y)%Q.
Proof.
  unfold Qltb. destruct (Qlt_le_dec x y) as [H|H]; split; try done.
  intros H'. exfalso. by apply (Qlt_not_le _ _ H').
Qed.

Lemma lt_numeric v b :
  numeric v -> exists r : bool, lt v b = Returns r /\ (r = true <-> below v b).
Proof.
  intros [->|[q ->]]; simpl.
  - exists false. split; [done|]. split; [done|]. by intros (q & ? & _).
  - exists (Qltb q b). split; [done|]. rewrite Qltb_true. split.
    + intros H. by exists q.
    + by intros (q' & [= <-] & H).
Qed.

Lemma gt_numeric v b :
  numeric v -> exists r : bool, gt v b = Returns r /\ (r = true <-> above v b).
Proof.
  intros [->|[q ->]]; simpl.
  - exists false. split; [done|]. split; [done|]. by intros (q & ? & _).
  - exists (Qltb b q). split; [done|]. rewrite Qltb_true. split.
    + intros H. by exists q.
    + by intros (q' & [= <-] & H).
Qed.

Lemma numeric_elem l i : Forall numeric l -> numeric (elem l i).
Proof.
  intros H. unfold elem. destruct (l !! i) as [x|] eqn:Hx; simpl; [|by left].
  eapply Forall_lookup_1 in H; eauto.
Qed.

Lemma getExtentFromResource_spec resource :
  nullish resource = false ->
  (isEmpty resource?."extent"?."coords" = true ->
     getExtentFromResource resource = Returns VNull)
  /\ (forall l, resource?."extent"?."coords" = VArr l -> l <> [] -> Forall numeric l ->
        (outside l -> getExtentFromResource resource = Returns VNull)
        /\ (~ outside l -> getExtentFromResource resource = Returns (bbox_of l))).
Proof.
  intros Hr. unfold getExtentFromResource. rewrite (get_not_nullish _ _ Hr). simpl.
  split.
  - by intros ->.
  - intros l -> Hl Hnum.
    assert (isEmpty (VArr l) = false) as -> by by destruct l.
    simpl.
    destruct (lt_numeric (elem l 0) (bound 0) (numeric_elem l 0 Hnum)) as (b0 & -> & H0).
    destruct (lt_numeric (elem l 1) (bound 1) (numeric_elem l 1 Hnum)) as (b1 & -> & H1).
    destruct (gt_numeric (elem l 2) (bound 2) (numeric_elem l 2 Hnum)) as (b2 & -> & H2).
    destruct (gt_numeric (elem l 3) (bound 3) (numeric_elem l 3 Hnum)) as (b3 & -> & H3).
    change (bound 0) with (-180)%Q in H0. change (bound 1) with (-90)%Q in H1.
    change (bound 2) with 180%Q in H2. change (bound 3) with 90%Q in H3.
    unfold outside.
    destruct b0, b1, b2, b3; simpl; split; intros H; try done;
      try (exfalso; apply H; tauto);
      try (destruct H as [H|[H|[H|H]]];
           [apply H0 in H|apply H1 in H|apply H2 in H|apply H3 in H]; done).
Qed.
Lemma own_vendor_lookup c v k x :
  c = Returns v ->
  (c = (includes x (VStr "/geoserver/") ≫= fun inc : bool =>
         mret (and (VBool (negb inc)) (object ["serverType" ↦ k])))
   \/ c = mret (VBool false)) ->
  own v !! "bbox" = None /\ own v !! "bboxError" = None.
Proof.
  intros Hc [->| ->].
  - apply bind_Returns in Hc as (inc & _ & [= <-]).
    split; by apply own_and_lookup.
  - by injection Hc as <-.
Qed.

Lemma default_branch_bbox I resource n layer n' :
  is_str resource?."subtype" "3dtiles" = false ->
  is_str resource?."ptype" GXP_PTYPES.REST_MAP = false ->
  own resource?."data" !! "bbox" = None ->
  own resource?."data" !! "bboxError" = None ->
  resourceToLayerConfig I resource n = (Returns layer, n') ->
  exists bbox, getExtentFromResource resource = Returns bbox /\
    if truthy bbox
    then own layer !! "bbox" = Some bbox /\ own layer !! "bboxError" = None
    else own layer !! "bbox" = None /\ own layer !! "bboxError" = Some (VBool true).
Proof.
  intros H3d Harc Hd1 Hd2 H. unfold resourceToLayerConfig in H.
  returned_step H. apply destructure_Returns in Heqc as [_ ->].
  rewrite H3d in H. change GXP_PTYPES.REST_IMG with GXP_PTYPES.REST_MAP in H.
  rewrite Harc in H. simpl orb in H. cbv iota in H.
  repeat returned_step H.
  injection H as <- <-. exists a. split; [done|].
  eapply own_vendor_lookup in Heqc7 as [Hv1 Hv2];
    [|destruct (is_str resource?."sourcetype" SOURCE_TYPES.REMOTE); [left|right]; reflexivity].
  rewrite !own_object_lookup. simpl rev. simpl resolve.
  rewrite Hd1, Hd2, Hv1, Hv2.
  rewrite !own_and_lookup by done.
  destruct (truthy a); rewrite !own_object_lookup; simpl; done.
Qed.

(** The shape of the dataset resources on which the default branch returns. *)
Definition is_object (v : value) : bool := match v with VObj _ => true | _ => false end.
Definition text_or_absent (v : value) : bool :=
  match v with VUndef | VStr _ => true | _ => false end.
Definition is_text (v : value) : bool := match v with VStr _ => true | _ => false end.
Definition number_or_absent (v : value) : bool :=
  match v with VUndef | VNum _ => true | _ => false end.

Definition links_ok (links : value) : bool :=
  match links with
  | VArr l => forallb (fun x => is_object x && text_or_absent x?."url") l
  | _ => false
  end.

Definition coords_ok (coords : value) : bool :=
  isEmpty coords
  || match coords with VArr l => forallb number_or_absent l | _ => false end.

Definition style_ok (s : value) : bool :=
  negb (truthy s) || negb (truthy s?."workspace")
  || (is_text s?."workspace" && is_text s?."name").

Definition attributes_ok (a : value) : bool :=
  match defaulted a (VArr []) with
  | VArr l => forallb (fun x => is_object x && is_text x?."attribute_type") l
  | _ => false
  end.

Definition wms_url (links : value) : value :=
  match links with
  | VArr l => (or (find (fun x => is_str x?."link_type" "OGC:WMS") l) (object []))?."url"
  | _ => VUndef
  end.

Definition dataset_ok (r : value) : bool :=
  is_object r
  && links_ok (defaulted r?."links" (VArr []))
  && coords_ok r?."extent"?."coords"
  && style_ok r?."default_style"
  && attributes_ok r?."attribute_set"
  && (negb (is_str r?."sourcetype" SOURCE_TYPES.REMOTE)
      || is_text (wms_url (defaulted r?."links" (VArr [])))).


Lemma find_link_ok links p :
  links_ok links = true ->
  exists l, links = VArr l /\ find_link links p = Returns (or (find p l) (object [])).
Proof.
  destruct links as [| | | | |l|]; try discriminate. simpl. intros Hl.
  exists l. split; [done|]. unfold find_link. simpl.
  erewrite find_c_pure; [done|exact Hl|]. intros x Hx.
  apply andb_prop in Hx as [Hx _]. by destruct x.
Qed.

Lemma find_link_opt_ok links p :
  links_ok links = true ->
  exists l, links = VArr l /\ find_link_opt links p = Returns (or (find p l) (object [])).
Proof.
  destruct links as [| | | | |l|]; try discriminate. simpl. intros Hl.
  exists l. split; [done|]. unfold find_link_opt. simpl.
  erewrite find_c_pure; [done|exact Hl|]. intros x Hx.
  apply andb_prop in Hx as [Hx _]. by destruct x.
Qed.

Lemma found_url_ok (p : value -> bool) l :
  forallb (fun x => is_object x && text_or_absent x?."url") l = true ->
  text_or_absent (or (find p l) (object []))?."url" = true.
Proof.
  intros Hl. unfold find. destruct (List.find p l) as [x|] eqn:Hx; simpl.
  - apply find_some in Hx as [Hx _].
    rewrite forallb_forall in Hl. apply Hl, andb_prop in Hx as [Ho Hu].
    destruct x; try discriminate. exact Hu.
  - reflexivity.
Qed.


Lemma number_or_absent_numeric v : number_or_absent v = true -> numeric v.
Proof. destruct v; try discriminate; [by left|right; eauto]. Qed.

Lemma lt_returns v b : numeric v -> exists r : bool, lt v b = Returns r.
Proof. intros [->|[q ->]]; simpl; eauto. Qed.
Lemma gt_returns v b : numeric v -> exists r : bool, gt v b = Returns r.
Proof. intros [->|[q ->]]; simpl; eauto. Qed.


Lemma getExtentFromResource_returns r :
  nullish r = false -> coords_ok r?."extent"?."coords" = true ->
  exists bbox, getExtentFromResource r = Returns bbox.
Proof.
  intros Hr Hc. unfold getExtentFromResource. rewrite (get_not_nullish _ _ Hr). cbn [mbind completion_bind].
  unfold coords_ok in Hc. destruct (isEmpty r?."extent"?."coords") eqn:He; [eauto|].
  simpl in Hc. destruct (r?."extent"?."coords") as [| | | | |l|]; try discriminate.
  assert (Forall numeric l) as Hnum.
  { apply Forall_forall. intros x Hx. rewrite forallb_forall in Hc.
    apply number_or_absent_numeric, Hc. by apply list_elem_of_In. }
  cbn [iterate mbind completion_bind].
  destruct (lt_returns (elem l 0) (bound 0) (numeric_elem l 0 Hnum)) as (b0 & ->).
  destruct (lt_returns (elem l 1) (bound 1) (numeric_elem l 1 Hnum)) as (b1 & ->).
  destruct (gt_returns (elem l 2) (bound 2) (numeric_elem l 2 Hnum)) as (b2 & ->).
  destruct (gt_returns (elem l 3) (bound 3) (numeric_elem l 3 Hnum)) as (b3 & ->).
  destruct b0, b1, b2, b3; simpl; eauto.
Qed.



Lemma datasetAttributeSetToFields_returns r :
  nullish r = false -> attributes_ok r?."attribute_set" = true ->
  exists fields, datasetAttributeSetToFields r = Returns (VArr fields).
Proof.
  intros Hr Ha. unfold datasetAttributeSetToFields, destructure. rewrite Hr. cbn.
  unfold attributes_ok in Ha.
  destruct (defaulted r?."attribute_set" (VArr [])) as [| | | | |l|]; try discriminate.
  cbn. rewrite forallb_forall in Ha.
  erewrite (filter_c_pure _ (fun a => negb (substring "gml:" (match a?."attribute_type" with VStr s => s | _ => "" end)))).
  2:{ intros x Hx. apply Ha, andb_prop in Hx as [Ho Ht]. destruct x; try discriminate.
      unfold destructure. cbn [nullish mbind completion_bind].
      destruct ((VObj _)?."attribute_type"); try discriminate. done. }
  cbn. erewrite (mapM_pure _ (fun a => object [
      "name" ↦ a?."attribute"; "alias" ↦ a?."attribute_label"; "type" ↦ a?."attribute_type"])).
  2:{ intros x Hx. apply filter_In in Hx as [Hx _].
      apply Ha, andb_prop in Hx as [Ho Ht]. destruct x; try discriminate. reflexivity. }
  cbn. eauto.
Qed.

Lemma links_ok_opt r :
  links_ok (defaulted r?."links" (VArr [])) = true ->
  r?."links" = VUndef \/ links_ok r?."links" = true.
Proof. destruct (r?."links"); simpl; auto. Qed.

Lemma getDimensions_returns r :
  is_object r = true ->
  links_ok (defaulted r?."links" (VArr [])) = true ->
  exists dims, getDimensions r = Returns (VArr dims).
Proof.
  intros Hr Hl. destruct r as [| | | | | |m]; try discriminate.
  unfold getDimensions. cbn [defaulted destructure nullish mbind completion_bind].
  assert (forall p, exists x, find_link_opt (VObj m)?."links" p = Returns x
                              /\ text_or_absent x?."url" = true) as Hfind.
  { intros p. destruct (links_ok_opt _ Hl) as [->|Hl'].
    - eexists. split; [reflexivity|done].
    - destruct (find_link_opt_ok _ p Hl') as (l & Hlinks & ->).
      eexists. split; [reflexivity|]. rewrite Hlinks in Hl'. by apply found_url_ok. }
  destruct (Hfind (fun x => is_str x?."link_type" "OGC:WMS")) as (wms & -> & Hwms).
  destruct (Hfind (fun x => is_str x?."link_type" "OGC:WMTS")) as (wmts & -> & Hwmts).
  cbn [mbind completion_bind].
  destruct (truthy (VObj m)?."has_time"); [|eauto].
  destruct (truthy wmts?."url"); [cbn; eauto|].
  unfold or. destruct (wms?."url") as [| | | |s| |]; try discriminate.
  - cbn; eauto.
  - destruct (truthy (VStr s)); cbn; eauto.
Qed.

Lemma style_returns s :
  style_ok s = true ->
  exists v,
    (if truthy s then
       (if truthy s?."workspace" then
          to_string s?."workspace" ≫= fun w : string =>
          to_string s?."name" ≫= fun n : string => mret (VStr (w ++ ":" ++ n))
        else mret s?."name") ≫= fun name : value =>
       mret (object ["defaultStyle" ↦ object ["title" ↦ s?."sld_title"; "name" ↦ name]])
     else mret s) = Returns v.
Proof.
  unfold style_ok. destruct (truthy s); [|eauto].
  destruct (truthy s?."workspace"); [|cbn; eauto].
  cbn [negb orb]. intros [Hw Hn]%andb_prop.
  destruct (s?."workspace"); try discriminate. destruct (s?."name"); try discriminate.
  cbn. eauto.
Qed.

Theorem resourceToLayerConfig_returns I r n :
  dataset_ok r = true ->
  is_str r?."subtype" "3dtiles" = false ->
  is_str r?."ptype" GXP_PTYPES.REST_MAP = false ->
  exists layer, resourceToLayerConfig I r n = (Returns layer, S n).
Proof.
  unfold dataset_ok. intros Hok H3d Harc.
  repeat (apply andb_prop in Hok as [Hok ?]).
  assert (nullish r = false) as Hn by by destruct r.
  unfold resourceToLayerConfig.
  rewrite run_bind_lift. unfold destructure. rewrite Hn.
  destruct (getExtentFromResource_returns r Hn) as (bbox & Hbbox); [done|].
  rewrite run_bind_lift, Hbbox.
  rewrite run_bind_lift.
  destruct (style_returns r?."default_style") as (style & ->); [done|].
  rewrite H3d. change GXP_PTYPES.REST_IMG with GXP_PTYPES.REST_MAP.
  rewrite Harc. cbn [orb].
  destruct (find_link_ok _ (fun x => is_str x?."link_type" "OGC:WFS") H3) as (l & Hl & ->).
  rewrite run_bind_lift.
  destruct (find_link_ok _ (fun x => is_str x?."link_type" "OGC:WMS") H3) as (l' & Hl' & ->).
  rewrite run_bind_lift.
  assert (l' = l) as -> by congruence.
  destruct (getDimensions_returns r) as (dims & ->); [done..|].
  rewrite run_bind_lift.
  pose proof H3 as Hurl. rewrite Hl in Hurl.
  apply (found_url_ok (fun x => is_str x?."link_type" "OGC:WMS")) in Hurl.
  rewrite run_bind_lift.
  set (wmsUrl := (or (find _ l) (object []))?."url") in *.
  assert (exists params, (if truthy wmsUrl
            then string_receiver wmsUrl ≫= fun u : string => mret (url_parse_query I u)
            else mret wmsUrl) = Returns params) as (params & ->).
  { destruct wmsUrl as [| | | |s| |]; try discriminate; [cbn; eauto|].
    destruct (truthy (VStr s)); cbn; eauto. }
  destruct (datasetAttributeSetToFields_returns r) as (fields & ->); [done..|].
  rewrite run_bind_lift, run_bind_uuid, run_bind_lift.
  change (gt (VArr dims)?."length" 0%Q)
    with (Returns (A:=bool) (Qltb 0 (inject_Z (Z.of_nat (length dims))))).
  cbv beta iota. rewrite run_bind_lift.
  assert (exists vendor, (if is_str r?."sourcetype" SOURCE_TYPES.REMOTE
            then includes wmsUrl (VStr "/geoserver/") ≫= fun inc : bool =>
                 mret (and (VBool (negb inc)) (object ["serverType" ↦ ServerTypes_NO_VENDOR I]))
            else mret (VBool false)) = Returns vendor) as (vendor & ->).
  { destruct (is_str r?."sourcetype" SOURCE_TYPES.REMOTE); [|eauto].
    cbn [negb orb] in H. unfold wms_url in H. rewrite Hl in H. fold wmsUrl in H.
    destruct wmsUrl; try discriminate. cbn. eauto. }
  rewrite run_ret. eauto.
Qed.

Definition sample_dataset : value :=
  object ["pk" ↦ num 1; "title" ↦ VStr "roads"; "alternate" ↦ VStr "geonode:roads";
          "extent" ↦ object ["coords" ↦ VArr [num (-10); num (-20); num 10; num 20]]].

(** The same dataset with an extent wider than the world and layer
    settings that hold a [bbox]. *)
Definition sample_dataset_settings : value :=
  object ["pk" ↦ num 1; "title" ↦ VStr "roads"; "alternate" ↦ VStr "geonode:roads";
          "extent" ↦ object ["coords" ↦ VArr [num (-200); num (-20); num 10; num 20]];
          "data" ↦ object ["bbox" ↦ bbox_of [num (-10); num (-20); num 10; num 20]]].

(** C6, as amended: [getExtentFromResource] returns [null] when
    [extent.coords] is empty or when [minx < -180], [miny < -90],
    [maxx > 180] or [maxy > 90], and otherwise a bbox with crs
    ['EPSG:4326'] and the four coordinates as bounds. In the default (WMS)
    branch of [resourceToLayerConfig], on a resource whose layer settings
    ([resource.data], spread last) define neither [bbox] nor [bboxError],
    the layer carries the bbox exactly when the extent is valid and
    [bboxError: true] otherwise; the branch returns on every dataset of
    the shape [dataset_ok]. *)
Theorem extent_translation_bounded (I : imports) (resource : value) :
  nullish resource = false ->
  (isEmpty resource?."extent"?."coords" = true ->
     getExtentFromResource resource = Returns VNull)
  /\ (forall coords,
        resource?."extent"?."coords" = VArr coords -> coords <> [] -> Forall numeric coords ->
        (outside coords -> getExtentFromResource resource = Returns VNull)
        /\ (~ outside coords -> getExtentFromResource resource = Returns (bbox_of coords)))
  /\ (is_str resource?."subtype" "3dtiles" = false ->
      is_str resource?."ptype" GXP_PTYPES.REST_MAP = false ->
      is_str resource?."ptype" GXP_PTYPES.REST_IMG = false ->
      own resource?."data" !! "bbox" = None ->
      own resource?."data" !! "bboxError" = None ->
      forall n,
        (dataset_ok resource = true ->
           exists layer, resourceToLayerConfig I resource n = (Returns layer, S n))
        /\ (forall layer n',
              resourceToLayerConfig I resource n = (Returns layer, n') ->
              exists bbox,
                getExtentFromResource resource = Returns bbox
                /\ if truthy bbox
                   then own layer !! "bbox" = Some bbox /\ own layer !! "bboxError" = None
                   else own layer !! "bbox" = None
                        /\ own layer !! "bboxError" = Some (VBool true))).
Proof.
  intros Hr. destruct (getExtentFromResource_spec resource Hr) as [Hempty Hcoords].
  split; [exact Hempty|]. split; [exact Hcoords|].
  intros H3d Harc _ Hd1 Hd2 n. split.
  - intros Hok. by apply resourceToLayerConfig_returns.
  - intros layer n' H. by eapply default_branch_bbox.
Qed.

Lemma extent_translation_bounded_witness :
  nullish sample_dataset = false
  /\ getExtentFromResource sample_dataset
     = Returns (bbox_of [num (-10); num (-20); num 10; num 20])
  /\ exists layer,
       resourceToLayerConfig sample_imports sample_dataset 0 = (Returns layer, 1)
       /\ own layer !! "bbox" = Some (bbox_of [num (-10); num (-20); num 10; num 20])
       /\ own layer !! "bboxError" = None.
Proof.
  destruct (extent_translation_bounded sample_imports sample_dataset eq_refl)
    as (_ & Hcoords & Hlayer).
  split; [reflexivity|].
  assert (getExtentFromResource sample_dataset
          = Returns (bbox_of [num (-10); num (-20); num 10; num 20])) as Hbbox
    by (vm_compute; reflexivity).
  split; [exact Hbbox|].
  destruct (Hlayer eq_refl eq_refl eq_refl eq_refl eq_refl 0) as [Hreturns Hcarries].
  destruct (Hreturns eq_refl) as (layer & Hrun).
  exists layer. split; [exact Hrun|].
  destruct (Hcarries layer 1 Hrun) as (bbox & Hbbox' & Hif).
  rewrite Hbbox in Hbbox'. injection Hbbox' as <-. exact Hif.
Defined.

(** C6 fails as stated: the extent of this dataset is wider than WGS84, so
    that [getExtentFromResource] returns [null], and yet the layer of the
    default branch carries a [bbox], the one of its layer settings. *)
Lemma extent_layer_settings_override :
  getExtentFromResource sample_dataset_settings = Returns VNull
  /\ exists layer,
       resourceToLayerConfig sample_imports sample_dataset_settings 0 = (Returns layer, 1)
       /\ own layer !! "bbox" = Some (bbox_of [num (-10); num (-20); num 10; num 20])
       /\ own layer !! "bboxError" = Some (VBool true).
Proof.
  split; [vm_compute; reflexivity|].
  eexists. split; [vm_compute; reflexivity|].
  split; vm_compute; reflexivity.
Qed.

(** ** Purity up to the identifier (claim C1) *)

Lemma delete_add_member k acc1 acc2 m :
  delete k acc1 = delete k acc2 ->
  delete k (add_member acc1 m) = delete k (add_member acc2 m).
Proof.
  intros H. destruct m as [k' v|v]; simpl.
  - destruct (decide (k = k')) as [->|Hne].
    + by rewrite !delete_insert_eq.
    + rewrite !(delete_insert_ne _ k k') by done. by rewrite H.
  - by rewrite !delete_union, H.
Qed.

Lemma delete_members k ms acc1 acc2 :
  delete k acc1 = delete k acc2 ->
  delete k (foldl add_member acc1 ms) = delete k (foldl add_member acc2 ms).
Proof.
  revert acc1 acc2. induction ms as [|m ms IH]; intros acc1 acc2 H; simpl; [done|].
  by apply IH, delete_add_member.
Qed.

(** Two object literals that differ in the value of one member [k] only. *)
Lemma delete_object_field k ms1 v1 v2 ms2 :
  delete k (foldl add_member ∅ (ms1 ++ Field k v1 :: ms2))
  = delete k (foldl add_member ∅ (ms1 ++ Field k v2 :: ms2)).
Proof.
  rewrite !foldl_app. simpl. apply delete_members. by rewrite !delete_insert_eq.
Qed.

Definition erase_id (c : completion value) : completion value :=
  match c with
  | Returns (VObj m) => Returns (VObj (delete "id" m))
  | _ => c
  end.

#[local] Transparent object.

Lemma erase_id_object ms1 v1 v2 ms2 :
  erase_id (Returns (object (ms1 ++ ("id" ↦ v1) :: ms2)))
  = erase_id (Returns (object (ms1 ++ ("id" ↦ v2) :: ms2))).
Proof. unfold object, erase_id. by rewrite (delete_object_field "id" ms1 v1 v2). Qed.

#[local] Opaque object.

Definition agree (I : imports) (n m : nat) (x y : completion value * nat) : Prop :=
  erase_id (fst x) = erase_id (fst y)
  /\ snd x - n = snd y - m
  /\ (snd x = n \/ snd x = S n)
  /\ (uuid_at I n = uuid_at I m -> fst x = fst y).

Lemma agree_throws I n m e : agree I n m (Throws e, n) (Throws e, m).
Proof. unfold agree; simpl. repeat split; auto. lia. Qed.

Lemma agree_object I n m ms1 ms2 :
  agree I n m (Returns (object (ms1 ++ ("id" ↦ VStr (uuid_at I n)) :: ms2)), S n)
              (Returns (object (ms1 ++ ("id" ↦ VStr (uuid_at I m)) :: ms2)), S m).
Proof.
  unfold agree; simpl fst; simpl snd. repeat split; auto; [apply erase_id_object|lia|].
  by intros ->.
Qed.

Lemma agree_throws_S I n m e : agree I n m (Throws e, S n) (Throws e, S m).
Proof. unfold agree; simpl. repeat split; auto. lia. Qed.

Ltac agree_step :=
  match goal with
  | |- context [(lift ?c ≫= _) _] => rewrite !(run_bind_lift c); destruct c eqn:?
  | |- context [(uuid _ ≫= _) _] => rewrite !run_bind_uuid
  | |- context [@mret effect _ _ _ _] => rewrite !run_ret
  | |- agree _ _ _ (Throws _, _) (Throws _, _) =>
      first [apply agree_throws | apply agree_throws_S]
  | |- context [if ?b then _ else _] => destruct b eqn:?
  end.

Lemma resourceToLayerConfig_agree I r n m :
  agree I n m (resourceToLayerConfig I r n) (resourceToLayerConfig I r m).
Proof.
  unfold resourceToLayerConfig.
  repeat agree_step.
  all: first [ apply (agree_object I n m [] _)
             | apply (agree_object I n m [_] _) ].
Qed.

(** The type of the layer that [resourceToLayerConfig] builds. *)
Definition layerType (resource : value) : string :=
  if is_str resource?."subtype" "3dtiles" then "3dtiles"
  else if is_str resource?."ptype" GXP_PTYPES.REST_MAP
          || is_str resource?."ptype" GXP_PTYPES.REST_IMG then "arcgis"
  else "wms".

(** The property [k] that the layer settings of a resource give to its
    layer: the settings are spread, last, over the layers of type [wms]
    only. *)
Definition layerSetting (resource : value) (k : string) : option value :=
  if String.eqb (layerType resource) "wms" then own resource?."data" !! k else None.

Lemma resourceToLayerConfig_id I resource n layer n' :
  resourceToLayerConfig I resource n = (Returns layer, n') ->
  n' = S n /\ layer?."id" = default (VStr (uuid_at I n)) (layerSetting resource "id").
Proof.
  intros H. unfold resourceToLayerConfig in H.
  returned_step H. apply destructure_Returns in Heqc as [_ ->].
  do 2 returned_step H.
  unfold layerSetting, layerType.
  destruct (is_str resource?."subtype" "3dtiles").
  { repeat returned_step H. injection H as <- <-. split; [done|].
    rewrite !field_object. simpl rev. simpl resolve.
    rewrite ?own_and_lookup by done. done. }
  destruct (is_str resource?."ptype" GXP_PTYPES.REST_MAP
            || is_str resource?."ptype" GXP_PTYPES.REST_IMG).
  { repeat returned_step H. injection H as <- <-. split; [done|].
    assert (forall k, k <> "queryable" -> k <> "name" -> own a2 !! k = None) as Hnamed.
    { intros k Hq Hn. destruct (isImageServerUrl I _).
      - injection Heqc2 as <-. rewrite own_object_lookup. simpl. by rewrite decide_False.
      - apply bind_Returns in Heqc2 as (s & _ & [= <-]). rewrite own_object_lookup. simpl.
        by rewrite decide_False. }
    rewrite !field_object. simpl rev. simpl resolve.
    rewrite ?own_and_lookup by done. rewrite !Hnamed by done. done. }
  repeat returned_step H. injection H as <- <-. split; [done|].
  assert (forall k, k <> "serverType" -> own a7 !! k = None) as Hvendor.
  { intros k Hk. destruct (is_str resource?."sourcetype" SOURCE_TYPES.REMOTE).
    - apply bind_Returns in Heqc7 as (inc & _ & [= <-]). apply own_and_lookup.
      simpl. by rewrite decide_False.
    - by injection Heqc7 as <-. }
  assert (forall k, k <> "bbox" -> k <> "bboxError" ->
            own (if truthy a then object ["bbox" ↦ a]
                 else object ["bboxError" ↦ VBool true]) !! k = None) as Hbbox.
  { intros k Hb He. destruct (truthy a); rewrite own_object_lookup; simpl;
      by rewrite decide_False. }
  rewrite !field_object. simpl rev. simpl resolve.
  change (String.eqb "wms" "wms") with true. cbv iota.
  destruct (own resource?."data" !! "id") as [v|]; [done|].
  rewrite Hvendor, ?Hbbox by done. rewrite ?own_and_lookup by done. done.
Qed.


(** C1, as amended: two applications of [resourceToLayerConfig] to the same
    resource, under the same imports and configuration, either throw the
    same exception or return layers that are identical in every field
    other than [id]; the only effect of an application is to draw at most
    one identifier from [uuid()], and the outputs are identical whenever
    the two identifiers drawn are.  An application that returns has drawn
    exactly one identifier, and the [id] of its layer is that identifier,
    unless the resource is translated by the default branch, to a [wms]
    layer, and its layer settings ([resource.data], spread last) have an
    [id] of their own, which is then the [id] of the layer, the same in
    every application. *)
Theorem resourceToLayerConfig_pure_up_to_id (I : imports) (resource : value) (n m : nat) :
  erase_id (fst (resourceToLayerConfig I resource n))
  = erase_id (fst (resourceToLayerConfig I resource m))
  /\ snd (resourceToLayerConfig I resource n) - n
     = snd (resourceToLayerConfig I resource m) - m
  /\ (snd (resourceToLayerConfig I resource n) = n
      \/ snd (resourceToLayerConfig I resource n) = S n)
  /\ (uuid_at I n = uuid_at I m ->
      fst (resourceToLayerConfig I resource n) = fst (resourceToLayerConfig I resource m))
  /\ (forall layer,
        fst (resourceToLayerConfig I resource n) = Returns layer ->
        snd (resourceToLayerConfig I resource n) = S n
        /\ layer?."id" = match layerSetting resource "id" with
                         | Some id => id
                         | None => VStr (uuid_at I n)
                         end).
Proof.
  destruct (resourceToLayerConfig_agree I resource n m) as (He & Hd & Hs & Hu).
  repeat split; try done.
  all: destruct (resourceToLayerConfig I resource n) as [c n'] eqn:Hrun;
    simpl in H; subst c; by destruct (resourceToLayerConfig_id I resource n layer n' Hrun).
Qed.

(** C1 fails as stated: the second application to the same dataset returns
    a layer with another [id], so that the two outputs differ. *)
Lemma resourceToLayerConfig_fresh_id :
  exists layer1 layer2,
    resourceToLayerConfig sample_imports sample_dataset 0 = (Returns layer1, 1)
    /\ resourceToLayerConfig sample_imports sample_dataset 1 = (Returns layer2, 2)
    /\ layer1?."id" = VStr "uuid-0"
    /\ layer2?."id" = VStr "uuid-1"
    /\ layer1 <> layer2.
Proof.
  eexists _, _. split; [vm_compute; reflexivity|]. split; [vm_compute; reflexivity|].
  split; [vm_compute; reflexivity|]. split; [vm_compute; reflexivity|].
  intros H. apply (f_equal (fun v => v?."id")) in H. vm_compute in H. discriminate H.
Qed.

(** A dataset whose layer settings have an [id]. *)
Definition sample_dataset_with_id : value :=
  object ["pk" ↦ VStr "12"; "alternate" ↦ VStr "geonode:roads"; "title" ↦ VStr "Roads";
          "data" ↦ object ["id" ↦ VStr "roads"; "opacity" ↦ num 1]].

(** The layer settings decide the [id]: the two applications draw two
    identifiers and return the same layer. *)
Example resourceToLayerConfig_settings_id :
  exists layer,
    resourceToLayerConfig sample_imports sample_dataset_with_id 0 = (Returns layer, 1)
    /\ resourceToLayerConfig sample_imports sample_dataset_with_id 1 = (Returns layer, 2)
    /\ layer?."id" = VStr "roads".
Proof. eexists. split; [vm_compute; reflexivity|]. split; vm_compute; reflexivity. Qed.

(** ** The download target (claim C9) *)

Definition hrefUrl (resource : value) : value :=
  object ["url" ↦ resource?."href"; "ajaxSafe" ↦ VBool false].

Definition download_of (d : value) : value :=
  object ["url" ↦ d?."url"; "ajaxSafe" ↦ d?."ajax_safe"].

Lemma isEmpty_field d k : isEmpty d = true -> k <> "length" -> d?.k = VUndef.
Proof.
  intros He Hk. destruct d as [| | | |s|l|m]; try done.
  - destruct s; [|discriminate]. simpl.
    destruct (String.eqb_spec k "length"); [done|]. done.
  - destruct l; [|discriminate]. simpl.
    destruct (String.eqb_spec k "length"); [done|]. done.
  - simpl in He. apply bool_decide_eq_true in He. apply dom_empty_inv_L in He as ->.
    simpl. by rewrite lookup_empty.
Qed.

Lemma find_c_default l :
  Forall (fun d => nullish d = false) l ->
  find_c (fun d => truthy <$> get d "default") l
  = Returns (find (fun d => truthy d?."default") l).
Proof.
  induction 1 as [|d l Hd Hl IH]; [done|].
  cbn [find_c]. rewrite (get_not_nullish _ _ Hd). cbn.
  unfold find. cbn [List.find]. destruct (truthy d?."default"); [done|]. apply IH.
Qed.

Lemma index_singleton d : index (VArr [d]) 0 = Returns d.
Proof. reflexivity. Qed.

Lemma length_not_1 (l : list value) :
  2 <= length l -> strict_eq (VArr l)?."length" (num 1) = false.
Proof.
  intros Hl. simpl. unfold len, num. simpl.
  unfold Qeq_bool. simpl. apply Z.eqb_neq. lia.
Qed.

(** C9, as amended: [getDownloadUrlInfo] returns [{ url: resource.href,
    ajaxSafe: false }] for every external-source document, whatever its
    [download_urls]; otherwise, for a list of exactly one entry it returns
    that entry's [url] and [ajax_safe] unless the entry is empty (lodash
    [isEmpty]), in which case it falls back to the href; and for a list of
    at least two entries it returns the [url] and [ajax_safe] of the first
    entry whose [default] flag is truthy, and the href fallback when no
    entry is marked default. *)
Theorem getDownloadUrlInfo_precedence (resource : value) :
  (truthy (isDocumentExternalSource resource) = true ->
     getDownloadUrlInfo resource = Returns (hrefUrl resource))
  /\ (truthy (isDocumentExternalSource resource) = false ->
      (forall d, resource?."download_urls" = VArr [d] ->
         getDownloadUrlInfo resource
         = Returns (if isEmpty d then hrefUrl resource else download_of d))
      /\ (forall l, resource?."download_urls" = VArr l -> 2 <= length l ->
            Forall (fun d => nullish d = false) l ->
            getDownloadUrlInfo resource
            = Returns (match List.find (fun d => truthy d?."default") l with
                       | Some d => download_of d
                       | None => hrefUrl resource
                       end))).
Proof.
  unfold getDownloadUrlInfo. split.
  - by intros ->.
  - intros ->. split.
    + intros d ->. cbn [isEmpty negb]. rewrite index_singleton.
      assert (strict_eq (VArr [d])?."length" (num 1) = true) as -> by reflexivity.
      cbn [mbind completion_bind]. by destruct (isEmpty d).
    + intros l -> Hlen Hl.
      assert (isEmpty (VArr l) = false) as ->.
      { destruct l; [simpl in Hlen; lia|done]. }
      cbn [negb]. rewrite (length_not_1 l Hlen).
      cbn [array mbind completion_bind]. rewrite (find_c_default l Hl).
      cbn [mbind completion_bind]. unfold find.
      destruct (List.find _ l) as [d|] eqn:Hfind; cbn [default].
      * apply find_some in Hfind as [_ Hd].
        unfold id. destruct (isEmpty d) eqn:He; [|done].
        rewrite (isEmpty_field d "default" He) in Hd by done. discriminate.
      * done.
Qed.

Definition empty_entry_resource : value :=
  object ["href" ↦ VStr "/documents/7/link"; "download_urls" ↦ VArr [object []]].

(** C9 fails as stated: for this list of exactly one entry, an empty
    object, the function returns the href fallback and not the entry's
    [url] and [ajax_safe]. *)
Lemma getDownloadUrlInfo_empty_entry :
  getDownloadUrlInfo empty_entry_resource
  = Returns (object ["url" ↦ VStr "/documents/7/link"; "ajaxSafe" ↦ VBool false])
  /\ getDownloadUrlInfo empty_entry_resource <> Returns (download_of (object [])).
Proof.
  split; [vm_compute; reflexivity|].
  intros H. vm_compute in H. discriminate H.
Qed.

(** ** The download button (claim C8) *)

Import DownloadResource.


(** The shape of the properties on which the component returns. *)
Definition entries_ok (download_urls : value) : bool :=
  isEmpty download_urls
  || match download_urls with
     | VArr l => forallb (fun d => negb (nullish d)) l
     | _ => false
     end.

Definition list_or_absent (v : value) : bool :=
  match v with VUndef | VNull | VArr _ => true | _ => false end.

Definition key_ok (renderType : value) : bool :=
  match renderType with VArr _ | VObj _ => false | _ => true end.

Definition the_resource (p : props) : value := coalesce (resource p) (resourceData p).

Definition props_ok (p : props) : bool :=
  key_ok (renderType p)
  && entries_ok (the_resource p)?."download_urls"
  && list_or_absent (the_resource p)?."perms"
  && match allowedSources p with VUndef | VArr _ => true | _ => false end.

(** [perms] includes ['download_resourcebase'], and [sourcetype] is one of
    the allowed sources. *)
Definition may_download (r : value) : bool :=
  match r?."perms" with
  | VArr l => existsb (strict_eq (VStr "download_resourcebase")) l
  | _ => false
  end.

Definition source_allowed (p : props) : bool :=
  match defaulted (allowedSources p) (VArr [VStr SOURCE_TYPES.LOCAL; VStr SOURCE_TYPES.REMOTE]) with
  | VArr l => existsb (strict_eq (the_resource p)?."sourcetype") l
  | _ => false
  end.

Lemma getDownloadUrlInfo_returns r :
  entries_ok r?."download_urls" = true -> exists info, getDownloadUrlInfo r = Returns info.
Proof.
  intros Hok. unfold getDownloadUrlInfo.
  destruct (truthy (isDocumentExternalSource r)); [eauto|].
  unfold entries_ok in Hok. destruct (isEmpty r?."download_urls") eqn:He; [eauto|].
  cbn [orb negb] in Hok |- *.
  destruct (r?."download_urls") as [| | | | |l|]; try discriminate.
  assert (Forall (fun d => nullish d = false) l) as Hl.
  { apply Forall_forall. intros d Hd. rewrite forallb_forall in Hok.
    apply list_elem_of_In, Hok in Hd. by destruct (nullish d). }
  destruct (strict_eq (VArr l)?."length" (num 1)).
  - unfold index. rewrite get_not_nullish by done. cbn [mbind completion_bind].
    destruct (negb _); eauto.
  - cbn [array mbind completion_bind]. rewrite (find_c_default l Hl).
    cbn [mbind completion_bind]. destruct (negb _); eauto.
Qed.

Lemma RENDER_TYPE_returns v :
  key_ok v = true -> exists c, RENDER_TYPE (defaulted v (VStr "button")) = Returns c.
Proof. destruct v; try discriminate; simpl; eauto. Qed.

Lemma includes_opt_perms r :
  list_or_absent r?."perms" = true ->
  includes_opt r?."perms" (VStr "download_resourcebase") = Returns (may_download r).
Proof. unfold may_download. by destruct (r?."perms"). Qed.

Lemma includes_sources p :
  match allowedSources p with VUndef | VArr _ => true | _ => false end = true ->
  includes (defaulted (allowedSources p) (VArr [VStr SOURCE_TYPES.LOCAL; VStr SOURCE_TYPES.REMOTE]))
    (the_resource p)?."sourcetype" = Returns (source_allowed p).
Proof. unfold source_allowed. by destruct (allowedSources p). Qed.

(** C8: on properties of the shape [props_ok], [DownloadButton] returns
    [null] for every resource whose [perms] do not include
    ['download_resourcebase'], or whose [ptype] is [REST_MAP] or
    [REST_IMG], or whose [sourcetype] is not in the allowed sources; and,
    rendered as a menu item, whenever the resolved download info is not
    ajax-safe. *)
Theorem download_button_hidden (p : props) :
  props_ok p = true ->
  (may_download (the_resource p) = false
   \/ is_str (the_resource p)?."ptype" GXP_PTYPES.REST_MAP = true
   \/ is_str (the_resource p)?."ptype" GXP_PTYPES.REST_IMG = true
   \/ source_allowed p = false
   \/ (is_str (defaulted (renderType p) (VStr "button")) "menuItem" = true
       /\ forall info, getDownloadUrlInfo (the_resource p) = Returns info ->
                       truthy info?."ajaxSafe" = false)) ->
  DownloadButton p = Returns Null.
Proof.
  unfold props_ok. intros Hok Hex.
  repeat (apply andb_prop in Hok as [Hok ?]).
  unfold DownloadButton. fold (the_resource p).
  destruct (RENDER_TYPE_returns _ Hok) as (Component & ->).
  destruct (getDownloadUrlInfo_returns (the_resource p)) as (info & Hinfo); [done|].
  rewrite Hinfo. cbn [mbind completion_bind].
  rewrite includes_opt_perms by done. rewrite includes_sources by done.
  cbn [fmap completion_fmap mret completion_ret].
  assert (existsb (strict_eq (the_resource p)?."ptype")
            [VStr GXP_PTYPES.REST_MAP; VStr GXP_PTYPES.REST_IMG]
          = is_str (the_resource p)?."ptype" GXP_PTYPES.REST_MAP) as ->.
  { unfold is_str. cbn [existsb]. change GXP_PTYPES.REST_IMG with GXP_PTYPES.REST_MAP.
    by destruct (strict_eq _ _). }
  change GXP_PTYPES.REST_IMG with GXP_PTYPES.REST_MAP in Hex.
  unfold mret, completion_ret.
  destruct (may_download (the_resource p)) eqn:Hperm; cbn [negb].
  2:{ by destruct (isEmpty _). }
  assert ((if isEmpty (the_resource p)?."download_urls"
           then Returns false else Returns false) = Returns false) as ->
    by by destruct (isEmpty _).
  cbn [orelse mbind completion_bind negb].
  destruct Hex as [Hex|[Hex|[Hex|[Hex|[Hmenu Hajax]]]]]; try discriminate.
  - rewrite Hex. by destruct (negb _ && _).
  - rewrite Hex. by destruct (negb _ && _).
  - rewrite Hex. destruct (negb _ && _); [done|].
    by destruct (is_str (the_resource p)?."ptype" GXP_PTYPES.REST_MAP).
  - rewrite Hmenu, (Hajax info Hinfo). done.
Qed.

Definition sample_document : value :=
  object ["resource_type" ↦ VStr "document"; "sourcetype" ↦ VStr "LOCAL";
          "href" ↦ VStr "/documents/7/link";
          "perms" ↦ VArr [VStr "view_resourcebase"];
          "download_urls" ↦ VArr [object ["url" ↦ VStr "/documents/7/download";
                                          "ajax_safe" ↦ VBool true]]].

Definition sample_props (r : value) : props := {|
  resource := r; resourceData := VUndef; variant := VUndef; size := VUndef;
  renderType := VUndef; showIcon := VUndef; downloadMsgId := VUndef;
  allowedSources := VUndef; downloading := VUndef
|}.

Lemma download_button_hidden_witness :
  props_ok (sample_props sample_document) = true
  /\ may_download (the_resource (sample_props sample_document)) = false
  /\ DownloadButton (sample_props sample_document) = Returns Null.
Proof.
  split; [reflexivity|]. split; [reflexivity|].
  apply (download_button_hidden (sample_props sample_document) eq_refl).
  left. reflexivity.
Defined.

(** With the permission, the same document gets a button that starts the
    download. *)
Example download_button_shown :
  exists attrs child,
    DownloadButton (sample_props (object [
      Spread sample_document;
      "perms" ↦ VArr [VStr "view_resourcebase"; VStr "download_resourcebase"]]))
    = Returns (CallsOnAction (VStr "ButtonWithTooltip") attrs child).
Proof. eexists _, _. vm_compute. reflexivity. Qed.

(** ** Map layers (claim C2) *)

Definition hasMapLayer (layer : value) : bool := truthy layer?."extendedParams"?."mapLayer".

(** The entry that [getGeoNodeMapLayers] makes of a layer at position
    [index] of the filtered list. *)
Definition entry_of (index : nat) (layer : value) : value :=
  object [
    Spread (and layer?."extendedParams"?."mapLayer"
                (object ["pk" ↦ layer?."extendedParams"?."mapLayer"?."pk"]));
    "current_style" ↦ or layer?."style" (VStr "");
    "extra_params" ↦ object ["msId" ↦ layer?."id"];
    Spread (and (VBool (is_str layer?."type" "wms"))
                (object ["current_style" ↦ or layer?."style" (VStr "")]));
    "name" ↦ or layer?."name" (VStr "");
    "order" ↦ num (Z.of_nat index);
    "opacity" ↦ coalesce layer?."opacity" (num 1);
    "visibility" ↦ layer?."visibility"
  ].

Lemma getGeoNodeMapLayers_entries data layers :
  or data?."map"?."layers" (VArr []) = VArr layers ->
  getGeoNodeMapLayers data = Returns (VArr (imap entry_of (List.filter hasMapLayer layers))).
Proof. intros H. unfold getGeoNodeMapLayers. rewrite H. reflexivity. Qed.

Ltac read_object :=
  repeat (rewrite field_object; simpl rev; simpl resolve; cbn [from_option id]).

Lemma entry_of_fields index layer :
  hasMapLayer layer = true ->
  (entry_of index layer)?."pk" = layer?."extendedParams"?."mapLayer"?."pk"
  /\ (entry_of index layer)?."extra_params"?."msId" = layer?."id"
  /\ (entry_of index layer)?."order" = num (Z.of_nat index)
  /\ (entry_of index layer)?."current_style" = or layer?."style" (VStr "").
Proof.
  intros Hml. unfold entry_of, hasMapLayer in *.
  read_object.
  rewrite !(own_and_lookup (VBool _)) by done.
  unfold and at 1. rewrite Hml. rewrite own_object_lookup. simpl.
  read_object.
  repeat split; try done.
  unfold and. destruct (is_str _ _); cbn [truthy]; [by rewrite own_object_lookup|done].
Qed.

Lemma filter_take_lookup {A} (p : A -> bool) (l : list A) j x :
  l !! j = Some x -> p x = true ->
  List.filter p l !! length (List.filter p (take j l)) = Some x.
Proof.
  revert j. induction l as [|y l IH]; intros j Hj Hx; [done|].
  destruct j as [|j]; simpl in *.
  - injection Hj as ->. by rewrite Hx.
  - destruct (p y); simpl; by apply IH.
Qed.

Lemma field_own v k : k <> "length" -> v?.k = default VUndef (own v !! k).
Proof.
  intros Hk. destruct v as [| | | |s|l|m]; simpl; try done.
  - destruct (String.eqb_spec k "length"); done.
  - destruct (String.eqb_spec k "length"); done.
Qed.

Lemma find_ext {A} (p q : A -> bool) l :
  (forall x, p x = q x) -> List.find p l = List.find q l.
Proof. intros H. induction l as [|x l IH]; simpl; [done|]. by rewrite H, IH. Qed.

Lemma matching_entry_truthy entry id :
  strict_eq id VUndef = false ->
  strict_eq entry?."extra_params"?."msId" id = true ->
  truthy entry = true.
Proof.
  intros Hid Hm.
  assert (entry?."extra_params"?."msId" <> VUndef) as Hne.
  { intros Heq. rewrite Heq in Hm. destruct id; discriminate. }
  destruct entry as [| |b|q|s|l|m]; try done; try (by destruct Hne).
  destruct s; [by destruct Hne|done].
Qed.

(** The layer that [attachMapLayer] returns for a layer with a defined id
    that an entry of [maplayers] matches. *)
Lemma attachMapLayer_found maplayers layer entry :
  strict_eq layer?."id" VUndef = false ->
  List.find (fun m => strict_eq m?."extra_params"?."msId" layer?."id") maplayers = Some entry ->
  truthy (attachMapLayer maplayers layer) = true
  /\ (attachMapLayer maplayers layer)?."extendedParams"?."mapLayer" = entry
  /\ (attachMapLayer maplayers layer)?."style"
     = (if is_str layer?."type" "wms"
        then if truthy entry?."current_style" then entry?."current_style"
             else or layer?."style" (VStr "")
        else layer?."style")
  /\ (forall k, k <> "style" -> k <> "extendedParams" ->
        own (attachMapLayer maplayers layer) !! k = own layer !! k).
Proof.
  intros Hid Hfind. unfold attachMapLayer, find.
  rewrite (find_ext _ (fun m => strict_eq m?."extra_params"?."msId" layer?."id"))
    by (intros x; by rewrite Hid).
  rewrite Hfind. cbn [default from_option]. unfold id.
  pose proof Hfind as Hm. apply find_some in Hm as [_ Hm].
  rewrite (matching_entry_truthy _ _ Hid Hm).
  split; [done|]. split; [|split].
  - read_object. done.
  - read_object. unfold and, or. destruct (is_str _ _); cbn [truthy].
    + rewrite own_object_lookup. simpl.
      destruct (truthy entry?."current_style") eqn:Hcs; [by rewrite Hcs|done].
    + simpl. rewrite lookup_empty, field_own by done. by destruct (own layer !! "style").
  - intros k Hs He. rewrite own_object_lookup. simpl.
    destruct (decide ("extendedParams" = k)) as [<-|_]; [done|].
    unfold and. destruct (is_str _ _); cbn [truthy].
    + rewrite own_object_lookup. simpl.
      destruct (decide ("style" = k)) as [<-|_]; [done|]. by destruct (own layer !! k).
    + simpl. rewrite lookup_empty. by destruct (own layer !! k).
Qed.

Lemma run_bind {A B} (c : effect A) (f : A -> effect B) n :
  (c ≫= f) n = match c n with
               | (Returns a, n') => f a n'
               | (Throws e, n') => (Throws e, n')
               end.
Proof. reflexivity. Qed.

Lemma filter_c_Returns (p : value -> completion bool) l r :
  filter_c p l = Returns r ->
  exists q : value -> bool, (forall x, In x l -> p x = Returns (q x)) /\ r = List.filter q l.
Proof.
  revert r. induction l as [|x l IH]; intros r H.
  - injection H as <-. exists (fun _ => true). split; [by intros ? []|done].
  - cbn [filter_c] in H. apply bind_Returns in H as (b & Hx & H).
    apply bind_Returns in H as (r' & Hl & [= <-]).
    destruct (IH r' Hl) as (q & Hq & ->).
    exists (fun y => match p y with Returns c => c | Throws _ => false end).
    split.
    + intros y [<-|Hy]; [by rewrite Hx|]. by rewrite (Hq y Hy).
    + cbn [List.filter]. rewrite Hx.
      assert (List.filter q l
              = List.filter (fun y => match p y with Returns c => c | Throws _ => false end) l) as ->.
      { apply filter_ext_in. intros y Hy. by rewrite (Hq y Hy). }
      done.
Qed.

Definition foreground (layer : value) : bool := negb (is_str layer?."group" "background").

Lemma mapStoreLayers_Returns maplayers data layers :
  mapStoreLayers maplayers data = Returns layers ->
  exists all ml,
    or data?."map"?."layers" (VArr []) = VArr all
    /\ maplayers = VArr ml
    /\ Forall (fun layer => nullish layer = false) all
    /\ layers = List.filter truthy (attachMapLayer ml <$> List.filter foreground all).
Proof.
  unfold mapStoreLayers. intros H.
  apply bind_Returns in H as (all & Hall & H).
  apply bind_Returns in H as (front & Hfront & H).
  apply bind_Returns in H as (ml & Hml & [= <-]).
  exists all, ml.
  assert (or data?."map"?."layers" (VArr []) = VArr all) as ->.
  { destruct (or _ _); try discriminate. by injection Hall as ->. }
  assert (maplayers = VArr ml) as ->.
  { destruct maplayers; try discriminate. by injection Hml as ->. }
  apply filter_c_Returns in Hfront as (q & Hq & ->).
  assert (forall x, In x all -> nullish x = false /\ q x = foreground x) as Hall'.
  { intros x Hx. specialize (Hq x Hx). apply fmap_Returns in Hq as (b & Hb & ->).
    unfold in_background in Hb. apply bind_Returns in Hb as (g & Hg & [= <-]).
    apply get_Returns in Hg as [Hn ->]. done. }
  split; [done|]. split; [done|]. split.
  - apply Forall_forall. intros x Hx%list_elem_of_In. by apply Hall'.
  - f_equal. f_equal. apply filter_ext_in. intros x Hx. by apply Hall'.
Qed.

Lemma mapStoreLayers_returns data all ml :
  or data?."map"?."layers" (VArr []) = VArr all ->
  Forall (fun layer => nullish layer = false) all ->
  mapStoreLayers (VArr ml) data
  = Returns (List.filter truthy (attachMapLayer ml <$> List.filter foreground all)).
Proof.
  intros Hall Hn. unfold mapStoreLayers. rewrite Hall. cbn [array mbind completion_bind].
  rewrite (filter_c_pure _ foreground).
  2:{ intros x Hx. rewrite Forall_forall in Hn. unfold in_background.
      rewrite get_not_nullish by (apply Hn; by apply list_elem_of_In). done. }
  done.
Qed.

Lemma toMapStoreMapConfig_layers I resource baseConfig n cfg n' :
  toMapStoreMapConfig I resource baseConfig n = (Returns cfg, n') ->
  exists backgroundLayers layers addMapLayers,
    mapStoreLayers (defaulted (or resource (object []))?."maplayers" (VArr []))
                   (or resource (object []))?."data" = Returns layers
    /\ cfg?."map"?."layers" = VArr (backgroundLayers ++ layers ++ addMapLayers).
Proof.
  unfold toMapStoreMapConfig. intros H.
  do 5 returned_step H.
  rewrite run_bind in H.
  destruct (@mapM effect _ _ _ _ _ _ n) as [[added|e] n1]; [|discriminate H].
  rewrite run_ret in H. injection H as <- <-.
  exists a1, a2, added. split; [done|].
  read_object. done.
Qed.

Definition layers_ok (layers : value) : bool :=
  match or layers (VArr []) with
  | VArr l => forallb (fun layer => negb (nullish layer)) l
  | _ => false
  end.

(** Maps whose layers are lists of layers and whose [maplayers] carry no
    dataset of their own, as the entries of [getGeoNodeMapLayers] do. *)
Definition config_ok (resource baseConfig : value) : bool :=
  layers_ok baseConfig?."map"?."layers"
  && layers_ok (or resource (object []))?."data"?."map"?."layers"
  && match defaulted (or resource (object []))?."maplayers" (VArr []) with
     | VArr ml => forallb (fun mLayer => negb (truthy mLayer?."dataset")) ml
     | _ => false
     end.

Lemma layers_ok_inv layers :
  layers_ok layers = true ->
  exists l, or layers (VArr []) = VArr l /\ Forall (fun layer => nullish layer = false) l.
Proof.
  unfold layers_ok. destruct (or layers (VArr [])) as [| | | | |l|]; try discriminate.
  intros H. exists l. split; [done|]. apply Forall_forall. intros x Hx%list_elem_of_In.
  rewrite forallb_forall in H. apply H in Hx. by destruct (nullish x).
Qed.

Lemma in_background_pure l :
  Forall (fun layer => nullish layer = false) l ->
  filter_c in_background l
  = Returns (List.filter (fun layer => is_str layer?."group" "background") l).
Proof.
  intros Hn. apply filter_c_pure. intros x Hx. rewrite Forall_forall in Hn.
  unfold in_background. rewrite get_not_nullish by (apply Hn; by apply list_elem_of_In). done.
Qed.

Lemma find_c_returns (p : value -> completion bool) l :
  (forall x, In x l -> exists b, p x = Returns b) ->
  exists v, find_c p l = Returns v /\ (v = VUndef \/ In v l).
Proof.
  induction l as [|x l IH]; intros H.
  - exists VUndef. split; [done|by left].
  - destruct (H x) as (b & Hb); [by left|]. cbn [find_c]. rewrite Hb. cbn.
    destruct b.
    + exists x. split; [done|]. right. by left.
    + destruct IH as (v & -> & Hv); [intros; apply H; by right|].
      exists v. split; [done|]. destruct Hv; [by left|]. right. by right.
Qed.

Lemma compareBackgroundLayers_returns a b :
  nullish a = false -> nullish b = false -> exists r, compareBackgroundLayers a b = Returns r.
Proof. intros Ha Hb. unfold compareBackgroundLayers, destructure. rewrite Ha, Hb. cbn. eauto. Qed.

Lemma mapM_returns {A B} (f : A -> completion B) l :
  (forall x, In x l -> exists y, f x = Returns y) -> exists r, mapM f l = Returns r.
Proof.
  induction l as [|x l IH]; intros H; [by exists []|].
  destruct (H x) as (y & Hy); [by left|].
  destruct IH as (r & Hr); [intros; apply H; by right|].
  exists (y :: r). cbn. rewrite Hy. cbn. by rewrite Hr.
Qed.

Lemma toMapStoreMapConfig_returns I resource baseConfig n :
  config_ok resource baseConfig = true ->
  exists cfg, toMapStoreMapConfig I resource baseConfig n = (Returns cfg, n).
Proof.
  unfold config_ok. intros Hok. repeat (apply andb_prop in Hok as [Hok ?]).
  destruct (layers_ok_inv _ Hok) as (base & Hbase & Hbase_n).
  destruct (layers_ok_inv _ H0) as (all & Hall & Hall_n).
  unfold toMapStoreMapConfig.
  set (r := or resource (object [])) in *.
  destruct (defaulted r?."maplayers" (VArr [])) as [| | | | |ml|] eqn:Hml; try discriminate.
  rewrite run_bind_lift, Hbase. cbn [array mbind completion_bind].
  rewrite (in_background_pure base Hbase_n).
  set (bg := List.filter _ base).
  assert (forall x, In x bg -> nullish x = false) as Hbg.
  { intros x Hx. apply filter_In in Hx as [Hx _]. rewrite Forall_forall in Hbase_n.
    apply Hbase_n. by apply list_elem_of_In. }
  rewrite run_bind_lift, Hall. cbn [array mbind completion_bind].
  rewrite (in_background_pure all Hall_n). cbn [mbind completion_bind].
  set (bg' := List.filter _ all).
  assert (forall x, In x bg' -> nullish x = false) as Hbg'.
  { intros x Hx. apply filter_In in Hx as [Hx _]. rewrite Forall_forall in Hall_n.
    apply Hall_n. by apply list_elem_of_In. }
  match goal with |- context [find_c ?p bg'] => destruct (find_c_returns p bg') as (cur & -> & Hcur) end.
  { intros x Hx. destruct (truthy x?."visibility"); [|by exists false].
    match goal with |- context [find_c ?p bg] => destruct (find_c_returns p bg) as (v & -> & _) end.
    - intros y Hy. apply compareBackgroundLayers_returns; auto.
    - cbn. eauto. }
  rewrite run_bind_lift.
  match goal with |- context [match ?c with Returns _ => _ | Throws _ => _ end] =>
    assert (exists r, c = Returns r) as (bgl & ->) end.
  { destruct (not cur) eqn:Hnot; [cbn; eauto|].
    apply mapM_returns. intros x Hx.
    destruct (compareBackgroundLayers_returns x cur) as (same & ->); [by apply Hbg| |cbn; eauto].
    destruct Hcur as [->|Hcur]; [discriminate|by apply Hbg']. }
  rewrite run_bind_lift, (mapStoreLayers_returns _ all ml Hall Hall_n).
  rewrite run_bind_lift. cbn [array].
  assert (List.filter (fun mLayer => truthy mLayer?."dataset") ml = []) as ->.
  { clear -H. induction ml as [|m ml IH]; [done|]. simpl in H.
    apply andb_prop in H as [Hm H]. simpl. destruct (truthy m?."dataset"); [done|]. by apply IH. }
  cbn [List.filter]. rewrite run_bind. cbn [mapM]. rewrite run_ret. rewrite run_ret. eauto.
Qed.

(** C2, as amended: every layer of [data.map.layers] that has
    [extendedParams.mapLayer] yields via [getGeoNodeMapLayers] an entry
    with [pk] equal to the layer's [extendedParams.mapLayer.pk],
    [extra_params.msId] equal to the layer's [id], and [order] equal to its
    index among the layers that have [extendedParams.mapLayer] (the layers
    without it are filtered out before the entries are numbered); and
    [toMapStoreMapConfig] attaches to every non-background layer with a
    defined [id] the first entry of [maplayers] whose [extra_params.msId]
    equals that [id], overriding the style of a wms layer with the entry's
    [current_style] when this is non-empty and keeping the other fields. *)
Theorem map_layers_reconcile (I : imports) (data : value) (layers : list value) :
  or data?."map"?."layers" (VArr []) = VArr layers ->
  (exists entries,
     getGeoNodeMapLayers data = Returns (VArr entries)
     /\ length entries = length (List.filter hasMapLayer layers)
     /\ forall j layer,
          layers !! j = Some layer -> hasMapLayer layer = true ->
          let i := length (List.filter hasMapLayer (take j layers)) in
          exists entry,
            entries !! i = Some entry
            /\ entry?."pk" = layer?."extendedParams"?."mapLayer"?."pk"
            /\ entry?."extra_params"?."msId" = layer?."id"
            /\ entry?."order" = num (Z.of_nat i))
  /\ (forall resource baseConfig maplayers,
        (or resource (object []))?."data" = data ->
        defaulted (or resource (object []))?."maplayers" (VArr []) = VArr maplayers ->
        (config_ok resource baseConfig = true ->
           forall n, exists cfg, toMapStoreMapConfig I resource baseConfig n = (Returns cfg, n))
        /\ (forall n cfg n',
              toMapStoreMapConfig I resource baseConfig n = (Returns cfg, n') ->
              exists out,
                cfg?."map"?."layers" = VArr out
                /\ forall layer entry,
                     In layer layers ->
                     is_str layer?."group" "background" = false ->
                     strict_eq layer?."id" VUndef = false ->
                     List.find (fun mLayer =>
                       strict_eq mLayer?."extra_params"?."msId" layer?."id") maplayers
                     = Some entry ->
                     exists layer',
                       In layer' out
                       /\ layer'?."extendedParams"?."mapLayer" = entry
                       /\ layer'?."style"
                          = (if is_str layer?."type" "wms"
                             then if truthy entry?."current_style"
                                  then entry?."current_style"
                                  else or layer?."style" (VStr "")
                             else layer?."style")
                       /\ forall k, k <> "style" -> k <> "extendedParams" ->
                                    own layer' !! k = own layer !! k)).
Proof.
  intros Hlayers. split.
  - exists (imap entry_of (List.filter hasMapLayer layers)).
    split; [by apply getGeoNodeMapLayers_entries|]. split; [by rewrite length_imap|].
    intros j layer Hj Hml i. exists (entry_of i layer).
    rewrite list_lookup_imap. subst i.
    rewrite (filter_take_lookup hasMapLayer layers j layer Hj Hml). split; [done|].
    destruct (entry_of_fields (length (List.filter hasMapLayer (take j layers))) layer Hml)
      as (? & ? & ? & _). done.
  - intros resource baseConfig maplayers Hdata Hml. split.
    + intros Hok n. by apply toMapStoreMapConfig_returns.
    + intros n cfg n' Hrun.
      destruct (toMapStoreMapConfig_layers _ _ _ _ _ _ Hrun) as (bg & front & added & Hfront & Hout).
      exists (app bg (app front added)). split; [exact Hout|].
      intros layer entry Hin Hfg Hid Hfind.
      rewrite Hml, Hdata in Hfront.
      apply mapStoreLayers_Returns in Hfront as (all & ml & Hall & [= <-] & _ & ->).
      rewrite Hlayers in Hall. injection Hall as <-.
      destruct (attachMapLayer_found maplayers layer entry Hid Hfind) as (Ht & Hentry & Hstyle & Hkeep).
      exists (attachMapLayer maplayers layer). split; [|done].
      apply in_or_app. right. apply in_or_app. left.
      apply filter_In. split; [|exact Ht].
      apply in_map. apply filter_In. split; [exact Hin|]. unfold foreground. by rewrite Hfg.
Qed.

Definition sample_layers : list value := [
  object ["id" ↦ VStr "osm"; "type" ↦ VStr "osm"; "group" ↦ VStr "background";
          "visibility" ↦ VBool true];
  object ["id" ↦ VStr "annotations"; "type" ↦ VStr "vector"];
  object ["id" ↦ VStr "roads"; "type" ↦ VStr "wms"; "name" ↦ VStr "geonode:roads";
          "style" ↦ VStr "line";
          "extendedParams" ↦ object ["mapLayer" ↦ object ["pk" ↦ num 5]]]
].

Definition sample_map_data : value := object ["map" ↦ object ["layers" ↦ VArr sample_layers]].

Definition sample_maplayer : value :=
  object ["pk" ↦ num 5; "current_style" ↦ VStr "dashed";
          "extra_params" ↦ object ["msId" ↦ VStr "roads"]].

Definition sample_map : value :=
  object ["data" ↦ sample_map_data; "maplayers" ↦ VArr [sample_maplayer]].

Lemma map_layers_reconcile_witness :
  or sample_map_data?."map"?."layers" (VArr []) = VArr sample_layers
  /\ (exists entry,
        getGeoNodeMapLayers sample_map_data = Returns (VArr [entry])
        /\ entry?."pk" = num 5 /\ entry?."extra_params"?."msId" = VStr "roads"
        /\ entry?."order" = num 0)
  /\ (exists cfg out layer',
        toMapStoreMapConfig sample_imports sample_map VUndef 0 = (Returns cfg, 0)
        /\ cfg?."map"?."layers" = VArr out
        /\ In layer' out
        /\ layer'?."id" = VStr "roads"
        /\ layer'?."extendedParams"?."mapLayer" = sample_maplayer
        /\ layer'?."style" = VStr "dashed").
Proof.
  destruct (map_layers_reconcile sample_imports sample_map_data sample_layers eq_refl)
    as [(entries & Hrun & Hlen & Hentries) Hconfig].
  split; [reflexivity|]. split.
  - destruct (Hentries 2 _ eq_refl eq_refl) as (entry & Hentry & Hpk & Hid & Horder).
    exists entry. split.
    + rewrite Hrun. do 2 f_equal.
      destruct entries as [|e [|e' entries]]; try discriminate Hlen.
      assert (length (List.filter hasMapLayer (take 2 sample_layers)) = 0) as Hi
        by (vm_compute; reflexivity).
      rewrite Hi in Hentry. by injection Hentry as ->.
    + split; [exact Hpk|]. split; [exact Hid|exact Horder].
  - destruct (Hconfig sample_map VUndef [sample_maplayer] eq_refl eq_refl) as [Hreturns Hattach].
    destruct (Hreturns eq_refl 0) as (cfg & Hcfg).
    destruct (Hattach 0 cfg 0 Hcfg) as (out & Hout & Hlayer).
    destruct (Hlayer (nth 2 sample_layers VUndef) sample_maplayer)
      as (layer' & Hin & Hentry & Hstyle & Hkeep);
      [right; right; left; reflexivity|reflexivity|reflexivity|reflexivity|].
    exists cfg, out, layer'. split; [exact Hcfg|]. split; [exact Hout|]. split; [exact Hin|].
    split; [|split; [exact Hentry|exact Hstyle]].
    rewrite field_own by done. by rewrite (Hkeep "id").
Defined.

(** C2 fails as stated: the layer at index 2 of [data.map.layers] yields the
    entry with [order] 0, its index among the layers that have
    [extendedParams.mapLayer]. *)
Lemma map_layer_order_is_filtered_index :
  exists layer entry,
    sample_layers !! 2 = Some layer
    /\ hasMapLayer layer = true
    /\ strict_eq layer?."id" VUndef = false
    /\ getGeoNodeMapLayers sample_map_data = Returns (VArr [entry])
    /\ entry?."extra_params"?."msId" = layer?."id"
    /\ entry?."order" = num 0
    /\ entry?."order" <> num 2.
Proof.
  eexists _, _. split; [reflexivity|]. split; [reflexivity|]. split; [reflexivity|].
  split; [vm_compute; reflexivity|]. split; [vm_compute; reflexivity|].
  split; [vm_compute; reflexivity|].
  intros H. vm_compute in H. discriminate H.
Qed.

(** ** The save API (claim C5) *)

Import GnSave.

Lemma getGeoNodeMapLayers_returns data l :
  or data?."map"?."layers" (VArr []) = VArr l ->
  exists entries, getGeoNodeMapLayers data = Returns (VArr entries).
Proof. intros H. unfold getGeoNodeMapLayers. rewrite H. cbn. eauto. Qed.

Lemma toGeoNodeMapConfig_spec data :
  (truthy data = false -> toGeoNodeMapConfig data = Returns (object []))
  /\ (truthy data = true -> forall maplayers,
        getGeoNodeMapLayers data = Returns maplayers ->
        toGeoNodeMapConfig data = Returns (object ["maplayers" ↦ maplayers])).
Proof.
  unfold toGeoNodeMapConfig, not. split.
  - by intros ->.
  - intros -> maplayers ->. done.
Qed.

(** C5, as amended: for a map, [SaveAPI] calls [updateMap(id, { ...body',
    id })] when the id is truthy and [createMap(body')] otherwise, where
    [body'] is the body extended with what [toGeoNodeMapConfig] computes
    from [body.data] (the [maplayers], or nothing when there is no data);
    for a document it calls [updateDocument(id, body)] when the id is
    truthy and returns [false], without any call, otherwise. *)
Theorem save_api_update_or_create (state id body : value) :
  (forall geoNodeMap,
     nullish body = false ->
     toGeoNodeMapConfig body?."data" = Returns geoNodeMap ->
     let body' := object [Spread body; Spread geoNodeMap] in
     parseMapBody body = Returns body'
     /\ SaveAPI ResourceTypes.MAP state id body
        = Returns (Promise (if truthy id
                            then updateMap id (object [Spread body'; "id" ↦ id])
                            else createMap body')))
  /\ (truthy body?."data" = false ->
      toGeoNodeMapConfig body?."data" = Returns (object []))
  /\ (truthy body?."data" = true ->
      forall layers, or body?."data"?."map"?."layers" (VArr []) = VArr layers ->
      exists maplayers,
        getGeoNodeMapLayers body?."data" = Returns (VArr maplayers)
        /\ toGeoNodeMapConfig body?."data"
           = Returns (object ["maplayers" ↦ VArr maplayers]))
  /\ SaveAPI ResourceTypes.DOCUMENT state id body
     = Returns (if truthy id then Promise (updateDocument id body) else Plain (VBool false)).
Proof.
  split; [|split; [|split]].
  - intros geoNodeMap Hb Hg body'.
    assert (parseMapBody body = Returns body') as Hparse.
    { unfold parseMapBody. rewrite (get_not_nullish _ _ Hb). cbn [mbind completion_bind].
      by rewrite Hg. }
    split; [exact Hparse|].
    unfold SaveAPI. cbn [String.eqb Ascii.eqb Bool.eqb ResourceTypes.MAP].
    rewrite Hparse. by destruct (truthy id).
  - apply toGeoNodeMapConfig_spec.
  - intros Hd layers Hl.
    destruct (getGeoNodeMapLayers_returns _ _ Hl) as (entries & He).
    exists entries. split; [done|]. by apply toGeoNodeMapConfig_spec.
  - unfold SaveAPI. cbn. by destruct (truthy id).
Qed.

Definition sample_body : value := object ["title" ↦ VStr "A map"].

(** C5 fails as stated: the body sent by [updateMap] is not [body'] but
    [body'] with the id added. *)
Lemma save_api_update_payload_has_id :
  parseMapBody sample_body = Returns sample_body
  /\ SaveAPI ResourceTypes.MAP VUndef (num 5) sample_body
     = Returns (Promise (updateMap (num 5) (object ["title" ↦ VStr "A map"; "id" ↦ num 5])))
  /\ SaveAPI ResourceTypes.MAP VUndef (num 5) sample_body
     <> Returns (Promise (updateMap (num 5) sample_body)).
Proof.
  split; [vm_compute; reflexivity|]. split; [vm_compute; reflexivity|].
  intros H. vm_compute in H. discriminate H.
Qed.


Lemma truthy_object ms : truthy (object ms) = true.
Proof. reflexivity. Qed.


(** ** Uploads (claim C10) *)

Lemma isOther_isDuplicate cur upload : isOther cur upload = negb (isDuplicate cur upload).
Proof.
  unfold isOther, isDuplicate.
  repeat match goal with |- context [if ?b then _ else _] => destruct b end; done.
Qed.

Lemma filter_all {A} (p : A -> bool) l :
  (forall x, In x l -> p x = true) -> List.filter p l = l.
Proof.
  induction l as [|x l IH]; intros H; [done|]. simpl.
  rewrite (H x) by (by left). f_equal. apply IH. intros. apply H. by right.
Qed.

(** The reducer on an element that is not nullish. *)
Definition keepUpload (acc : list value) (cur : value) : list value :=
  withId cur :: List.filter (isOther cur) acc.

Lemma addUpload_keepUpload acc cur :
  nullish cur = false -> Forall (fun u => truthy u = true) acc ->
  addUpload acc cur = Returns (keepUpload acc cur).
Proof.
  intros Hn Hacc. unfold addUpload, destructure, keepUpload. rewrite Hn.
  cbn [mbind completion_bind]. unfold find.
  destruct (List.find (isDuplicate cur) acc) as [d|] eqn:Hfind; cbn [default from_option id].
  - apply find_some in Hfind as [Hd _]. rewrite Forall_forall in Hacc.
    by rewrite (Hacc d) by (by apply list_elem_of_In).
  - cbn. rewrite filter_all; [done|]. intros x Hx.
    rewrite isOther_isDuplicate. by rewrite (find_none _ _ Hfind x Hx).
Qed.

Lemma keepUpload_truthy acc cur :
  Forall (fun u => truthy u = true) acc -> Forall (fun u => truthy u = true) (keepUpload acc cur).
Proof.
  intros H. constructor; [apply truthy_object|].
  apply Forall_forall. intros x Hx%list_elem_of_In. apply filter_In in Hx as [Hx _].
  rewrite Forall_forall in H. apply H. by apply list_elem_of_In.
Qed.

Lemma reduce_keepUpload l acc :
  Forall (fun c => nullish c = false) l -> Forall (fun u => truthy u = true) acc ->
  foldl (fun acc cur => acc ≫= fun a => addUpload a cur) (Returns acc) l
  = Returns (foldl keepUpload acc l).
Proof.
  intros Hl. revert acc. induction Hl as [|c l Hc Hl IH]; intros acc Hacc; [done|].
  cbn [foldl mbind completion_bind]. rewrite (addUpload_keepUpload acc c Hc Hacc).
  apply IH. by apply keepUpload_truthy.
Qed.

Lemma processUploadResponse_unfold l :
  Forall (fun c => nullish c = false) l ->
  processUploadResponse (VArr l)
  = VArr <$> orderBy (uniqBy (foldl keepUpload [] l) "id") "create_date" desc.
Proof.
  intros Hl. unfold processUploadResponse. cbn [array mbind completion_bind].
  rewrite (reduce_keepUpload l [] Hl) by constructor. done.
Qed.

(** An entry of the accumulator comes from an element of the response that
    no later element has replaced. *)
Definition survives (l : list value) (o : value) : Prop :=
  exists p c, l !! p = Some c /\ o = withId c
    /\ forall p' d, p < p' -> l !! p' = Some d -> isDuplicate d o = false.

Lemma survives_reduce l o : In o (foldl keepUpload [] l) -> survives l o.
Proof.
  revert o. induction l as [|cur l IH] using rev_ind; intros o Ho; [done|].
  rewrite foldl_app in Ho. cbn [foldl] in Ho. destruct Ho as [<-|Ho].
  - exists (length l), cur. split; [by rewrite lookup_app_r, Nat.sub_diag|]. split; [done|].
    intros p' d Hp Hd. apply lookup_lt_Some in Hd. rewrite length_app in Hd. simpl in Hd. lia.
  - apply filter_In in Ho as [Ho Hother]. destruct (IH o Ho) as (p & c & Hp & -> & Hlater).
    exists p, c. split; [by apply lookup_app_l_Some|]. split; [done|].
    intros p' d Hlt Hd. destruct (decide (p' < length l)) as [Hin|Hout].
    + rewrite lookup_app_l in Hd by done. by eapply Hlater.
    + rewrite lookup_app_r in Hd by lia.
      destruct (p' - length l) as [|k] eqn:Hk; [|by destruct k].
      injection Hd as <-. rewrite isOther_isDuplicate in Hother. by destruct (isDuplicate cur _).
Qed.

Lemma strict_eq_sym a b : strict_eq a b = strict_eq b a.
Proof.
  destruct a, b; simpl; try done.
  - by destruct b, b0.
  - unfold Qeq_bool. apply Z.eqb_sym.
  - apply String.eqb_sym.
Qed.

(** No two elements have the same value of the property [key]. *)
Inductive distinct_by (key : string) : list value -> Prop :=
| distinct_by_nil : distinct_by key []
| distinct_by_cons x l :
    Forall (fun y => strict_eq x?.key y?.key = false) l ->
    distinct_by key l -> distinct_by key (x :: l).

Lemma uniqBy_from_spec seen key l :
  distinct_by key (uniqBy_from seen key l)
  /\ Forall (fun x => In x l /\ Forall (fun s => strict_eq x?.key s = false) seen)
       (uniqBy_from seen key l).
Proof.
  revert seen. induction l as [|x l IH]; intros seen; simpl.
  - split; constructor.
  - destruct (existsb (strict_eq x?.key) seen) eqn:Hseen.
    + destruct (IH seen) as [Hd Hf]. split; [done|].
      eapply Forall_impl; [exact Hf|]. intros y [Hy ?]. split; [by right|done].
    + destruct (IH (x?.key :: seen)) as [Hd Hf]. split.
      * constructor; [|done]. eapply Forall_impl; [exact Hf|].
        intros y [_ Hy]. apply Forall_inv in Hy. by rewrite strict_eq_sym.
      * constructor.
        -- split; [by left|]. apply Forall_forall. intros s Hs%list_elem_of_In.
           destruct (strict_eq x?.key s) eqn:Hxs; [|done].
           assert (existsb (strict_eq x?.key) seen = true) as Hex
             by (apply existsb_exists; eauto).
           congruence.
        -- eapply Forall_impl; [exact Hf|]. intros y [Hy Hs]. split; [by right|].
           by apply Forall_inv_tail in Hs.
Qed.

Lemma distinct_by_Permutation key l l' :
  l ≡ₚ l' -> distinct_by key l -> distinct_by key l'.
Proof.
  induction 1 as [|x l l' Hp IH|x y l|l1 l2 l3 _ IH1 _ IH2]; intros Hd.
  - done.
  - inversion Hd as [|? ? Hx Hl]; subst. constructor; [by rewrite <- Hp|by apply IH].
  - inversion Hd as [|? ? Hy Hl]; subst. inversion Hl as [|? ? Hx Hl']; subst.
    apply Forall_cons in Hy as [Hyx Hy].
    constructor; [constructor; [by rewrite strict_eq_sym|done]|]. by constructor.
  - auto.
Qed.

Lemma distinct_by_lookup key l i j x y :
  distinct_by key l -> i <> j -> l !! i = Some x -> l !! j = Some y ->
  strict_eq x?.key y?.key = false.
Proof.
  intros Hd. revert i j. induction Hd as [|z l Hz Hd IH]; intros i j Hij Hi Hj; [done|].
  rewrite Forall_forall in Hz.
  destruct i as [|i], j as [|j]; simpl in *; try done.
  - injection Hi as <-. apply Hz. by eapply list_elem_of_lookup_2.
  - injection Hj as <-. rewrite strict_eq_sym. apply Hz. by eapply list_elem_of_lookup_2.
  - apply (IH i j); auto.
Qed.

Lemma Forall_filter {A} (P : A -> Prop) (p : A -> bool) l :
  Forall P l -> Forall P (List.filter p l).
Proof.
  induction 1 as [|x l Hx Hl IH]; [constructor|]. cbn. destruct (p x); [by constructor|done].
Qed.

Lemma distinct_by_filter key (p : value -> bool) l :
  distinct_by key l -> distinct_by key (List.filter p l).
Proof.
  induction 1 as [|x l Hx Hl IH]; [constructor|]. cbn.
  destruct (p x); [|done]. constructor; [|done]. by apply Forall_filter.
Qed.

Lemma uniqBy_from_distinct seen key l :
  distinct_by key l ->
  Forall (fun x => existsb (strict_eq x?.key) seen = false) l ->
  uniqBy_from seen key l = l.
Proof.
  intros Hd. revert seen. induction Hd as [|x l Hx Hd IH]; intros seen Hseen; [done|].
  apply Forall_cons in Hseen as [Hxs Hseen]. cbn [uniqBy_from]. rewrite Hxs. f_equal.
  apply IH. rewrite Forall_forall in Hx, Hseen |- *. intros y Hy. cbn [existsb].
  rewrite (Hseen y Hy), orb_false_r. rewrite strict_eq_sym. by apply Hx.
Qed.

Lemma insert_by_Permutation le x l : insert_by le x l ≡ₚ x :: l.
Proof.
  induction l as [|y l IH]; simpl; [done|].
  destruct (le x y); [done|]. rewrite IH. apply perm_swap.
Qed.

Lemma sort_Permutation le l : foldr (insert_by le) [] l ≡ₚ l.
Proof.
  induction l as [|x l IH]; simpl; [done|]. by rewrite insert_by_Permutation, IH.
Qed.

(** *** The order of [compareAscending] *)

Lemma ascii_compare_N a b : Ascii.compare a b = N.compare (Ascii.N_of_ascii a) (Ascii.N_of_ascii b).
Proof. reflexivity. Qed.

Lemma string_compare_refl s : String.compare s s = Eq.
Proof.
  pose proof (String.compare_antisym s s) as H. by destruct (String.compare s s).
Qed.

Lemma string_compare_trans s1 s2 s3 :
  String.compare s1 s2 <> Lt -> String.compare s2 s3 <> Lt -> String.compare s1 s3 <> Lt.
Proof.
  revert s2 s3. induction s1 as [|c1 s1 IH]; intros [|c2 s2] [|c3 s3]; simpl; try done.
  rewrite !ascii_compare_N.
  destruct (N.compare_spec (Ascii.N_of_ascii c1) (Ascii.N_of_ascii c2)) as [H12|H12|H12];
  destruct (N.compare_spec (Ascii.N_of_ascii c2) (Ascii.N_of_ascii c3)) as [H23|H23|H23];
  destruct (N.compare_spec (Ascii.N_of_ascii c1) (Ascii.N_of_ascii c3)) as [H13|H13|H13];
    try done; try lia.
  apply IH.
Qed.

(** The number that a numeric or boolean key compares as. *)
Definition numeric_key (v : value) : option Q :=
  match v with
  | VNum q => Some q
  | VBool b => Some (if b then 1%Q else 0%Q)
  | _ => None
  end.

Lemma Qeq_bool_compare x y : Qeq_bool x y = true -> Qcompare x y = Eq.
Proof. intros H. apply Qeq_alt. by apply Qeq_bool_iff. Qed.

Lemma compareAscending_numeric a b x y :
  numeric_key a = Some x -> numeric_key b = Some y ->
  compareAscending a b = Returns (Qcompare x y).
Proof.
  destruct a as [| |ba|qa| | |], b as [| |bb|qb| | |]; try discriminate;
    intros [= <-] [= <-]; unfold compareAscending; simpl.
  - by destruct ba, bb.
  - done.
  - done.
  - destruct (Qeq_bool qa qb) eqn:He; [|done]. by rewrite Qeq_bool_compare.
Qed.

Lemma compareAscending_text a b :
  compareAscending (VStr a) (VStr b) = Returns (String.compare a b).
Proof.
  unfold compareAscending. simpl. destruct (String.eqb_spec a b) as [->|]; [|done].
  by rewrite string_compare_refl.
Qed.

(** How keys sort: [undefined] last, after [null]; numbers and strings
    among themselves; arrays and objects compare with [undefined] and
    [null] only. *)
Inductive key_class : Type := KLast | KNull | KNum (q : Q) | KText (s : string) | KOther.

Definition classify (v : value) : option key_class :=
  match v with
  | VUndef => Some KLast
  | VNull => Some KNull
  | VNum q => Some (KNum q)
  | VBool b => Some (KNum (if b then 1%Q else 0%Q))
  | VStr s => Some (KText s)
  | VArr _ | VObj _ => Some KOther
  end.

Definition class_compare (a b : key_class) : option comparison :=
  match a, b with
  | KLast, KLast => Some Eq
  | KLast, _ => Some Gt
  | _, KLast => Some Lt
  | KNull, KNull => Some Eq
  | KNull, _ => Some Gt
  | _, KNull => Some Lt
  | KNum x, KNum y => Some (Qcompare x y)
  | KText x, KText y => Some (String.compare x y)
  | _, _ => None
  end.

Lemma compareAscending_classify a b r :
  compareAscending a b = Returns r ->
  exists ka kb, classify a = Some ka /\ classify b = Some kb /\ class_compare ka kb = Some r.
Proof.
  destruct a as [| |ba|qa|sa|la|ma], b as [| |bb|qb|sb|lb|mb];
    try (unfold compareAscending; simpl; intros [= <-]; eexists _, _; by repeat split);
    try (unfold compareAscending; simpl; discriminate).
  - rewrite (compareAscending_numeric (VBool ba) (VBool bb) _ _ eq_refl eq_refl).
    intros [= <-]. eexists _, _. by repeat split.
  - rewrite (compareAscending_numeric (VNum qa) (VNum qb) _ _ eq_refl eq_refl).
    intros [= <-]. eexists _, _. by repeat split.
  - rewrite compareAscending_text. intros [= <-]. eexists _, _. by repeat split.
Qed.

Lemma class_compare_antisym a b r :
  class_compare a b = Some r -> class_compare b a = Some (CompOpp r).
Proof.
  destruct a, b; simpl; try discriminate; intros [= <-]; try done.
  - by rewrite Qcompare_antisym.
  - f_equal. rewrite (String.compare_antisym s s0). by destruct (String.compare s0 s).
Qed.

Lemma Qcompare_ge_trans x y z :
  Qcompare x y <> Lt -> Qcompare y z <> Lt -> Qcompare x z <> Lt.
Proof.
  rewrite <- !Qlt_alt. intros H1 H2 H3.
  apply Qnot_lt_le in H1, H2. apply (Qlt_not_le _ _ H3). by eapply Qle_trans.
Qed.

Lemma class_compare_trans a b c r1 r2 r3 :
  class_compare a b = Some r1 -> class_compare b c = Some r2 -> class_compare a c = Some r3 ->
  r1 <> Lt -> r2 <> Lt -> r3 <> Lt.
Proof.
  destruct a, b, c; simpl; try discriminate; intros [= <-] [= <-] [= <-]; try done.
  - apply Qcompare_ge_trans.
  - apply string_compare_trans.
Qed.

(** [x] does not sort strictly before [y]: the order of a descending
    list. *)
Definition not_before (key : string) (x y : value) : Prop :=
  exists r, compareAscending x?.key y?.key = Returns r /\ r <> Lt.

Definition pairwise_comparable (key : string) (l : list value) : Prop :=
  forall x y, In x l -> In y l -> exists r, compareAscending x?.key y?.key = Returns r.

Lemma comparable_pairwise key l : comparable key l = true -> pairwise_comparable key l.
Proof.
  unfold comparable. rewrite forallb_forall. intros H x y Hx Hy.
  specialize (H x Hx). rewrite forallb_forall in H. specialize (H y Hy).
  destruct (compareAscending x?.key y?.key); [eauto|discriminate].
Qed.

Lemma precedes_not_before key x y :
  (exists r, compareAscending x?.key y?.key = Returns r) ->
  precedes key desc x y = true -> not_before key x y.
Proof.
  intros (r & Hr) H. exists r. split; [done|]. unfold precedes in H. rewrite Hr in H.
  by destruct r.
Qed.

Lemma not_precedes_not_before key x y :
  (exists r, compareAscending y?.key x?.key = Returns r) ->
  precedes key desc x y = false -> not_before key y x.
Proof.
  intros (r & Hr) H. exists r. split; [done|]. unfold precedes in H.
  destruct (compareAscending x?.key y?.key) as [r'|] eqn:Hr'; [|done].
  destruct r'; try done.
  apply compareAscending_classify in Hr as (ky & kx & Hy & Hx & Hc).
  apply compareAscending_classify in Hr' as (kx' & ky' & Hx' & Hy' & Hc').
  assert (kx' = kx) as -> by congruence. assert (ky' = ky) as -> by congruence.
  apply class_compare_antisym in Hc'. rewrite Hc in Hc'. by injection Hc' as ->.
Qed.

Lemma not_before_trans key x y z :
  (exists r, compareAscending x?.key z?.key = Returns r) ->
  not_before key x y -> not_before key y z -> not_before key x z.
Proof.
  intros (r & Hr) (r1 & H1 & Hn1) (r2 & H2 & Hn2). exists r. split; [done|].
  apply compareAscending_classify in Hr as (kx & kz & Hx & Hz & Hc).
  apply compareAscending_classify in H1 as (kx' & ky & Hx' & Hy & Hc1).
  apply compareAscending_classify in H2 as (ky' & kz' & Hy' & Hz' & Hc2).
  assert (kx' = kx) as -> by congruence. assert (ky' = ky) as -> by congruence.
  assert (kz' = kz) as -> by congruence.
  exact (class_compare_trans kx ky kz r1 r2 r Hc1 Hc2 Hc Hn1 Hn2).
Qed.

Lemma insert_by_StronglySorted key x l :
  pairwise_comparable key (x :: l) ->
  StronglySorted (not_before key) l ->
  StronglySorted (not_before key) (insert_by (precedes key desc) x l).
Proof.
  intros Hc Hs. revert Hc. induction Hs as [|y l Hs IH Hy]; intros Hc; simpl.
  - repeat constructor.
  - destruct (precedes key desc x y) eqn:Hp.
    + assert (not_before key x y) as Hxy.
      { apply precedes_not_before; [|done]. apply Hc; simpl; auto. }
      constructor; [by constructor|]. constructor; [done|].
      apply Forall_forall. intros z Hz. rewrite Forall_forall in Hy.
      apply (not_before_trans key x y z); [|done|by apply Hy].
      apply Hc; simpl; auto. right. right. by apply list_elem_of_In.
    + constructor.
      * apply IH. intros a b Ha Hb. apply Hc; simpl in *; tauto.
      * rewrite insert_by_Permutation. constructor; [|done].
        apply not_precedes_not_before; [|done]. apply Hc; simpl; auto.
Qed.

Lemma sort_StronglySorted key l :
  pairwise_comparable key l ->
  StronglySorted (not_before key) (foldr (insert_by (precedes key desc)) [] l).
Proof.
  induction l as [|x l IH]; intros Hc; simpl; [constructor|].
  apply insert_by_StronglySorted.
  - intros a b Ha Hb. apply Hc.
    + destruct Ha as [<-|Ha]; [by left|]. right.
      apply list_elem_of_In. rewrite <- (sort_Permutation (precedes key desc) l).
      by apply list_elem_of_In.
    + destruct Hb as [<-|Hb]; [by left|]. right.
      apply list_elem_of_In. rewrite <- (sort_Permutation (precedes key desc) l).
      by apply list_elem_of_In.
  - apply IH. intros a b Ha Hb. apply Hc; by right.
Qed.

Lemma orderBy_desc_spec l key out :
  orderBy l key desc = Returns out ->
  out ≡ₚ l /\ StronglySorted (not_before key) out.
Proof.
  unfold orderBy. destruct (comparable key l) eqn:Hc; [|discriminate].
  intros [= <-]. split; [apply sort_Permutation|].
  by apply sort_StronglySorted, comparable_pairwise.
Qed.

Lemma StronglySorted_lookup {A} (R : A -> A -> Prop) l i j x y :
  StronglySorted R l -> i < j -> l !! i = Some x -> l !! j = Some y -> R x y.
Proof.
  intros Hs. revert i j. induction Hs as [|z l Hs IH Hz]; intros i j Hij Hi Hj; [done|].
  destruct j as [|j]; [lia|]. destruct i as [|i]; simpl in *.
  - injection Hi as <-. rewrite Forall_forall in Hz. apply Hz. by eapply list_elem_of_lookup_2.
  - apply (IH i j); [lia|done..].
Qed.

(** Dates are strings, or missing. *)
Definition date_ok (v : value) : bool :=
  match v with VUndef | VNull | VStr _ => true | _ => false end.

Lemma comparable_dates key l :
  (forall x, In x l -> date_ok x?.key = true) -> comparable key l = true.
Proof.
  intros H. unfold comparable. apply forallb_forall. intros x Hx.
  apply forallb_forall. intros y Hy.
  pose proof (H x Hx) as Hdx. pose proof (H y Hy) as Hdy.
  destruct (x?.key) as [| | | |sx| |], (y?.key) as [| | | |sy| |]; try discriminate; try done.
  by rewrite compareAscending_text.
Qed.

Lemma uniqBy_In l key x : In x (uniqBy l key) -> In x l.
Proof.
  unfold uniqBy. intros Hx. destruct (uniqBy_from_spec [] key l) as [_ Hf].
  rewrite Forall_forall in Hf. by apply Hf, list_elem_of_In.
Qed.

Lemma reduce_In l o : In o (foldl keepUpload [] l) -> exists c, In c l /\ o = withId c.
Proof.
  intros Ho. destruct (survives_reduce l o Ho) as (p & c & Hp & -> & _).
  exists c. split; [|done]. apply list_elem_of_In. by eapply list_elem_of_lookup_2.
Qed.

Lemma withId_spec c :
  (truthy c?."id" = false ->
     (withId c)?."id" = c?."exec_id" /\ (withId c)?."create_date" = c?."created")
  /\ (truthy c?."id" = true -> own (withId c) = own c).
Proof.
  unfold withId, not. split; intros ->; cbn [negb].
  - unfold and. cbn [truthy]. split; read_object; rewrite own_object_lookup; done.
  - apply map_eq. intros k. rewrite own_object_lookup. simpl.
    unfold and. cbn [truthy own]. rewrite lookup_empty. by destruct (own c !! k).
Qed.

(** The entries of a response that no later entry replaces, each with its
    [id], in the order of the response. *)
Fixpoint unreplaced (response : list value) : list value :=
  match response with
  | [] => []
  | c :: later =>
      if existsb (fun d => isDuplicate d (withId c)) later then unreplaced later
      else withId c :: unreplaced later
  end.

Lemma filter_filter_andb {A} (p q : A -> bool) l :
  List.filter p (List.filter q l) = List.filter (fun x => q x && p x) l.
Proof.
  induction l as [|x l IH]; [done|]. simpl. destruct (q x); simpl; [|done].
  destruct (p x); by rewrite IH.
Qed.

(** The accumulator of the reducer, latest entry first. *)
Lemma reduce_unreplaced l acc :
  foldl keepUpload acc l
  = (rev (unreplaced l)
     ++ List.filter (fun u => forallb (fun d => isOther d u) l) acc)%list.
Proof.
  revert acc. induction l as [|c l IH]; intros acc.
  - simpl. by rewrite filter_all.
  - cbn [foldl unreplaced]. rewrite IH. unfold keepUpload. cbn [List.filter forallb].
    rewrite filter_filter_andb.
    assert (forallb (fun d => isOther d (withId c)) l
            = negb (existsb (fun d => isDuplicate d (withId c)) l)) as ->.
    { clear. induction l as [|d l IH]; [done|]. simpl.
      by rewrite IH, isOther_isDuplicate, negb_orb. }
    destruct (existsb _ l); cbn [negb rev]; [done|]. by rewrite <- app_assoc.
Qed.

Lemma strict_eq_truthy a b : strict_eq a b = true -> truthy a = truthy b.
Proof.
  destruct a as [| |x|x|x|x|x], b as [| |y|y|y|y|y]; simpl; try done.
  - by intros ->%Bool.eqb_prop.
  - intros H%Qeq_bool_iff. f_equal. apply eq_true_iff_eq.
    rewrite !Qeq_bool_iff. by rewrite H.
  - by intros ->%String.eqb_eq.
Qed.

(** The [id] that the reducer gives to an entry without one is its
    [exec_id]. *)
Lemma withId_falsy_id e :
  truthy (withId e)?."id" = false -> (withId e)?."id" = (withId e)?."exec_id".
Proof.
  destruct (withId_spec e) as [Hf Ht]. destruct (truthy e?."id") eqn:He.
  - intros Hid. rewrite (field_own (withId e) "id"), (Ht eq_refl), <- field_own in Hid by done.
    congruence.
  - intros _. destruct (Hf eq_refl) as [-> _]. unfold withId, not. rewrite He.
    cbn [negb]. unfold and. cbn [truthy]. read_object. rewrite own_object_lookup. simpl.
    rewrite (field_own e "exec_id") by done. by destruct (own e !! "exec_id").
Qed.

(** Two entries of the accumulator never have the same [id]: an entry
    whose [id] is that of a later one is its duplicate under the rule of
    the reducer. *)
Lemma same_id_isDuplicate c e :
  strict_eq (withId c)?."id" (withId e)?."id" = true -> isDuplicate c (withId e) = true.
Proof.
  intros Hs. pose proof (strict_eq_truthy _ _ Hs) as Ht.
  rewrite strict_eq_sym in Hs. unfold isDuplicate.
  destruct (withId_spec c) as [Hf Hk]. destruct (truthy c?."id") eqn:Hc.
  - assert ((withId c)?."id" = c?."id") as Hid
      by (by rewrite !(field_own _ "id"), (Hk eq_refl) by done).
    rewrite Hid in Hs, Ht. rewrite <- Ht, Hc. simpl. done.
  - destruct (Hf eq_refl) as [Hid _]. rewrite Hid in Hs, Ht.
    rewrite andb_false_r. destruct (truthy (withId e)?."id") eqn:Hu.
    + rewrite Ht. simpl. done.
    + simpl. rewrite andb_false_r. by rewrite <- (withId_falsy_id e Hu).
Qed.

Lemma reduce_distinct l acc :
  distinct_by "id" acc -> Forall (fun u => exists e, u = withId e) acc ->
  distinct_by "id" (foldl keepUpload acc l).
Proof.
  revert acc. induction l as [|c l IH]; intros acc Hd Hw; [done|].
  cbn [foldl]. apply IH; unfold keepUpload.
  - constructor; [|by apply distinct_by_filter].
    apply Forall_forall. intros u [Hu Ho]%list_elem_of_In%filter_In.
    rewrite Forall_forall in Hw. destruct (Hw u) as (e & ->); [by apply list_elem_of_In|].
    rewrite isOther_isDuplicate in Ho.
    destruct (strict_eq _ _) eqn:Hs; [|done].
    by rewrite (same_id_isDuplicate c e Hs) in Ho.
  - constructor; [by exists c|]. apply Forall_forall. intros u [Hu _]%list_elem_of_In%filter_In.
    rewrite Forall_forall in Hw. by apply Hw, list_elem_of_In.
Qed.

(** The duplicates by [id] that [parseUploadResponse] would remove are
    none: the reducer has left no two entries with the same [id]. *)
Lemma uniqBy_reduce l :
  uniqBy (foldl keepUpload [] l) "id" = rev (unreplaced l).
Proof.
  unfold uniqBy. rewrite uniqBy_from_distinct.
  - rewrite reduce_unreplaced. simpl. by rewrite app_nil_r.
  - apply reduce_distinct; constructor.
  - by apply Forall_forall.
Qed.

Lemma unreplaced_survives l o : In o (unreplaced l) <-> survives l o.
Proof.
  split.
  - intros Ho. apply survives_reduce. rewrite reduce_unreplaced. simpl.
    rewrite app_nil_r. by apply in_rev in Ho.
  - revert o. induction l as [|c l IH]; intros o (p & e & Hp & -> & Hlater); [done|].
    destruct p as [|p].
    + injection Hp as ->. cbn [unreplaced].
      assert (existsb (fun d => isDuplicate d (withId e)) l = false) as ->; [|by left].
      apply not_true_is_false. intros (d & Hd & Hdup)%existsb_exists.
      apply list_elem_of_In, list_elem_of_lookup_1 in Hd as [i Hi].
      by rewrite (Hlater (S i) d) in Hdup by (done || lia).
    + assert (In (withId e) (unreplaced l)) as Hin.
      { apply IH. exists p, e. split; [done|]. split; [done|].
        intros p' d Hlt Hd. apply (Hlater (S p') d); [lia|done]. }
      cbn [unreplaced]. destruct (existsb _ l); [done|by right].
Qed.

(** C10, as amended: on a list of entries none of which is [null] or
    [undefined], the output of [processUploadResponse] contains no two
    entries with the same [id]; its entries are exactly the entries of the
    input that no later entry replaces, each once and each with, when it
    lacks an [id], its [exec_id] for [id] and its [created] field for
    [create_date]; an entry of the input is replaced by a later one that is
    its duplicate under the rule of the reducer (the ids of the two when
    both have one; else the earlier id and the later [exec_id]; else the
    earlier [exec_id] and the later id; else the two [exec_id]), so that an
    entry is in the output if and only if it has no later duplicate, as the
    last entry of the input always is; and the output is ordered by
    [create_date], descending. The function returns when the dates are
    strings or missing. *)
Theorem uploads_normalized (response : list value) :
  Forall (fun c => nullish c = false) response ->
  (Forall (fun c => date_ok (withId c)?."create_date" = true) response ->
     exists out, processUploadResponse (VArr response) = Returns (VArr out))
  /\ (forall c,
        (truthy c?."id" = false ->
           (withId c)?."id" = c?."exec_id" /\ (withId c)?."create_date" = c?."created")
        /\ (truthy c?."id" = true -> own (withId c) = own c))
  /\ (forall out,
        processUploadResponse (VArr response) = Returns (VArr out) ->
        (forall i j x y,
           i <> j -> out !! i = Some x -> out !! j = Some y ->
           strict_eq x?."id" y?."id" = false)
        /\ (forall o, In o out <->
              exists p c,
                response !! p = Some c /\ o = withId c
                /\ forall p' d, p < p' -> response !! p' = Some d -> isDuplicate d o = false)
        /\ out ≡ₚ unreplaced response
        /\ (forall c, last response = Some c -> In (withId c) out)
        /\ (forall i j x y,
              i < j -> out !! i = Some x -> out !! j = Some y ->
              exists r, compareAscending x?."create_date" y?."create_date" = Returns r
                        /\ r <> Lt)).
Proof.
  intros Hn. pose proof (processUploadResponse_unfold response Hn) as Hrun.
  split; [|split].
  - intros Hdates. rewrite Hrun. unfold orderBy. rewrite comparable_dates; [cbn; eauto|].
    intros x Hx. apply (uniqBy_In _ "id"), reduce_In in Hx as (c & Hc & ->).
    rewrite Forall_forall in Hdates. by apply Hdates, list_elem_of_In.
  - apply withId_spec.
  - intros out Hout. rewrite Hrun in Hout. apply fmap_Returns in Hout as (sorted & Hs & [= ->]).
    apply orderBy_desc_spec in Hs as [Hperm Hsorted].
    assert (sorted ≡ₚ unreplaced response) as Hkept.
    { rewrite Hperm, uniqBy_reduce. by rewrite <- Permutation_rev. }
    assert (forall o, In o sorted <-> survives response o) as Hin.
    { intros o. rewrite <- unreplaced_survives. split; intros Ho%list_elem_of_In;
        apply list_elem_of_In; [by rewrite <- Hkept|by rewrite Hkept]. }
    split; [|split; [|split; [|split]]].
    + intros i j x y Hij Hi Hj.
      apply (distinct_by_lookup "id" sorted i j); [|done..].
      apply (distinct_by_Permutation "id" (uniqBy (foldl keepUpload [] response) "id"));
        [done|]. apply uniqBy_from_spec.
    + exact Hin.
    + exact Hkept.
    + intros c Hc. apply Hin. exists (pred (length response)), c.
      split; [by rewrite <- last_lookup|]. split; [done|].
      intros p' d Hlt Hd%lookup_lt_Some. lia.
    + intros i j x y Hij Hi Hj.
      exact (StronglySorted_lookup (not_before "create_date") sorted i j x y Hsorted Hij Hi Hj).
Qed.

Definition sample_uploads : list value := [
  object ["exec_id" ↦ VStr "e1"; "created" ↦ VStr "2024-01-02"; "status" ↦ VStr "running"];
  object ["id" ↦ num 3; "create_date" ↦ VStr "2024-01-05"];
  object ["exec_id" ↦ VStr "e1"; "created" ↦ VStr "2024-01-03"; "status" ↦ VStr "finished"]
].

Lemma uploads_normalized_witness :
  Forall (fun c => nullish c = false) sample_uploads
  /\ processUploadResponse (VArr sample_uploads)
     = Returns (VArr [
         object ["id" ↦ num 3; "create_date" ↦ VStr "2024-01-05"];
         object ["exec_id" ↦ VStr "e1"; "created" ↦ VStr "2024-01-03";
                 "status" ↦ VStr "finished";
                 "create_date" ↦ VStr "2024-01-03"; "id" ↦ VStr "e1"]])
  /\ (forall out, processUploadResponse (VArr sample_uploads) = Returns (VArr out) ->
        (forall i j x y, i <> j -> out !! i = Some x -> out !! j = Some y ->
                         strict_eq x?."id" y?."id" = false)
        /\ out ≡ₚ unreplaced sample_uploads).
Proof.
  assert (Forall (fun c => nullish c = false) sample_uploads) as Hn
    by (repeat constructor).
  destruct (uploads_normalized sample_uploads Hn) as (_ & _ & Hout).
  split; [exact Hn|]. split; [vm_compute; reflexivity|].
  intros out Hrun. by destruct (Hout out Hrun) as (Hdistinct & _ & Hkept & _).
Defined.

Definition earlier_upload : value :=
  object ["id" ↦ num 7; "exec_id" ↦ num 7; "create_date" ↦ VStr "2024-01-01"].

Definition later_upload : value :=
  object ["id" ↦ num 3; "exec_id" ↦ num 7; "create_date" ↦ VStr "2024-01-02"].

(** C10 fails as stated: the later entry has the [exec_id] of the earlier
    one, which is also the earlier one's [id], and yet both are in the
    output; the later entry has an [id] of its own, and the two ids are
    compared first. *)
Lemma upload_match_precedence :
  strict_eq later_upload?."exec_id" earlier_upload?."id" = true
  /\ strict_eq later_upload?."exec_id" earlier_upload?."exec_id" = true
  /\ processUploadResponse (VArr [earlier_upload; later_upload])
     = Returns (VArr [later_upload; earlier_upload]).
Proof.
  split; [reflexivity|]. split; [reflexivity|]. vm_compute. reflexivity.
Qed.


(** ** The direct save (claims C3 and C4) *)


Definition is_issued (e : event) : bool := match e with Issued _ _ => true | _ => false end.
Definition is_settled (e : event) : bool := match e with Settled _ _ => true | _ => false end.

Lemma collected_Some ps got vs :
  collected ps got = Some vs ->
  length vs = length ps /\ forall i v, vs !! i = Some v -> got !! i = Some v.
Proof.
  unfold collected. intros H. apply mapM_Some in H.
  split.
  - apply Forall2_length in H. by rewrite length_seq in H.
  - intros i v Hv. eapply Forall2_lookup_r in H as (j & Hj & Hg); [|exact Hv].
    apply lookup_seq in Hj as [-> _]. done.
Qed.


(** While [Promise.all] waits it sees nothing but responses. *)
Lemma all_settled_only ps outcome_of arrival got :
  Forall (fun e => is_settled e = true) (all ps outcome_of arrival got).1.1.
Proof.
  revert got. induction arrival as [|i rest IH]; intros got; simpl.
  - destruct (collected ps got); constructor.
  - destruct (collected ps got); [constructor|].
    destruct (ps !! i) as [p|]; [|apply IH].
    destruct (got !! i); [apply IH|].
    destruct (settle p (outcome_of i)); [|by repeat constructor].
    specialize (IH (<[i:=v]> got)). destruct (all ps outcome_of rest _) as [[events v'] remaining].
    by constructor.
Qed.


Lemma all_verdict_resolved ps outcome_of arrival got events vs remaining :
  all ps outcome_of arrival got = (events, AllResolved vs, remaining) ->
  forall i, i < length ps -> is_Some (got !! i) \/ In (Settled i (outcome_of i)) events.
Proof.
  revert got events. induction arrival as [|j rest IH]; intros got events; simpl.
  - destruct (collected ps got) as [vs'|] eqn:Hc; [|discriminate].
    intros [= <- <- <-] i Hi. left. apply collected_Some in Hc as [Hlen Hvs].
    destruct (lookup_lt_is_Some_2 vs' i) as [v Hv]; [lia|]. exists v. by apply Hvs.
  - destruct (collected ps got) as [vs'|] eqn:Hc.
    { intros [= <- <- <-] i Hi. left. apply collected_Some in Hc as [Hlen Hvs].
      destruct (lookup_lt_is_Some_2 vs' i) as [v Hv]; [lia|]. exists v. by apply Hvs. }
    destruct (ps !! j) as [p|] eqn:Hp; [|apply IH].
    destruct (got !! j) as [w|] eqn:Hj; [apply IH|].
    destruct (settle p (outcome_of j)) as [v|]; [|discriminate].
    destruct (all ps outcome_of rest (<[j:=v]> got)) as [[events' v'] remaining'] eqn:Hall.
    intros [= <- -> <-] i Hi.
    destruct (decide (j = i)) as [<-|Hne]; [right; by left|].
    destruct (IH _ _ Hall i Hi) as [Hs|?]; [|right; by right].
    rewrite lookup_insert_ne in Hs by done. by left.
Qed.

Lemma late_settled_only ps outcome_of arrival seen :
  Forall (fun e => is_settled e = true) (late ps outcome_of arrival seen).
Proof.
  revert seen. induction arrival as [|i rest IH]; intros seen; simpl; [constructor|].
  destruct (ps !! i); [|apply IH]. case_bool_decide; [apply IH|]. constructor; [done|apply IH].
Qed.

Definition is_saveContent (e : event) : bool :=
  match e with Emitted (saveContent _ _ _ _) => true | _ => false end.

Section Epic.

Variable S : selectors.

Lemma onError_no_saveContent error :
  Forall (fun e => is_saveContent e = false /\ is_issued e = false) (emit (onError error)).
Proof.
  unfold onError. destruct (get error "data") as [data|e]; simpl; repeat constructor.
Qed.

Lemma caught_not_issued c :
  Forall (fun e => is_issued e = false) (caught S c).
Proof.
  destruct c as [actions|e]; simpl.
  - apply Forall_fmap, Forall_forall. by intros a _.
  - eapply Forall_impl; [apply onError_no_saveContent|]. by intros e' [_ ?].
Qed.

Lemma settled_not_issued l :
  Forall (fun e => is_settled e = true) l ->
  Forall (fun e => is_saveContent e = false /\ is_issued e = false) l.
Proof. intros H. eapply Forall_impl; [exact H|]. by intros []. Qed.

(** The shape of every run: either the permissions payload is missing and
    the epic fails at once, or it announces the save, issues all its
    requests in a row, and only then sees responses and emits actions. *)
Lemma gnSaveDirectContent_shape state outcome_of arrival :
  (exists e, gnSaveDirectContent S state outcome_of arrival = [Crashed e])
  \/ exists ps rest,
       gnSaveDirectContent S state outcome_of arrival
       = Emitted savingResource :: imap (fun i p => Issued i (call p)) ps ++ rest
       /\ Forall (fun e => is_issued e = false) rest
       /\ forall pre a post,
            rest = (pre ++ a :: post)%list -> is_saveContent a = true ->
            forall i, i < length ps -> In (Settled i (outcome_of i)) pre.
Proof.
  unfold gnSaveDirectContent.
  destruct (destructure (getPermissionsPayload S state)) as [payload|e]; [|left; eauto].
  right. destruct (calls _ _) as [ps [e|]].
  - eexists ps, _. split; [reflexivity|]. split.
    + apply Forall_app. split.
      * eapply Forall_impl; [apply onError_no_saveContent|]. by intros ? [_ ?].
      * eapply Forall_impl; [apply settled_not_issued, late_settled_only|]. by intros ? [_ ?].
    + intros pre a post Heq Ha. exfalso.
      assert (Forall (fun e => is_saveContent e = false /\ is_issued e = false)
                (pre ++ a :: post)) as Hall.
      { rewrite <- Heq. apply Forall_app. split; [apply onError_no_saveContent|].
        apply settled_not_issued, late_settled_only. }
      apply Forall_app in Hall as [_ Hall]. apply Forall_cons in Hall as [[Hno _] _]. congruence.
  - destruct (all ps outcome_of arrival ∅) as [[waiting v] remaining] eqn:Hall.
    eexists ps, _. split; [reflexivity|].
    pose proof (all_settled_only ps outcome_of arrival ∅) as Hwaiting. rewrite Hall in Hwaiting.
    simpl in Hwaiting.
    pose proof (late_settled_only ps outcome_of remaining (settled_in waiting)) as Hlate.
    split.
    + apply Forall_app. split; [|apply Forall_app; split].
      * eapply Forall_impl; [apply settled_not_issued, Hwaiting|]. by intros ? [_ ?].
      * destruct v; [apply caught_not_issued| |constructor].
        eapply Forall_impl; [apply onError_no_saveContent|]. by intros ? [_ ?].
      * eapply Forall_impl; [apply settled_not_issued, Hlate|]. by intros ? [_ ?].
    + intros pre a post Heq Ha i Hi.
      assert (exists vs, v = AllResolved vs) as (vs & ->).
      { destruct v as [vs| |]; [eauto|exfalso..].
        - assert (Forall (fun e => is_saveContent e = false /\ is_issued e = false)
                    (pre ++ a :: post)) as Hno.
          { rewrite <- Heq. apply Forall_app. split; [by apply settled_not_issued|].
            apply Forall_app. split; [apply onError_no_saveContent|by apply settled_not_issued]. }
          apply Forall_app in Hno as [_ Hno]. apply Forall_cons in Hno as [[Hno _] _]. congruence.
        - assert (Forall (fun e => is_saveContent e = false /\ is_issued e = false)
                    (pre ++ a :: post)) as Hno.
          { rewrite <- Heq. apply Forall_app. split; [by apply settled_not_issued|].
            by apply settled_not_issued. }
          apply Forall_app in Hno as [_ Hno]. apply Forall_cons in Hno as [[Hno _] _]. congruence. }
      destruct (all_verdict_resolved _ _ _ _ _ _ _ Hall i Hi) as [[? Hs]|Hin];
        [by rewrite lookup_empty in Hs|].
      (* the action is not among the responses: it comes after all of them *)
      assert (exists mid, pre = (waiting ++ mid)%list) as (mid & ->); [|apply in_or_app; by left].
      clear -Heq Ha Hwaiting. revert Heq.
      generalize (caught S (onResponses S state
                    (or (mapInfoSelector S state)?."id" (getResourceId S state)) vs)
                  ++ late ps outcome_of remaining (settled_in waiting))%list.
      intros tail. revert pre.
      induction Hwaiting as [|w waiting Hw Hws IH]; intros pre Heq; [by exists pre|].
      destruct pre as [|e pre]; simpl in Heq.
      * injection Heq as <- _. destruct w; discriminate.
      * injection Heq as <- Heq. destruct (IH pre Heq) as (mid & ->). by exists mid.
Qed.

End Epic.

Lemma split_after {A} (P : A -> bool) (l1 l2 pre post : list A) a :
  Forall (fun e => P e = false) l1 -> P a = true ->
  (l1 ++ l2 = pre ++ a :: post)%list ->
  exists mid, pre = (l1 ++ mid)%list /\ l2 = (mid ++ a :: post)%list.
Proof.
  intros Hl1 Ha. revert pre. induction Hl1 as [|x l1 Hx Hl1 IH]; intros pre Heq.
  - by exists pre.
  - destruct pre as [|e pre]; simpl in Heq.
    + injection Heq as <- _. congruence.
    + injection Heq as <- Heq. destruct (IH pre Heq) as (mid & -> & ->). by exists mid.
Qed.

(** C3 (as amended): in the gnSaveDirectContent epic the fetch of the
    resource by pk and every update or deletion of geo limits are issued
    together, before any response is awaited, through [axios.all]: unless the
    epic crashes on a missing permissions payload, its trace is the
    [savingResource] action, then all the requests, then events none of which
    issues a request; and the save of the resource data, started by the
    [saveContent] action, comes only after every one of the issued requests
    has completed. *)
Theorem direct_save_requests_issued_together (S : selectors) (state : value)
    (outcome_of : nat -> outcome) (arrival : list nat) :
  (exists e, gnSaveDirectContent S state outcome_of arrival = [Crashed e])
  \/ exists issued rest,
       gnSaveDirectContent S state outcome_of arrival
       = Emitted savingResource :: (issued ++ rest)%list
       /\ Forall (fun e => is_issued e = true) issued
       /\ Forall (fun e => is_issued e = false) rest
       /\ forall pre a post,
            gnSaveDirectContent S state outcome_of arrival = (pre ++ a :: post)%list ->
            is_saveContent a = true ->
            forall i r, In (Issued i r) (gnSaveDirectContent S state outcome_of arrival) ->
                        exists o, In (Settled i o) pre.
Proof.
  destruct (gnSaveDirectContent_shape S state outcome_of arrival)
    as [?|(ps & rest & Htrace & Hrest & Hsettled)]; [by left|right].
  exists (imap (fun i p => Issued i (call p)) ps), rest.
  split; [exact Htrace|]. split; [|split; [exact Hrest|]].
  - apply Forall_forall. intros e He. apply elem_of_lookup_imap in He as (i & p & -> & _). done.
  - intros pre a post Heq Ha i r Hin. rewrite Htrace in Heq, Hin.
    assert (i < length ps) as Hi.
    { destruct Hin as [?|Hin]; [discriminate|]. apply in_app_or in Hin as [Hin|Hin].
      - apply list_elem_of_In, elem_of_lookup_imap in Hin as (j & p & [= -> _] & Hp).
        by eapply lookup_lt_Some.
      - rewrite Forall_forall in Hrest. apply list_elem_of_In, Hrest in Hin. discriminate. }
    change (Emitted savingResource :: imap (fun i p => Issued i (call p)) ps ++ rest)%list
      with ((Emitted savingResource :: imap (fun i p => Issued i (call p)) ps) ++ rest)%list
      in Heq.
    apply (split_after is_saveContent) in Heq as (mid & -> & Hmid); [|  |exact Ha].
    + exists (outcome_of i). apply in_or_app. right. by eapply Hsettled.
    + constructor; [done|]. apply Forall_forall.
      intros e He. apply elem_of_lookup_imap in He as (j & p & -> & _). done.
Qed.

(** The actions of a run, in the order of their emission. *)
Definition actions_of (trace : list event) : list action :=
  omap (fun e => match e with Emitted a => Some a | _ => None end) trace.

Lemma actions_of_app t1 t2 : actions_of (t1 ++ t2) = (actions_of t1 ++ actions_of t2)%list.
Proof. apply omap_app. Qed.

Lemma actions_of_settled t : Forall (fun e => is_settled e = true) t -> actions_of t = [].
Proof.
  induction 1 as [|e t He Ht IH]; [done|]. destruct e; try discriminate. exact IH.
Qed.

Lemma actions_of_issued_from (g : nat -> nat) ps :
  actions_of (imap (fun i p => Issued (g i) (call p)) ps) = [].
Proof.
  revert g. induction ps as [|p ps IH]; intros g; [done|].
  exact (IH (g ∘ Datatypes.S)).
Qed.

Lemma actions_of_issued ps : actions_of (imap (fun i p => Issued i (call p)) ps) = [].
Proof. exact (actions_of_issued_from (fun i => i) ps). Qed.

Lemma actions_of_emitted actions : actions_of (Emitted <$> actions) = actions.
Proof.
  unfold actions_of. induction actions as [|a actions IH]; [done|]. simpl. by f_equal.
Qed.


Definition marker (resourceId limits : value) : value :=
  object ["error" ↦ VBool true; "resourceId" ↦ resourceId; "limits" ↦ limits].

Definition geoLimitsRequest (resourceId limits : value) : request :=
  if strict_eq limits?."features"?."length" (num 0)
  then deleteGeoLimits resourceId limits?."id" limits?."type"
  else updateGeoLimits resourceId limits?."id" limits?."type"
         (object ["features" ↦ limits?."features"]).

Definition geoLimitsPromise (resourceId limits : value) : promise :=
  {| call := geoLimitsRequest resourceId limits;
     handler := Some (fun _ => marker resourceId limits) |}.

(** Geo limits as the permissions payload holds them: each with its list
    of features. *)
Definition limits_ok (limits : value) : bool :=
  negb (nullish limits) && negb (nullish limits?."features").

Lemma geoLimitsCall_ok resourceId limits :
  limits_ok limits = true ->
  geoLimitsCall resourceId limits = Returns (geoLimitsPromise resourceId limits).
Proof.
  unfold limits_ok. intros [Hl Hf]%andb_prop.
  apply negb_true_iff in Hl, Hf.
  unfold geoLimitsCall, path. cbn [foldl mbind completion_bind].
  rewrite (get_not_nullish _ _ Hl). cbn [mbind completion_bind].
  rewrite (get_not_nullish _ _ Hf). cbn [mbind completion_bind]. unfold geoLimitsPromise, geoLimitsRequest.
  by destruct (strict_eq _ _).
Qed.

Lemma geoLimitsCalls_ok resourceId limits :
  Forall (fun l => limits_ok l = true) limits ->
  geoLimitsCalls resourceId limits = (geoLimitsPromise resourceId <$> limits, None).
Proof.
  induction 1 as [|l limits Hl Hlimits IH]; [done|].
  cbn [geoLimitsCalls]. by rewrite geoLimitsCall_ok, IH.
Qed.



Definition warningNotification : value :=
  object ["title" ↦ VStr "gnviewer.warningGeoLimitsSaveTitle";
          "message" ↦ VStr "gnviewer.warningGeoLimitsSaveMessage"].



Definition sample_selectors : selectors := {|
  mapInfoSelector := fun state => state?."map"?."info";
  getResourceId := fun state => state?."gnresource"?."id";
  getPermissionsPayload := fun state =>
    object ["geoLimits" ↦ state?."gnresource"?."geoLimits"];
  getResourceName := fun state => state?."gnresource"?."data"?."title";
  getResourceDescription := fun state => state?."gnresource"?."data"?."abstract";
  message_of := fun _ => "TypeError"
|}.

Definition sample_limits : list value := [
  object ["id" ↦ num 4; "type" ↦ VStr "user";
          "features" ↦ VArr [object ["type" ↦ VStr "Feature"]]];
  object ["id" ↦ num 9; "type" ↦ VStr "group"; "features" ↦ VArr []]
].

Definition sample_state : value :=
  object ["gnresource" ↦ object ["id" ↦ num 12; "geoLimits" ↦ VArr sample_limits]].

Definition sample_resource : value :=
  object ["pk" ↦ num 12; "title" ↦ VStr "Roads"; "abstract" ↦ VStr "All the roads"].

(** The fetch succeeds, the update of the first limits is refused, the
    deletion of the second succeeds. *)
Definition sample_outcomes (i : nat) : outcome :=
  match i with
  | 0 => Resolved sample_resource
  | 1 => Rejected (object ["status" ↦ num 403])
  | _ => Resolved (VStr "")
  end.


(** What C3 states: a request starts only after the previous one has
    completed. *)
Definition started_after_previous (trace : list event) : Prop :=
  forall pre i r post,
    trace = (pre ++ Issued (Datatypes.S i) r :: post)%list -> exists o, In (Settled i o) pre.

(** C3 fails as stated: the update of the geo limits is issued right after
    the fetch of the resource, before any response. *)
Lemma direct_save_not_sequential :
  gnSaveDirectContent sample_selectors sample_state sample_outcomes [2; 0; 1]
  = [Emitted savingResource;
     Issued 0 (getResourceByPk (num 12));
     Issued 1 (updateGeoLimits (num 12) (num 4) (VStr "user")
                 (object ["features" ↦ VArr [object ["type" ↦ VStr "Feature"]]]));
     Issued 2 (deleteGeoLimits (num 12) (num 9) (VStr "group"));
     Settled 2 (Resolved (VStr ""));
     Settled 0 (Resolved sample_resource);
     Settled 1 (Rejected (object ["status" ↦ num 403]));
     Emitted (saveContent (num 12)
                (object ["name" ↦ VStr "Roads"; "description" ↦ VStr "All the roads";
                         "extension" ↦ VUndef; "href" ↦ VUndef])
                (VBool false) warningNotification);
     Emitted resetGeoLimits]
  /\ ~ started_after_previous
         (gnSaveDirectContent sample_selectors sample_state sample_outcomes [2; 0; 1]).
Proof.
  assert (gnSaveDirectContent sample_selectors sample_state sample_outcomes [2; 0; 1]
          = [Emitted savingResource;
             Issued 0 (getResourceByPk (num 12));
             Issued 1 (updateGeoLimits (num 12) (num 4) (VStr "user")
                         (object ["features" ↦ VArr [object ["type" ↦ VStr "Feature"]]]));
             Issued 2 (deleteGeoLimits (num 12) (num 9) (VStr "group"));
             Settled 2 (Resolved (VStr ""));
             Settled 0 (Resolved sample_resource);
             Settled 1 (Rejected (object ["status" ↦ num 403]));
             Emitted (saveContent (num 12)
                        (object ["name" ↦ VStr "Roads"; "description" ↦ VStr "All the roads";
                                 "extension" ↦ VUndef; "href" ↦ VUndef])
                        (VBool false) warningNotification);
             Emitted resetGeoLimits]) as Htrace by (vm_compute; reflexivity).
  split; [exact Htrace|].
  rewrite Htrace. intros H.
  destruct (H [Emitted savingResource; Issued 0 (getResourceByPk (num 12))] 0 _ _ eq_refl)
    as (o & [Ho|[Ho|[]]]); discriminate Ho.
Qed.

(** ** The compact catalog (claim C7) *)

Import Catalog.

(** The state after the setter calls of one handler or effect. *)
Definition run (s : state) (updates : list update) : state := foldl apply s updates.

(** The guard of [updateRequest]. *)
Definition may_request (p : props) (s : state) : bool := negb (loading s) && request p.

Lemma updateRequest_issued p s n reset r :
  snd (updateRequest p s n reset) = Some r ->
  may_request p s = true
  /\ r = {| argument := object [Spread (params p); "q" ↦ q s;
                                  "page" ↦ page_number n; "pageSize" ↦ pageSize p];
            requested_page := n;
            captured_entries := entries s |}
  /\ loading (run s (fst (updateRequest p s n reset))) = true.
Proof.
  unfold updateRequest, may_request. destruct (negb (loading s) && request p); [|discriminate].
  simpl. intros [= <-]. split; [done|]. split; [done|].
  by destruct (scrollContainer p && reset).
Qed.

Lemma updateRequest_refused p s n reset :
  may_request p s = false -> updateRequest p s n reset = ([], None).
Proof. unfold updateRequest, may_request. by intros ->. Qed.

Lemma updateRequest_accepted p s n reset :
  may_request p s = true -> exists r, snd (updateRequest p s n reset) = Some r.
Proof. unfold updateRequest, may_request. intros ->. eauto. Qed.

Lemma run_page_updateRequest p s n reset :
  page (run s (fst (updateRequest p s n reset))) = page s.
Proof.
  unfold updateRequest. destruct (negb (loading s) && request p); [|done].
  by destruct (scrollContainer p && reset).
Qed.

(** The catalog as the client mounts it, with the default
    [responseToEntries]. *)
Definition sample_catalog : props := {|
  request := true;
  responseToEntries := fun res => get res "resources";
  pageSize := num 10;
  params := object ["f" ↦ VStr "dataset"];
  scrollContainer := true
|}.

Definition first_page : value :=
  object ["resources" ↦ VArr [object ["pk" ↦ num 1]; object ["pk" ↦ num 2]];
          "isNextPageAvailable" ↦ VBool true].

Definition second_page : value :=
  object ["resources" ↦ VArr [object ["pk" ↦ num 3]];
          "isNextPageAvailable" ↦ VBool false].

(** A render in which the request for ["ro"] is still loading and the
    query has just changed to ["road"]. *)
Definition busy : state :=
  {| entries := VArr []; loading := true; page := 1;
     isNextPageAvailable := VBool false; q := VStr "road" |}.

(** C7 (as amended): the catalog is searchable with paging.  In
    ResourcesCompactCatalog every change of the query string [q] resets the
    page to 1; a request is issued, by that change as by the load of a
    subsequent page, only when the component is given a [request] function
    and no request is loading, and a change of [q] while a request is loading
    issues none.  A request carries the current [q], the page and the page
    size and sets [loading]; its results replace the entries list when the
    requested page is 1, and are appended after the entries of the render
    that issued the request otherwise, and [loading] is reset. *)
Theorem catalog_search_and_paging (p : props) (s : state) :
  page (run s (fst (queryEffect p s))) = 1
  /\ (forall n reset r,
        snd (updateRequest p s n reset) = Some r ->
        loading s = false /\ request p = true
        /\ (argument r)?."q" = q s
        /\ (argument r)?."page" = page_number n
        /\ (argument r)?."pageSize" = pageSize p
        /\ requested_page r = n
        /\ captured_entries r = entries s
        /\ loading (run s (fst (updateRequest p s n reset))) = true)
  /\ (may_request p s = true ->
        (exists r, snd (queryEffect p s) = Some r /\ requested_page r = 1)
        /\ (1 < page s ->
            exists r, snd (pageEffect p s) = Some r
                      /\ requested_page r = page s /\ captured_entries r = entries s))
  /\ (may_request p s = false ->
        queryEffect p s = ([setPage 1], None) /\ pageEffect p s = ([], None))
  /\ (page s <= 1 -> pageEffect p s = ([], None))
  /\ (forall r s' response newEntries next,
        responseToEntries p response = Returns newEntries ->
        get response "isNextPageAvailable" = Returns next ->
        (requested_page r = 1 ->
         run s' (onResponse p r true response)
         = {| entries := newEntries; loading := false; page := page s';
              isNextPageAvailable := next; q := q s' |})
        /\ (forall old new,
              requested_page r <> 1 ->
              captured_entries r = VArr old -> newEntries = VArr new ->
              run s' (onResponse p r true response)
              = {| entries := VArr (old ++ new); loading := false; page := page s';
                   isNextPageAvailable := next; q := q s' |})).
Proof.
  split; [|split; [|split; [|split; [|split]]]].
  - unfold queryEffect. destruct (updateRequest p s 1 true) as [updates issued] eqn:Heq.
    change updates with (fst (updates, issued)). rewrite <- Heq. cbn [fst run foldl].
    exact (run_page_updateRequest p (apply s (setPage 1)) 1 true).
  - intros n reset r Hr. destruct (updateRequest_issued p s n reset r Hr) as (Hg & -> & Hl).
    apply andb_prop in Hg as [Hg ?]. apply negb_true_iff in Hg.
    cbn [argument requested_page captured_entries]. rewrite !field_object. done.
  - intros Hg. split.
    + destruct (updateRequest_accepted p s 1 true Hg) as (r & Hr).
      destruct (updateRequest_issued p s 1 true r Hr) as (_ & Hr' & _).
      exists r. split; [|by rewrite Hr'].
      unfold queryEffect. by destruct (updateRequest p s 1 true) as [updates issued].
    + intros Hpage. destruct (updateRequest_accepted p s (page s) false Hg) as (r & Hr).
      destruct (updateRequest_issued p s (page s) false r Hr) as (_ & Hr' & _).
      exists r. unfold pageEffect. apply Nat.ltb_lt in Hpage. rewrite Hpage.
      split; [done|]. by rewrite Hr'.
  - intros Hg. unfold queryEffect, pageEffect. rewrite !updateRequest_refused by done.
    by destruct (1 <? page s)%nat.
  - intros Hpage. unfold pageEffect. apply Nat.ltb_ge in Hpage. by rewrite Hpage.
  - intros r s' response newEntries next Hentries Hnext. unfold onResponse.
    rewrite Hentries, Hnext. split.
    + intros ->. done.
    + intros old new Hr -> ->. apply Nat.eqb_neq in Hr. rewrite Hr. done.
Qed.

(** One session: the first search, its response, the scroll to the end of
    the list, the request of the second page, and its response. *)
Example catalog_session :
  exists r1 r2 s1 s2 s3 s4,
    queryEffect sample_catalog initial = ([setPage 1; scrollTop0; setLoading true], Some r1)
    /\ s1 = run initial (fst (queryEffect sample_catalog initial))
    /\ loading s1 = true
    /\ pageEffect sample_catalog s1 = ([], None)
    /\ s2 = run s1 (onResponse sample_catalog r1 true first_page)
    /\ entries s2 = VArr [object ["pk" ↦ num 1]; object ["pk" ↦ num 2]]
    /\ shouldScroll s2 = true
    /\ s3 = run s2 (onLoad s2)
    /\ pageEffect sample_catalog s3 = ([setLoading true], Some r2)
    /\ (argument r2)?."page" = num 2
    /\ s4 = run (run s3 (fst (pageEffect sample_catalog s3)))
              (onResponse sample_catalog r2 true second_page)
    /\ entries s4
       = VArr [object ["pk" ↦ num 1]; object ["pk" ↦ num 2]; object ["pk" ↦ num 3]]
    /\ loading s4 = false
    /\ shouldScroll s4 = false.
Proof.
  do 6 eexists. repeat split; try reflexivity; vm_compute; reflexivity.
Qed.

(** C7 fails as stated: a change of the query while a request is loading
    resets the page and issues no request. *)
Lemma query_change_while_loading :
  loading busy = true /\ queryEffect sample_catalog busy = ([setPage 1], None).
Proof. split; reflexivity. Qed.

(* ===================================================================== *)
(** * Further properties of the utilities *)
(* ===================================================================== *)

(** ** Lists and objects *)

Lemma truthy_and a b : truthy (and a b) = truthy a && truthy b.
Proof. unfold and. destruct (truthy a) eqn:Ha; [done|]. by rewrite Ha. Qed.

Lemma nullish_object ms : nullish (object ms) = false.
Proof. apply truthy_not_nullish, truthy_object. Qed.

Lemma destructure_object ms : destructure (object ms) = Returns (object ms).
Proof. unfold destructure. by rewrite nullish_object. Qed.

Lemma filter_fmap {A B} (f : A -> B) (p : B -> bool) (l : list A) :
  List.filter p (f <$> l) = f <$> List.filter (fun x => p (f x)) l.
Proof.
  induction l as [|x l IH]; [done|]. cbn. destruct (p (f x)); cbn; by rewrite IH.
Qed.

Lemma filter_none {A} (p : A -> bool) (l : list A) :
  (forall x, In x l -> p x = false) -> List.filter p l = [].
Proof.
  induction l as [|x l IH]; intros H; [done|]. cbn.
  rewrite (H x) by (by left). apply IH. intros. apply H. by right.
Qed.

Lemma fmap_ext_in {A B} (f g : A -> B) (l : list A) :
  (forall x, In x l -> f x = g x) -> f <$> l = g <$> l.
Proof.
  induction l as [|x l IH]; intros H; [done|]. cbn.
  rewrite (H x) by (by left). f_equal. apply IH. intros. apply H. by right.
Qed.

Lemma fmap_id_in {A} (f : A -> A) (l : list A) :
  (forall x, In x l -> f x = x) -> f <$> l = l.
Proof.
  induction l as [|x l IH]; intros H; [done|]. cbn.
  rewrite (H x) by (by left). f_equal. apply IH. intros. apply H. by right.
Qed.

Lemma In_fmap {A B} (f : A -> B) (l : list A) y :
  In y (f <$> l) -> exists x, In x l /\ y = f x.
Proof.
  induction l as [|x l IH]; [done|]. intros [<-|H].
  - exists x. split; [by left|done].
  - destruct (IH H) as (x' & ? & ?). exists x'. split; [by right|done].
Qed.

(** ** Permissions: from the compact form to the lists and back *)

(** The entry of the lists that a parsed entry of the compact form
    becomes. *)
Definition listEntry (t : string) (entry : value) : value :=
  object [Spread entry; "type" ↦ VStr t; Spread (VBool false)].

Definition permitted (entry : value) : bool := truthy entry?."permissions".

Lemma toListEntry_parsed t name avatar e :
  truthy e?."parsed" = true -> toListEntry t name avatar e = Returns (listEntry t e).
Proof.
  intros Hp. unfold toListEntry.
  assert (nullish e = false) as Hn by (by destruct e).
  rewrite (get_not_nullish _ _ Hn). cbn [mbind completion_bind].
  unfold not. rewrite Hp. done.
Qed.

Lemma listEntry_own t e k : k <> "type" -> own (listEntry t e) !! k = own e !! k.
Proof.
  intros Hk. unfold listEntry. rewrite own_object_lookup. simpl.
  case_decide; [congruence|]. by destruct (own e !! k).
Qed.

Lemma listEntry_field t e k :
  k <> "type" -> k <> "length" -> nullish e = false -> (listEntry t e)?.k = e?.k.
Proof.
  intros Hk Hl Hn. rewrite (field_own (listEntry t e)), (field_own e) by done.
  by rewrite listEntry_own.
Qed.

Lemma listEntry_type t e : (listEntry t e)?."type" = VStr t.
Proof. unfold listEntry. by rewrite field_object. Qed.

Lemma listEntry_omit t e : omit (listEntry t e) "type" = omit e "type".
Proof.
  unfold omit. f_equal. apply map_eq. intros k.
  destruct (decide (k = "type")) as [->|Hk].
  - by rewrite !lookup_delete_eq.
  - rewrite !lookup_delete_ne by done. by apply listEntry_own.
Qed.

Lemma listEntry_truthy t e : truthy (listEntry t e) = true.
Proof. apply truthy_object. Qed.

Lemma toListEntries t name avatar l :
  Forall (fun e => truthy e?."parsed" = true) l ->
  mapM (toListEntry t name avatar) l = Returns (listEntry t <$> l).
Proof.
  intros H. apply mapM_pure. intros x Hx. apply toListEntry_parsed.
  rewrite Forall_forall in H. by apply H, list_elem_of_In.
Qed.

Lemma withoutType_entries t l :
  mapM withoutType (listEntry t <$> l) = Returns ((fun e => omit e "type") <$> l).
Proof.
  rewrite (mapM_pure withoutType (fun e => omit e "type")).
  - f_equal. rewrite <- list_fmap_compose. apply fmap_ext_in. intros x _. apply listEntry_omit.
  - intros x (e & _ & ->)%In_fmap. unfold withoutType, listEntry. by rewrite destructure_object.
Qed.

Lemma hasPermissions_entries t l :
  Forall (fun e => nullish e = false) l ->
  filter_c hasPermissions (listEntry t <$> l) = Returns (listEntry t <$> List.filter permitted l).
Proof.
  intros Hl. rewrite (filter_c_pure hasPermissions permitted).
  - f_equal. rewrite filter_fmap. f_equal. apply filter_ext_in. intros x Hx.
    unfold permitted. rewrite listEntry_field; [done..|].
    rewrite Forall_forall in Hl. by apply Hl, list_elem_of_In.
  - intros x (e & _ & ->)%In_fmap. unfold hasPermissions, listEntry. by rewrite destructure_object.
Qed.

Lemma hasPermissionsAs_entries t t' l :
  Forall (fun e => nullish e = false) l ->
  filter_c (hasPermissionsAs t) (listEntry t' <$> l)
  = Returns (if String.eqb t' t then listEntry t' <$> List.filter permitted l else []).
Proof.
  intros Hl.
  rewrite (filter_c_pure (hasPermissionsAs t)
             (fun x => truthy x?."permissions" && is_str x?."type" t)).
  - f_equal. rewrite filter_fmap. destruct (String.eqb_spec t' t) as [->|Hne].
    + f_equal. apply filter_ext_in. intros x Hx. rewrite listEntry_type.
      unfold is_str, permitted. cbn [strict_eq]. rewrite String.eqb_refl, andb_true_r.
      rewrite listEntry_field; [done..|].
      rewrite Forall_forall in Hl. by apply Hl, list_elem_of_In.
    + rewrite filter_none; [done|]. intros x _. rewrite listEntry_type.
      unfold is_str. cbn [strict_eq]. apply String.eqb_neq in Hne. rewrite Hne.
      apply andb_false_r.
  - intros x (e & _ & ->)%In_fmap. unfold hasPermissionsAs, listEntry.
    rewrite destructure_object. cbn [mbind completion_bind mret completion_ret].
    by rewrite truthy_and.
Qed.

Lemma filter_c_app (p : value -> completion bool) l1 l2 r1 r2 :
  filter_c p l1 = Returns r1 -> filter_c p l2 = Returns r2 ->
  filter_c p (l1 ++ l2)%list = Returns (r1 ++ r2)%list.
Proof.
  revert r1. induction l1 as [|x l1 IH]; intros r1 H1 H2.
  - injection H1 as <-. done.
  - cbn [filter_c app] in *. change ((x :: l1) ++ l2)%list with (x :: (l1 ++ l2))%list. cbn [filter_c].
    destruct (p x) as [b|]; [|discriminate]. cbn [mbind completion_bind] in *.
    destruct (filter_c p l1) as [r|]; [|discriminate]. cbn [mbind completion_bind] in *.
    injection H1 as <-. rewrite (IH r eq_refl H2). cbn. by destruct b.
Qed.

Definition parsed_lists (groups users organizations : list value) : value :=
  object ["groups" ↦ VArr (listEntry "group" <$> groups);
          "entries" ↦ VArr ((listEntry "user" <$> users)
                            ++ (listEntry "group" <$> organizations))].

Definition compact_of (groups users organizations : list value) : value :=
  object ["groups" ↦ VArr groups; "organizations" ↦ VArr organizations;
          "users" ↦ VArr users].

Lemma parsed_truthy l :
  Forall (fun e => truthy e?."parsed" = true) l -> Forall (fun e => nullish e = false) l.
Proof. intros H. eapply Forall_impl; [exact H|]. intros e He. by destruct e. Qed.

Lemma permissionsCompactToLists_parsed compact groups users organizations :
  nullish compact = false ->
  or compact?."groups" (VArr []) = VArr groups ->
  or compact?."users" (VArr []) = VArr users ->
  or compact?."organizations" (VArr []) = VArr organizations ->
  Forall (fun e => truthy e?."parsed" = true) (groups ++ users ++ organizations) ->
  permissionsCompactToLists compact = Returns (parsed_lists groups users organizations).
Proof.
  intros Hn Hg Hu Ho Hall.
  apply Forall_app in Hall as [Hgs Hall]. apply Forall_app in Hall as [Hus Hos].
  unfold permissionsCompactToLists, destructure. rewrite Hn. cbn [mbind completion_bind].
  rewrite Hg, Hu, Ho. cbn [array mbind completion_bind].
  rewrite !toListEntries by done. done.
Qed.

Lemma permissionsListsToCompact_parsed groups users organizations :
  Forall (fun e => nullish e = false) (groups ++ users ++ organizations) ->
  permissionsListsToCompact (parsed_lists groups users organizations)
  = Returns (compact_of ((fun e => omit e "type") <$> List.filter permitted groups)
                        ((fun e => omit e "type") <$> List.filter permitted users)
                        ((fun e => omit e "type") <$> List.filter permitted organizations)).
Proof.
  intros Hall.
  apply Forall_app in Hall as [Hgs Hall]. apply Forall_app in Hall as [Hus Hos].
  unfold permissionsListsToCompact, parsed_lists. rewrite destructure_object.
  cbn [mbind completion_bind]. rewrite !field_object. simpl rev. simpl resolve.
  cbn [default from_option id array mbind completion_bind].
  rewrite hasPermissions_entries by done. cbn [mbind completion_bind].
  rewrite withoutType_entries. cbn [mbind completion_bind].
  rewrite (filter_c_app (hasPermissionsAs "group") _ _ []
             (listEntry "group" <$> List.filter permitted organizations));
    [|by rewrite (hasPermissionsAs_entries "group" "user")
      |by rewrite (hasPermissionsAs_entries "group" "group")].
  cbn [app mbind completion_bind]. rewrite withoutType_entries. cbn [mbind completion_bind].
  rewrite (filter_c_app (hasPermissionsAs "user") _ _
             (listEntry "user" <$> List.filter permitted users) []);
    [|by rewrite (hasPermissionsAs_entries "user" "user")
      |by rewrite (hasPermissionsAs_entries "user" "group")].
  rewrite app_nil_r. cbn [mbind completion_bind]. rewrite withoutType_entries. done.
Qed.

Lemma omit_absent e k : is_object e = true -> own e !! k = None -> omit e k = e.
Proof.
  destruct e as [| | | | | |m]; try discriminate. intros _ Hk. unfold omit. cbn [own] in *.
  by rewrite delete_id.
Qed.

(** The entries the round trip gives back as they were: objects with
    permissions, already parsed, that do not carry a [type]. *)
Definition plain_entry (e : value) : bool :=
  is_object e && truthy e?."parsed" && permitted e && bool_decide (own e !! "type" = None).

(** X1: the compact form of the permissions survives the round trip through
    the lists.  On parsed entries, [permissionsListsToCompact] applied to the
    result of [permissionsCompactToLists] gives back the groups, the users
    and the organizations, each in its own list and in its order, without the
    entries that have no permissions and without the [type] the lists have
    given them; entries that have permissions and no [type] come back as
    they were. *)
Theorem permissions_compact_round_trip (compact : value)
    (groups users organizations : list value) :
  nullish compact = false ->
  or compact?."groups" (VArr []) = VArr groups ->
  or compact?."users" (VArr []) = VArr users ->
  or compact?."organizations" (VArr []) = VArr organizations ->
  Forall (fun e => truthy e?."parsed" = true) (groups ++ users ++ organizations) ->
  exists lists,
    permissionsCompactToLists compact = Returns lists
    /\ permissionsListsToCompact lists
       = Returns (compact_of ((fun e => omit e "type") <$> List.filter permitted groups)
                             ((fun e => omit e "type") <$> List.filter permitted users)
                             ((fun e => omit e "type") <$> List.filter permitted organizations))
    /\ (Forall (fun e => plain_entry e = true) (groups ++ users ++ organizations) ->
        permissionsListsToCompact lists = Returns (compact_of groups users organizations)).
Proof.
  intros Hn Hg Hu Ho Hall. exists (parsed_lists groups users organizations).
  split; [by apply permissionsCompactToLists_parsed|].
  pose proof (permissionsListsToCompact_parsed groups users organizations
                (parsed_truthy _ Hall)) as Hback.
  split; [exact Hback|].
  intros Hplain. rewrite Hback. clear Hback.
  assert (forall l, Forall (fun e => plain_entry e = true) l ->
            (fun e => omit e "type") <$> List.filter permitted l = l) as Hsame.
  { intros l Hl. rewrite filter_all.
    - apply fmap_id_in. intros x Hx. rewrite Forall_forall in Hl.
      apply list_elem_of_In, Hl in Hx. unfold plain_entry in Hx.
      apply andb_prop in Hx as [[[Hobj _]%andb_prop _]%andb_prop Ht].
      apply bool_decide_eq_true in Ht. by apply omit_absent.
    - intros x Hx. rewrite Forall_forall in Hl.
      apply list_elem_of_In, Hl in Hx. unfold plain_entry in Hx.
      by apply andb_prop in Hx as [[_ ?]%andb_prop _]. }
  apply Forall_app in Hplain as [Hgs Hplain]. apply Forall_app in Hplain as [Hus Hos].
  by rewrite !Hsame.
Qed.

Definition sample_compact : value :=
  object [
    "groups" ↦ VArr [object ["id" ↦ num 1; "name" ↦ VStr "anonymous";
                             "permissions" ↦ VStr "view"; "parsed" ↦ VBool true]];
    "users" ↦ VArr [object ["id" ↦ num 7; "name" ↦ VStr "ada"; "permissions" ↦ VStr "manage";
                            "parsed" ↦ VBool true];
                    object ["id" ↦ num 8; "name" ↦ VStr "bob"; "parsed" ↦ VBool true]];
    "organizations" ↦ VArr [object ["id" ↦ num 3; "name" ↦ VStr "surveyors";
                                    "permissions" ↦ VStr "edit"; "type" ↦ VStr "group";
                                    "parsed" ↦ VBool true]]
  ].

Lemma permissions_compact_round_trip_witness :
  exists lists,
    permissionsCompactToLists sample_compact = Returns lists
    /\ permissionsListsToCompact lists
       = Returns (object [
           "groups" ↦ VArr [object ["id" ↦ num 1; "name" ↦ VStr "anonymous";
                                    "permissions" ↦ VStr "view"; "parsed" ↦ VBool true]];
           "organizations" ↦ VArr [object ["id" ↦ num 3; "name" ↦ VStr "surveyors";
                                           "permissions" ↦ VStr "edit"; "parsed" ↦ VBool true]];
           "users" ↦ VArr [object ["id" ↦ num 7; "name" ↦ VStr "ada";
                                   "permissions" ↦ VStr "manage"; "parsed" ↦ VBool true]]
         ]).
Proof.
  destruct (permissions_compact_round_trip sample_compact
              [object ["id" ↦ num 1; "name" ↦ VStr "anonymous";
                       "permissions" ↦ VStr "view"; "parsed" ↦ VBool true]]
              [object ["id" ↦ num 7; "name" ↦ VStr "ada"; "permissions" ↦ VStr "manage";
                       "parsed" ↦ VBool true];
               object ["id" ↦ num 8; "name" ↦ VStr "bob"; "parsed" ↦ VBool true]]
              [object ["id" ↦ num 3; "name" ↦ VStr "surveyors";
                       "permissions" ↦ VStr "edit"; "type" ↦ VStr "group";
                       "parsed" ↦ VBool true]])
    as (lists & Hto & Hback & _).
  - reflexivity.
  - vm_compute. reflexivity.
  - vm_compute. reflexivity.
  - vm_compute. reflexivity.
  - repeat constructor.
  - exists lists. split; [exact Hto|]. rewrite Hback. vm_compute. reflexivity.
Defined.

(** ** Permission entries *)

#[local] Transparent object.

Lemma object_own ms : object ms = VObj (own (object ms)).
Proof. reflexivity. Qed.

#[local] Opaque object.

Lemma listEntry_typed t e :
  is_object e = true -> own e !! "type" = Some (VStr t) -> listEntry t e = e.
Proof.
  destruct e as [| | | | | |m]; try discriminate. intros _ Ht.
  unfold listEntry. rewrite object_own. f_equal. apply map_eq. intros k.
  rewrite own_object_lookup. simpl. case_decide as Hk.
  - by subst k.
  - by destruct (m !! k).
Qed.

Lemma mapM_Returns_In {A B} (f : A -> completion B) l r y :
  mapM f l = Returns r -> In y r -> exists x, In x l /\ f x = Returns y.
Proof.
  revert r. induction l as [|x l IH]; intros r H Hy.
  - injection H as <-. destruct Hy.
  - cbn in H. destruct (f x) as [b|] eqn:Hx; [|discriminate]. cbn in H.
    destruct (mapM f l) as [r'|]; [|discriminate]. cbn in H. injection H as <-.
    destruct Hy as [<-|Hy].
    + exists x. split; [by left|done].
    + destruct (IH r' eq_refl Hy) as (x' & ? & ?). exists x'. split; [by right|done].
Qed.

Lemma mapM_Returns_length {A B} (f : A -> completion B) l r :
  mapM f l = Returns r -> length r = length l.
Proof.
  revert r. induction l as [|x l IH]; intros r H.
  - by injection H as <-.
  - cbn in H. destruct (f x) as [b|]; [|discriminate]. cbn in H.
    destruct (mapM f l) as [r'|]; [|discriminate]. cbn in H. injection H as <-.
    cbn. f_equal. by apply IH.
Qed.

(** The type that [resourceToPermissionEntry] gives an entry. *)
Definition entryType (type : value) : string :=
  if is_str type "user" then "user" else "group".

Lemma resourceToPermissionEntry_Returns type resource e :
  resourceToPermissionEntry type resource = Returns e ->
  nullish resource = false
  /\ is_object e = true
  /\ own e !! "type" = Some (VStr (entryType type))
  /\ e?."parsed" = VBool true
  /\ e?."permissions" = resource?."permissions"
  /\ e?."id" = or resource?."id"
                  (if is_str type "user" then resource?."pk" else resource?."group"?."pk").
Proof.
  unfold resourceToPermissionEntry, entryType. destruct (is_str type "user").
  - destruct (get resource "id") as [id|] eqn:Hid; [|discriminate].
    apply get_Returns in Hid as [Hn ->]. cbn [mbind completion_bind mret completion_ret].
    intros [= <-]. rewrite own_object_lookup, !field_object. done.
  - destruct (get resource "id") as [id|] eqn:Hid; [|discriminate].
    apply get_Returns in Hid as [Hn ->]. cbn [mbind completion_bind mret completion_ret].
    intros [= <-]. rewrite own_object_lookup, !field_object. done.
Qed.

(** X2: the entries that [resourceToPermissionEntry] builds are parsed, and
    [permissionsCompactToLists] leaves them as they are: a compact form whose
    groups and organizations were built as groups and whose users were built
    as users becomes the lists of these very entries, the users before the
    organizations. *)
Theorem parsed_entries_are_listed_unchanged
    (type : value) (gs us os groups users organizations : list value) :
  is_str type "user" = false ->
  mapM (resourceToPermissionEntry type) gs = Returns groups ->
  mapM (resourceToPermissionEntry (VStr "user")) us = Returns users ->
  mapM (resourceToPermissionEntry type) os = Returns organizations ->
  permissionsCompactToLists (compact_of groups users organizations)
  = Returns (object ["groups" ↦ VArr groups; "entries" ↦ VArr (users ++ organizations)]).
Proof.
  intros Htype Hgs Hus Hos.
  assert (forall t l r,
            mapM (resourceToPermissionEntry t) l = Returns r ->
            Forall (fun e => truthy e?."parsed" = true) r
            /\ listEntry (entryType t) <$> r = r) as Hbuilt.
  { intros t l r Hr. split.
    - apply Forall_forall. intros e He%list_elem_of_In.
      destruct (mapM_Returns_In _ _ _ _ Hr He) as (x & _ & Hx).
      apply resourceToPermissionEntry_Returns in Hx as (_ & _ & _ & -> & _). done.
    - apply fmap_id_in. intros e He.
      destruct (mapM_Returns_In _ _ _ _ Hr He) as (x & _ & Hx).
      apply resourceToPermissionEntry_Returns in Hx as (_ & Hobj & Ht & _).
      by apply listEntry_typed. }
  destruct (Hbuilt _ _ _ Hgs) as [Hpg Hg], (Hbuilt _ _ _ Hus) as [Hpu Hu],
    (Hbuilt _ _ _ Hos) as [Hpo Ho].
  unfold entryType in Hg, Hu, Ho. rewrite Htype in Hg, Ho. cbn in Hu.
  rewrite (permissionsCompactToLists_parsed _ groups users organizations).
  - unfold parsed_lists. by rewrite Hg, Hu, Ho.
  - apply nullish_object.
  - unfold compact_of. by rewrite field_object.
  - unfold compact_of. by rewrite field_object.
  - unfold compact_of. by rewrite field_object.
  - by rewrite !Forall_app.
Qed.

Lemma parsed_entries_are_listed_unchanged_witness :
  permissionsCompactToLists
    (compact_of
       [object ["type" ↦ VStr "group"; "id" ↦ num 2; "name" ↦ VStr "registered";
                "avatar" ↦ VUndef; "permissions" ↦ VStr "view"; "parsed" ↦ VBool true]]
       [object ["type" ↦ VStr "user"; "id" ↦ num 7; "avatar" ↦ VStr "/ada.png";
                "name" ↦ VStr "ada"; "permissions" ↦ VStr "manage"; "parsed" ↦ VBool true]]
       [])
  = Returns (object [
      "groups" ↦ VArr [object ["type" ↦ VStr "group"; "id" ↦ num 2;
                               "name" ↦ VStr "registered"; "avatar" ↦ VUndef;
                               "permissions" ↦ VStr "view"; "parsed" ↦ VBool true]];
      "entries" ↦ VArr [object ["type" ↦ VStr "user"; "id" ↦ num 7;
                                "avatar" ↦ VStr "/ada.png"; "name" ↦ VStr "ada";
                                "permissions" ↦ VStr "manage"; "parsed" ↦ VBool true]]
    ]).
Proof.
  apply (parsed_entries_are_listed_unchanged (VStr "group")
           [object ["group" ↦ object ["pk" ↦ num 2]; "title" ↦ VStr "registered";
                    "permissions" ↦ VStr "view"]]
           [object ["pk" ↦ num 7; "username" ↦ VStr "ada"; "avatar" ↦ VStr "/ada.png";
                    "permissions" ↦ VStr "manage"]]
           []).
  - reflexivity.
  - vm_compute. reflexivity.
  - vm_compute. reflexivity.
  - reflexivity.
Defined.

(** ** Geo limits of the compact permissions *)

Definition geoLimitsOf (t : string) (entry : value) : value :=
  object ["id" ↦ entry?."id"; "features" ↦ entry?."features"; "type" ↦ VStr t].

Definition geoLimitsChanged (entry : value) : bool := truthy entry?."isGeoLimitsChanged".

Lemma geoLimitsChanged_entries l :
  Forall (fun e => nullish e = false) l ->
  filter_c isGeoLimitsChanged l = Returns (List.filter geoLimitsChanged l).
Proof.
  intros Hl. apply filter_c_pure. intros x Hx%list_elem_of_In.
  rewrite Forall_forall in Hl. unfold isGeoLimitsChanged, destructure. by rewrite (Hl x Hx).
Qed.

Lemma toGeoLimits_entries t l :
  Forall (fun e => nullish e = false) l ->
  mapM (toGeoLimits t) l = Returns (geoLimitsOf t <$> l).
Proof.
  intros Hl. apply mapM_pure. intros x Hx%list_elem_of_In.
  rewrite Forall_forall in Hl. unfold toGeoLimits, destructure. by rewrite (Hl x Hx).
Qed.

(** X3: [getGeoLimitsFromCompactPermissions] yields one entry for each
    user, group and organization whose geo limits have changed, and none for
    the others: first the users, with type ['user'], then the groups and the
    organizations, with type ['group'], each with the [id] and the
    [features] of its entry and nothing else.  When every changed entry has
    its list of features, every entry of the result can be sent by the
    direct save. *)
Theorem geo_limits_of_changed_entries (compact : value)
    (groups users organizations : list value) :
  nullish compact = false ->
  defaulted compact?."groups" (VArr []) = VArr groups ->
  defaulted compact?."users" (VArr []) = VArr users ->
  defaulted compact?."organizations" (VArr []) = VArr organizations ->
  Forall (fun e => nullish e = false) (users ++ groups ++ organizations) ->
  let out := ((geoLimitsOf "user" <$> List.filter geoLimitsChanged users)
              ++ (geoLimitsOf "group" <$> List.filter geoLimitsChanged (groups ++ organizations)))%list in
  getGeoLimitsFromCompactPermissions compact = Returns (VArr out)
  /\ length out = length (List.filter geoLimitsChanged (users ++ groups ++ organizations))
  /\ (forall o, In o out ->
        dom (own o) = {["id"; "features"; "type"]}
        /\ (o?."type" = VStr "user" \/ o?."type" = VStr "group"))
  /\ (Forall (fun e => geoLimitsChanged e = true -> nullish e?."features" = false)
        (users ++ groups ++ organizations) ->
      Forall (fun limits => limits_ok limits = true) out).
Proof.
  intros Hn Hg Hu Ho Hall out.
  pose proof Hall as Hall'.
  apply Forall_app in Hall' as [Hus Hgos].
  split; [|split; [|split]].
  - unfold getGeoLimitsFromCompactPermissions, destructure. rewrite Hn.
    cbn [mbind completion_bind]. rewrite Hg, Hu, Ho. cbn [array iterate mbind completion_bind].
    rewrite geoLimitsChanged_entries by done. cbn [mbind completion_bind].
    rewrite toGeoLimits_entries by (by apply Forall_filter). cbn [mbind completion_bind].
    rewrite geoLimitsChanged_entries by done. cbn [mbind completion_bind].
    rewrite toGeoLimits_entries by (by apply Forall_filter). done.
  - subst out. rewrite length_app, !length_fmap, (List.filter_app _ users), length_app. done.
  - intros o Ho'. assert (exists t e, (t = "user" \/ t = "group") /\ o = geoLimitsOf t e)
      as (t & e & Ht & ->).
    { subst out. apply in_app_or in Ho' as [Ho'|Ho']; apply In_fmap in Ho' as (e & _ & ->);
        eauto 6. }
    split.
    + unfold geoLimitsOf. rewrite object_own. cbn [own].
      apply set_eq. intros k. rewrite elem_of_dom, own_object_lookup. simpl.
      rewrite !elem_of_union, !elem_of_singleton. unfold is_Some.
      repeat case_decide; subst; split; intros Hk; eauto;
        try (destruct Hk as [? Hk]; discriminate Hk).
      destruct Hk as [[?|?]|?]; congruence.
    + unfold geoLimitsOf. rewrite field_object. simpl. destruct Ht as [->| ->]; eauto.
  - intros Hf. subst out. apply Forall_app in Hf as [Hfu Hfgo].
    assert (forall t l,
              Forall (fun e => nullish e = false) l ->
              Forall (fun e => geoLimitsChanged e = true -> nullish e?."features" = false) l ->
              Forall (fun limits => limits_ok limits = true)
                (geoLimitsOf t <$> List.filter geoLimitsChanged l)) as Hok.
    { intros t l Hl Hfl. apply Forall_forall. intros o Ho'%list_elem_of_In.
      apply In_fmap in Ho' as (e & He & ->). apply filter_In in He as [He Hc].
      rewrite Forall_forall in Hfl. apply list_elem_of_In in He.
      unfold limits_ok, geoLimitsOf. rewrite nullish_object, field_object. simpl.
      by rewrite (Hfl e He Hc). }
    apply Forall_app. split; by apply Hok.
Qed.

Lemma geo_limits_of_changed_entries_witness :
  getGeoLimitsFromCompactPermissions
    (object [
       "users" ↦ VArr [object ["id" ↦ num 7; "isGeoLimitsChanged" ↦ VBool true;
                               "features" ↦ VArr []];
                       object ["id" ↦ num 8; "features" ↦ VArr []]];
       "organizations" ↦ VArr [object ["id" ↦ num 3; "isGeoLimitsChanged" ↦ VBool true;
                                       "features" ↦ VArr [object ["type" ↦ VStr "Feature"]];
                                       "permissions" ↦ VStr "view"]]
     ])
  = Returns (VArr [
      object ["id" ↦ num 7; "features" ↦ VArr []; "type" ↦ VStr "user"];
      object ["id" ↦ num 3; "features" ↦ VArr [object ["type" ↦ VStr "Feature"]];
              "type" ↦ VStr "group"]
    ]).
Proof.
  destruct (geo_limits_of_changed_entries
              (object [
                 "users" ↦ VArr [object ["id" ↦ num 7; "isGeoLimitsChanged" ↦ VBool true;
                                         "features" ↦ VArr []];
                                 object ["id" ↦ num 8; "features" ↦ VArr []]];
                 "organizations" ↦ VArr [object ["id" ↦ num 3;
                                                 "isGeoLimitsChanged" ↦ VBool true;
                                                 "features" ↦ VArr [object ["type" ↦ VStr "Feature"]];
                                                 "permissions" ↦ VStr "view"]]
               ])
              []
              [object ["id" ↦ num 7; "isGeoLimitsChanged" ↦ VBool true; "features" ↦ VArr []];
               object ["id" ↦ num 8; "features" ↦ VArr []]]
              [object ["id" ↦ num 3; "isGeoLimitsChanged" ↦ VBool true;
                       "features" ↦ VArr [object ["type" ↦ VStr "Feature"]];
                       "permissions" ↦ VStr "view"]])
    as (Hout & _).
  - reflexivity.
  - vm_compute. reflexivity.
  - vm_compute. reflexivity.
  - vm_compute. reflexivity.
  - repeat constructor.
  - rewrite Hout. vm_compute. reflexivity.
Defined.

(** ** Who may copy a resource and manage its settings *)

Lemma includes_chain_Returns v x r :
  includes_chain v x = Returns r ->
  (nullish v = true /\ r = VUndef) \/ (exists b, includes v x = Returns b /\ r = VBool b).
Proof.
  unfold includes_chain. destruct (nullish v); [intros [= <-]; by left|].
  destruct (includes v x) as [b|]; [|discriminate]. intros [= <-]. right. by exists b.
Qed.

Lemma includes_chain_truthy v x r :
  includes_chain v x = Returns r -> truthy r = true <-> r = VBool true.
Proof.
  intros [[_ ->]|(b & _ & ->)]%includes_chain_Returns; [done|]. destruct b; split; done.
Qed.

Lemma includes_chain_list l x : includes_chain (VArr l) x = Returns (VBool (existsb (strict_eq x) l)).
Proof. reflexivity. Qed.

(** The resources that need the permission to download to be copied. *)
Definition needsDownload (resource : value) : bool :=
  is_str resource?."resource_type" ResourceTypes.DATASET
  || is_str resource?."resource_type" ResourceTypes.DOCUMENT.

Lemma needsDownload_spec resource :
  existsb (strict_eq resource?."resource_type")
    [VStr ResourceTypes.DATASET; VStr ResourceTypes.DOCUMENT] = needsDownload resource.
Proof. unfold needsDownload, is_str. cbn [existsb]. by rewrite orb_false_r. Qed.

(** A list of permissions as the backend sends it, or none. *)
Definition perms_ok (v : value) : bool :=
  match v with
  | VUndef | VNull | VArr _ => true
  | _ => false
  end.

Lemma includes_chain_returns v x : perms_ok v = true -> exists r, includes_chain v x = Returns r.
Proof. destruct v; try discriminate; intros _; cbn; eauto. Qed.

(** X4: [canCopyResource] answers with a boolean, and the answer is [true]
    exactly when the user has the permission ['add_resource'], the resource
    is copyable and, for a dataset or a document, the resource has the
    permission ['download_resourcebase']: a dataset or document that cannot
    be downloaded can never be copied.  The function returns whenever the
    two lists of permissions are arrays or missing. *)
Theorem copy_needs_add_and_download (resource user : value) :
  (perms_ok user?."perms" = true -> perms_ok resource?."perms" = true ->
   exists b, canCopyResource resource user = Returns (VBool b))
  /\ (forall v,
        canCopyResource resource user = Returns v ->
        exists b,
          v = VBool b
          /\ (b = true <->
              resourceHasPermission user (VStr "add_resource") = Returns (VBool true)
              /\ truthy resource?."is_copyable" = true
              /\ (needsDownload resource = true ->
                  resourceHasPermission resource (VStr "download_resourcebase")
                  = Returns (VBool true)))).
Proof.
  unfold canCopyResource, resourceHasPermission. rewrite needsDownload_spec. split.
  - intros Hu Hr.
    destruct (includes_chain_returns _ (VStr "add_resource") Hu) as (a & ->).
    cbn [mbind completion_bind]. destruct (needsDownload resource); [|cbn; eauto].
    destruct (includes_chain_returns _ (VStr "download_resourcebase") Hr) as (d & ->).
    cbn; eauto.
  - intros v.
    destruct (includes_chain user?."perms" (VStr "add_resource")) as [canAdd|] eqn:Hadd;
      [|discriminate].
    cbn [mbind completion_bind]. pose proof (includes_chain_truthy _ _ _ Hadd) as Ha.
    destruct (needsDownload resource).
    + destruct (includes_chain resource?."perms" (VStr "download_resourcebase"))
        as [canDownload|] eqn:Hdown; [|discriminate].
      cbn [mbind completion_bind mret completion_ret].
      pose proof (includes_chain_truthy _ _ _ Hdown) as Hd.
      intros [= <-]. eexists. split; [reflexivity|].
      rewrite !truthy_and. cbn [truthy]. rewrite !andb_true_iff, Ha, Hd.
      split.
      * intros [[-> ?] ->]. done.
      * intros ([= ->] & ? & Hd'). specialize (Hd' eq_refl). by injection Hd' as ->.
    + cbn [mret completion_ret]. intros [= <-]. eexists. split; [reflexivity|].
      rewrite truthy_and, andb_true_iff, Ha. split.
      * intros [-> ?]. done.
      * intros ([= ->] & ? & _). done.
Qed.

Lemma or_object_field v k : k <> "length" -> (or v (object []))?.k = v?.k.
Proof.
  intros Hk. unfold or. destruct (truthy v) eqn:Hv; [done|].
  rewrite field_object. simpl. rewrite (field_own v) by done. by rewrite (own_falsy v Hv).
Qed.

Lemma settingsPerms_truthy perm : existsb (strict_eq perm) settingsPerms = true -> truthy perm = true.
Proof.
  unfold settingsPerms. cbn [existsb]. rewrite orb_false_r.
  destruct perm as [| | | |s| |]; try done. cbn [strict_eq truthy].
  destruct (String.eqb_spec s ""); [subst; done|done].
Qed.

Lemma find_truthy (p : value -> bool) l :
  (forall x, p x = true -> truthy x = true) ->
  truthy (find p l) = existsb p l.
Proof.
  intros Hp. unfold find. induction l as [|x l IH]; [done|]. cbn.
  destruct (p x) eqn:Hx; [by apply Hp|done].
Qed.

Lemma existsb_swap {A B} (f : A -> B -> bool) (l1 : list A) (l2 : list B) :
  existsb (fun x => existsb (f x) l2) l1 = existsb (fun y => existsb (fun x => f x y) l1) l2.
Proof.
  apply eq_true_iff_eq. rewrite !existsb_exists. split.
  - intros (x & Hx & (y & Hy & Hf)%existsb_exists). exists y. split; [done|].
    apply existsb_exists. eauto.
  - intros (y & Hy & (x & Hx & Hf)%existsb_exists). exists x. split; [done|].
    apply existsb_exists. eauto.
Qed.

(** X5: on a resource whose permissions are an array, or missing,
    [canManageResourceSettings] answers [true] exactly when
    [resourceHasPermission] does for one of the three permissions on the
    settings (to feature, to approve, to publish), and [false] otherwise. *)
Theorem settings_need_one_settings_permission (resource : value) :
  perms_ok resource?."perms" = true ->
  exists b,
    canManageResourceSettings resource = Returns (VBool b)
    /\ (b = true <->
        exists perm,
          In perm settingsPerms
          /\ resourceHasPermission resource perm = Returns (VBool true)).
Proof.
  intros Hok. unfold canManageResourceSettings, resourceHasPermission.
  rewrite or_object_field by done.
  destruct resource?."perms" as [| | | | |l|] eqn:Hp; try discriminate.
  - exists false. split; [reflexivity|]. split; [done|]. intros (perm & _ & H). discriminate H.
  - exists false. split; [reflexivity|]. split; [done|]. intros (perm & _ & H). discriminate H.
  - cbn [or truthy array mbind completion_bind mret completion_ret].
    rewrite find_truthy by apply settingsPerms_truthy.
    eexists. split; [reflexivity|].
    rewrite (existsb_swap (fun perm s => strict_eq perm s)), existsb_exists.
    split.
    + intros (perm & Hin & Hl). exists perm. split; [done|].
      rewrite includes_chain_list. do 2 f_equal. rewrite <- Hl.
      clear. induction l as [|x l IH]; [done|]. cbn. by rewrite strict_eq_sym, IH.
    + intros (perm & Hin & Hl). exists perm. split; [done|].
      rewrite includes_chain_list in Hl. injection Hl as <-.
      clear. induction l as [|x l IH]; [done|]. cbn. by rewrite strict_eq_sym, IH.
Qed.

(** A dataset that may be viewed but not downloaded cannot be copied,
    whatever the user may add. *)
Example dataset_without_download_is_not_copied :
  canCopyResource
    (object ["resource_type" ↦ VStr "dataset"; "is_copyable" ↦ VBool true;
             "perms" ↦ VArr [VStr "view_resourcebase"]])
    (object ["perms" ↦ VArr [VStr "add_resource"]])
  = Returns (VBool false).
Proof. vm_compute. reflexivity. Qed.

Lemma settings_need_one_settings_permission_witness :
  exists b,
    canManageResourceSettings
      (object ["perms" ↦ VArr [VStr "view_resourcebase"; VStr "publish_resourcebase"]])
    = Returns (VBool b)
    /\ (b = true <->
        exists perm,
          In perm settingsPerms
          /\ resourceHasPermission
               (object ["perms" ↦ VArr [VStr "view_resourcebase"; VStr "publish_resourcebase"]])
               perm = Returns (VBool true)).
Proof.
  apply (settings_need_one_settings_permission
           (object ["perms" ↦ VArr [VStr "view_resourcebase"; VStr "publish_resourcebase"]])).
  reflexivity.
Defined.

(** ** The compact permissions that are sent to the backend *)

Section Sorting.

Variable first : value -> value -> completion bool.

Let goes_first (x y : value) : Prop := first x y = Returns true.

Hypothesis first_trans : forall x y z, goes_first x y -> goes_first y z -> goes_first x z.

Lemma place_Permutation x l : place first x l ≡ₚ x :: l.
Proof.
  induction l as [|y l IH]; [done|]. cbn.
  destruct (first x y) as [[|]|]; [done| |done]. rewrite IH. apply Permutation_swap.
Qed.

Lemma sorted_Permutation l : foldr (place first) [] l ≡ₚ l.
Proof. induction l as [|x l IH]; [done|]. cbn. by rewrite place_Permutation, IH. Qed.

Lemma place_StronglySorted x l :
  StronglySorted goes_first l ->
  Forall (fun y => match first x y, first y x with
                   | Returns a, Returns b => xorb a b
                   | _, _ => false
                   end = true) l ->
  StronglySorted goes_first (place first x l).
Proof.
  induction 1 as [|y l Hl IH Hy]; intros Hx; [repeat constructor|].
  apply Forall_cons in Hx as [Hxy Hx]. cbn.
  destruct (first x y) as [[|]|] eqn:Hf; [| |done].
  - constructor; [by constructor|]. constructor; [done|].
    eapply Forall_impl; [exact Hy|]. intros z Hz. by apply (first_trans x y z).
  - destruct (first y x) as [[|]|] eqn:Hb; try discriminate.
    constructor; [by apply IH|].
    apply Forall_forall. intros z Hz. rewrite place_Permutation in Hz.
    apply elem_of_cons in Hz as [->|Hz]; [done|].
    rewrite Forall_forall in Hy. by apply Hy.
Qed.

Lemma strictly_ordered_cons x l :
  strictly_ordered first (x :: l) = true ->
  Forall (fun y => match first x y, first y x with
                   | Returns a, Returns b => xorb a b
                   | _, _ => false
                   end = true) l
  /\ strictly_ordered first l = true.
Proof.
  cbn. intros [H ?]%andb_prop. split; [|done].
  apply Forall_forall. intros y Hy%list_elem_of_In. rewrite forallb_forall in H. by apply H.
Qed.

Lemma sorted_StronglySorted l :
  strictly_ordered first l = true -> StronglySorted goes_first (foldr (place first) [] l).
Proof.
  induction l as [|x l IH]; intros H; [constructor|].
  apply strictly_ordered_cons in H as [Hx Hl]. cbn.
  apply place_StronglySorted; [by apply IH|].
  apply Forall_forall. intros y Hy. rewrite sorted_Permutation in Hy.
  rewrite Forall_forall in Hx. by apply Hx.
Qed.

Lemma sort_Returns l r :
  sort first l = Returns r -> r ≡ₚ l /\ StronglySorted goes_first r.
Proof.
  unfold sort. destruct (strictly_ordered first l) eqn:H; [|discriminate].
  intros [= <-]. split; [apply sorted_Permutation|by apply sorted_StronglySorted].
Qed.

End Sorting.

Lemma string_compare_Gt_trans s1 s2 s3 :
  String.compare s1 s2 = Gt -> String.compare s2 s3 = Gt -> String.compare s1 s3 = Gt.
Proof.
  intros H12 H23.
  assert (String.compare s1 s3 <> Lt) as Hne by (apply (string_compare_trans s1 s2 s3); congruence).
  destruct (String.compare s1 s3) eqn:H13; [|done..].
  apply String.compare_eq_iff in H13 as ->.
  rewrite String.compare_antisym, H23 in H12. discriminate.
Qed.

Lemma greater_trans a b c :
  greater a b = Returns true -> greater b c = Returns true -> greater a c = Returns true.
Proof.
  destruct a as [| |x|x|x| |], b as [| |y|y|y| |]; try discriminate;
  destruct c as [| |z|z|z| |]; try discriminate; cbn;
    repeat match goal with |- context [Qltb ?p ?q] =>
             let H := fresh in destruct (Qltb p q) eqn:H; [apply Qltb_true in H|] end;
    try discriminate; try done;
    try (intros _ _;
         match goal with |- Returns false = Returns true => exfalso end;
         match goal with H : Qltb ?p ?q = false |- _ =>
           assert (Qltb p q = true) as H'; [apply Qltb_true|congruence] end;
         repeat match goal with b : bool |- _ => destruct b end;
         eauto using Qlt_trans).
  destruct (String.compare x y) eqn:Hxy; try discriminate.
  destruct (String.compare y z) eqn:Hyz; try discriminate.
  by rewrite (string_compare_Gt_trans x y z).
Qed.

Lemma greaterId_trans x y z :
  greaterId x y = Returns true -> greaterId y z = Returns true -> greaterId x z = Returns true.
Proof.
  unfold greaterId. intros Hxy Hyz.
  destruct (get x "id") as [a|] eqn:Ha; [|discriminate].
  destruct (get y "id") as [b|] eqn:Hb; [|discriminate].
  destruct (get z "id") as [c|] eqn:Hc; [|discriminate].
  cbn [mbind completion_bind] in *. by apply (greater_trans a b c).
Qed.

(** What [cleanCompactPermissions] keeps of an entry. *)
Definition idAndPermissionsOf (entry : value) : value :=
  object ["id" ↦ entry?."id"; "permissions" ↦ entry?."permissions"].

(** The cleaned list of a list of entries: what is kept of each entry,
    by decreasing [id]. *)
Definition cleaned (entries sorted : list value) : Prop :=
  sorted ≡ₚ idAndPermissionsOf <$> entries
  /\ forall i j x y,
       i < j -> sorted !! i = Some x -> sorted !! j = Some y ->
       greater x?."id" y?."id" = Returns true.

Lemma idAndPermissions_Returns l r :
  mapM idAndPermissions l = Returns r -> r = idAndPermissionsOf <$> l.
Proof.
  revert r. induction l as [|x l IH]; intros r H.
  - by injection H as <-.
  - cbn in H. destruct (idAndPermissions x) as [b|] eqn:Hx; [|discriminate]. cbn in H.
    destruct (mapM idAndPermissions l) as [r'|]; [|discriminate]. cbn in H. injection H as <-.
    cbn. f_equal; [|by apply IH].
    unfold idAndPermissions in Hx. destruct (destructure x) as [e|] eqn:He; [|discriminate].
    apply destructure_Returns in He as [_ ->]. by injection Hx as <-.
Qed.

Lemma cleaned_list entries r sorted :
  mapM idAndPermissions entries = Returns r -> sort greaterId r = Returns sorted ->
  cleaned entries sorted.
Proof.
  intros ->%idAndPermissions_Returns Hs.
  apply (sort_Returns greaterId greaterId_trans) in Hs as [Hperm Hsorted].
  split; [done|]. intros i j x y Hij Hx Hy.
  pose proof (StronglySorted_lookup _ _ i j x y Hsorted Hij Hx Hy) as Hg.
  unfold greaterId in Hg.
  destruct (get x "id") as [a|] eqn:Ha; [|discriminate].
  destruct (get y "id") as [b|] eqn:Hb; [|discriminate].
  apply get_Returns in Ha as [_ ->]. by apply get_Returns in Hb as [_ ->].
Qed.

(** Entries of which no two have the same [id]: of every two of them, one
    has the greater [id]. *)
Definition distinct_ids (entries : list value) : bool :=
  forallb (fun e => negb (nullish e)) entries
  && strictly_ordered greaterId (idAndPermissionsOf <$> entries).

Lemma cleaned_returns entries :
  distinct_ids entries = true ->
  exists sorted,
    (mapM idAndPermissions entries ≫= sort greaterId) = Returns sorted.
Proof.
  unfold distinct_ids. intros [Hn Hs]%andb_prop.
  rewrite (mapM_pure idAndPermissions idAndPermissionsOf).
  - cbn [mbind completion_bind]. unfold sort. rewrite Hs. eauto.
  - intros x Hx. rewrite forallb_forall in Hn. apply Hn, negb_true_iff in Hx.
    unfold idAndPermissions, destructure. by rewrite Hx.
Qed.

(** X6: what [cleanCompactPermissions] sends to the backend.  Of every
    group, organization and user it keeps the [id] and the [permissions] and
    nothing else, and each of the three lists comes out ordered by strictly
    decreasing [id].  The function returns when in each list all the ids are
    different numbers (or different strings). *)
Theorem compact_permissions_are_cleaned (compact : value)
    (groups users organizations : list value) :
  compact?."groups" = VArr groups ->
  compact?."users" = VArr users ->
  compact?."organizations" = VArr organizations ->
  (distinct_ids groups = true -> distinct_ids users = true ->
   distinct_ids organizations = true ->
   exists out, cleanCompactPermissions compact = Returns out)
  /\ (forall out,
        cleanCompactPermissions compact = Returns out ->
        exists gs us os,
          out = compact_of gs us os
          /\ cleaned groups gs /\ cleaned users us /\ cleaned organizations os).
Proof.
  intros Hg Hu Ho.
  assert (nullish compact = false) as Hn by (by destruct compact).
  unfold cleanCompactPermissions, destructure. rewrite Hn. cbn [mbind completion_bind].
  rewrite Hg, Hu, Ho. cbn [array mbind completion_bind]. split.
  - intros (gs & Hgs)%cleaned_returns (us & Hus)%cleaned_returns (os & Hos)%cleaned_returns.
    destruct (mapM idAndPermissions groups) as [g|]; [|discriminate].
    cbn [mbind completion_bind] in *. rewrite Hgs. cbn [mbind completion_bind].
    destruct (mapM idAndPermissions organizations) as [o|]; [|discriminate].
    cbn [mbind completion_bind] in *. rewrite Hos. cbn [mbind completion_bind].
    destruct (mapM idAndPermissions users) as [u|]; [|discriminate].
    cbn [mbind completion_bind] in *. rewrite Hus. cbn. eauto.
  - intros out.
    destruct (mapM idAndPermissions groups) as [g|] eqn:Hmg; [|discriminate].
    cbn [mbind completion_bind].
    destruct (sort greaterId g) as [gs|] eqn:Hsg; [|discriminate].
    cbn [mbind completion_bind].
    destruct (mapM idAndPermissions organizations) as [o|] eqn:Hmo; [|discriminate].
    cbn [mbind completion_bind].
    destruct (sort greaterId o) as [os|] eqn:Hso; [|discriminate].
    cbn [mbind completion_bind].
    destruct (mapM idAndPermissions users) as [u|] eqn:Hmu; [|discriminate].
    cbn [mbind completion_bind].
    destruct (sort greaterId u) as [us|] eqn:Hsu; [|discriminate].
    cbn [mbind completion_bind mret completion_ret]. intros [= <-].
    exists gs, us, os. split; [done|].
    split; [|split]; eapply cleaned_list; eassumption.
Qed.

Definition sample_permissions : value :=
  object [
    "groups" ↦ VArr [object ["id" ↦ num 1; "name" ↦ VStr "anonymous";
                             "permissions" ↦ VStr "view"];
                     object ["id" ↦ num 2; "name" ↦ VStr "registered";
                             "permissions" ↦ VStr "download"]];
    "users" ↦ VArr [object ["id" ↦ num 7; "avatar" ↦ VStr "/ada.png";
                            "permissions" ↦ VStr "manage"]];
    "organizations" ↦ VArr []
  ].

Lemma compact_permissions_are_cleaned_witness :
  exists out gs us os,
    cleanCompactPermissions sample_permissions = Returns out
    /\ out = compact_of gs us os
    /\ cleaned [object ["id" ↦ num 1; "name" ↦ VStr "anonymous"; "permissions" ↦ VStr "view"];
                object ["id" ↦ num 2; "name" ↦ VStr "registered";
                        "permissions" ↦ VStr "download"]] gs
    /\ cleaned [object ["id" ↦ num 7; "avatar" ↦ VStr "/ada.png";
                        "permissions" ↦ VStr "manage"]] us
    /\ cleaned [] os.
Proof.
  destruct (compact_permissions_are_cleaned sample_permissions
              [object ["id" ↦ num 1; "name" ↦ VStr "anonymous"; "permissions" ↦ VStr "view"];
               object ["id" ↦ num 2; "name" ↦ VStr "registered";
                       "permissions" ↦ VStr "download"]]
              [object ["id" ↦ num 7; "avatar" ↦ VStr "/ada.png";
                       "permissions" ↦ VStr "manage"]]
              [])
    as [Hreturns Hcleaned].
  - vm_compute. reflexivity.
  - vm_compute. reflexivity.
  - vm_compute. reflexivity.
  - destruct Hreturns as (out & Hout); [vm_compute; reflexivity..|].
    destruct (Hcleaned out Hout) as (gs & us & os & H).
    exists out, gs, us, os. split; [exact Hout|exact H].
Defined.

(** The groups come out by decreasing id, without their names. *)
Example sample_permissions_cleaned :
  cleanCompactPermissions sample_permissions
  = Returns (object [
      "groups" ↦ VArr [object ["id" ↦ num 2; "permissions" ↦ VStr "download"];
                       object ["id" ↦ num 1; "permissions" ↦ VStr "view"]];
      "organizations" ↦ VArr [];
      "users" ↦ VArr [object ["id" ↦ num 7; "permissions" ↦ VStr "manage"]]
    ]).
Proof. vm_compute. reflexivity. Qed.

(** ** Style names *)

Lemma split_on_cons c a s :
  split_on c (String a s)
  = if Ascii.eqb a c then EmptyString :: split_on c s
    else match split_on c s with
         | part :: parts => String a part :: parts
         | [] => [String a EmptyString]
         end.
Proof. reflexivity. Qed.

Lemma split_on_nonempty c s : split_on c s <> [].
Proof.
  destruct s as [|a s]; [done|]. rewrite split_on_cons. destruct (Ascii.eqb a c); [done|].
  by destruct (split_on c s).
Qed.

Lemma split_on_separated c w n : 1 < length (split_on c (w ++ String c n)).
Proof.
  induction w as [|a w IH]; simpl.
  - rewrite Ascii.eqb_refl. pose proof (split_on_nonempty c n).
    destruct (split_on c n); [done|simpl; lia].
  - destruct (Ascii.eqb a c).
    + pose proof (split_on_nonempty c (w ++ String c n)).
      destruct (split_on c (w ++ String c n)); [done|simpl; lia].
    + destruct (split_on c (w ++ String c n)); [simpl in IH; lia|done].
Qed.

(** A name that has its workspace: [workspace:name]. *)
Definition qualified (name : string) : bool :=
  Nat.ltb 1 (length (split_on (Ascii.ascii_of_nat 58) name)).

Lemma qualified_with w n : qualified (w ++ ":" ++ n) = true.
Proof. apply Nat.ltb_lt. exact (split_on_separated (Ascii.ascii_of_nat 58) w n). Qed.

Lemma parseStyleName_qualified workspace n :
  qualified n = true ->
  parseStyleName (object ["workspace" ↦ workspace; "name" ↦ VStr n]) = Returns (VStr n).
Proof.
  intros Hq. unfold parseStyleName. rewrite destructure_object.
  cbn [mbind completion_bind]. rewrite !field_object. simpl.
  unfold qualified in Hq. by rewrite Hq.
Qed.

Lemma parseStyleName_string style out :
  parseStyleName style = Returns out -> exists s, out = VStr s.
Proof.
  unfold parseStyleName. intros H.
  apply bind_Returns in H as (st & _ & H).
  apply bind_Returns in H as (n & Hname & H).
  destruct st?."name" as [| | | |n'| |]; try discriminate. injection Hname as ->.
  destruct (Nat.ltb 1 _); [injection H as <-; eauto|].
  destruct (isString _); [apply bind_Returns in H as (w & _ & [= <-]); eauto|].
  destruct (_ && _); [apply bind_Returns in H as (w & _ & [= <-]); eauto|].
  injection H as <-; eauto.
Qed.

(** What [parseStyleName] writes before the colon: the workspace when it is
    a string, its [name] when it is an object that has one. *)
Definition workspaceOf (workspace : value) : option value :=
  if isString workspace then Some workspace
  else if isObject workspace && negb (strict_eq workspace?."name" VUndef)
       then Some workspace?."name"
  else None.

(** X7: [parseStyleName] qualifies a style name once.  Its result is a
    string: the name itself when the name already has a workspace or none is
    given, and otherwise the workspace given (the string, or the [name] of
    the object), a colon and the name; with a string for workspace the
    result is always qualified; and a result is never qualified again:
    parsing the result gives the result. *)
Theorem style_name_is_qualified_once (style out : value) :
  parseStyleName style = Returns out ->
  exists n s,
    style?."name" = VStr n
    /\ out = VStr s
    /\ match (if qualified n then None else workspaceOf style?."workspace") with
       | None => s = n
       | Some v => exists w, to_string v = Returns w /\ s = w ++ ":" ++ n
       end
    /\ (forall w, style?."workspace" = VStr w ->
        s = if qualified n then n else w ++ ":" ++ n)
    /\ (nullish style?."workspace" = true -> s = n)
    /\ (isString style?."workspace" = true -> qualified s = true)
    /\ parseStyleName (object ["workspace" ↦ style?."workspace"; "name" ↦ out])
       = Returns out.
Proof.
  unfold parseStyleName. intros H.
  apply bind_Returns in H as (st & [Hn ->]%destructure_Returns & H).
  apply bind_Returns in H as (n & Hname & H).
  destruct style?."name" as [| | | |n'| |] eqn:Hn'; try discriminate. injection Hname as ->.
  exists n. fold (qualified n) in H. unfold workspaceOf. destruct (qualified n) eqn:Hq.
  - injection H as <-. exists n. repeat split; try done.
    by apply parseStyleName_qualified.
  - destruct (isString style?."workspace") eqn:Hs.
    + apply bind_Returns in H as (w & Hw & [= <-]). exists (w ++ ":" ++ n).
      split; [done|]. split; [done|]. split; [eauto|].
      split; [by intros w' Hw'; rewrite Hw' in Hw; injection Hw as ->|].
      split; [by destruct style?."workspace"|].
      split; [intros _; apply qualified_with|]. apply parseStyleName_qualified, qualified_with.
    + destruct (isObject style?."workspace" && negb (strict_eq style?."workspace"?."name" VUndef))
        eqn:Ho.
      * apply bind_Returns in H as (w & Hw & [= <-]). exists (w ++ ":" ++ n).
        split; [done|]. split; [done|]. split; [eauto|].
        split; [by intros w' Hw'; rewrite Hw' in Hs|].
        split; [by destruct style?."workspace"|].
        split; [done|]. apply parseStyleName_qualified, qualified_with.
      * injection H as <-. exists n. split; [done|]. split; [done|]. split; [done|].
        split; [by intros w' Hw'; rewrite Hw' in Hs|].
        split; [done|]. split; [done|].
        unfold parseStyleName. rewrite destructure_object. cbn [mbind completion_bind].
        rewrite !field_object. simpl. fold (qualified n). by rewrite Hq, Hs, Ho.
Qed.

Lemma style_name_is_qualified_once_witness :
  exists n s,
    (object ["workspace" ↦ VStr "geonode"; "name" ↦ VStr "roads"])?."name" = VStr n
    /\ VStr "geonode:roads" = VStr s
    /\ match (if qualified n then None
              else workspaceOf
                     (object ["workspace" ↦ VStr "geonode"; "name" ↦ VStr "roads"])?."workspace")
       with
       | None => s = n
       | Some v => exists w, to_string v = Returns w /\ s = w ++ ":" ++ n
       end
    /\ (forall w,
          (object ["workspace" ↦ VStr "geonode"; "name" ↦ VStr "roads"])?."workspace" = VStr w ->
          s = if qualified n then n else w ++ ":" ++ n)
    /\ (nullish (object ["workspace" ↦ VStr "geonode"; "name" ↦ VStr "roads"])?."workspace"
        = true -> s = n)
    /\ (isString (object ["workspace" ↦ VStr "geonode"; "name" ↦ VStr "roads"])?."workspace"
        = true -> qualified s = true)
    /\ parseStyleName
         (object ["workspace" ↦
                    (object ["workspace" ↦ VStr "geonode"; "name" ↦ VStr "roads"])?."workspace";
                  "name" ↦ VStr "geonode:roads"])
       = Returns (VStr "geonode:roads").
Proof.
  apply (style_name_is_qualified_once
           (object ["workspace" ↦ VStr "geonode"; "name" ↦ VStr "roads"])
           (VStr "geonode:roads")).
  vm_compute. reflexivity.
Defined.

(** ** Styles *)

(** X8: the styles that [cleanStyles] returns.  No two of them have the
    same name, none has an excluded name, and each is the cleaned form of
    one of the styles given, with a string for name. *)
Theorem clean_styles_are_distinct_and_allowed (styles excluded out : value) :
  cleanStyles styles excluded = Returns out ->
  exists given kept,
    defaulted styles (VArr []) = VArr given
    /\ out = VArr kept
    /\ (forall i j x y,
          i <> j -> kept !! i = Some x -> kept !! j = Some y ->
          strict_eq x?."name" y?."name" = false)
    /\ (forall style,
          In style kept ->
          includes (defaulted excluded (VArr [])) style?."name" = Returns false
          /\ (exists s, style?."name" = VStr s)
          /\ exists original, In original given /\ cleanStyle original = Returns style).
Proof.
  unfold cleanStyles. intros H.
  apply bind_Returns in H as (given & Hgiven & H).
  destruct (defaulted styles (VArr [])) as [| | | | |l|]; try discriminate.
  injection Hgiven as ->.
  apply bind_Returns in H as (cleanedStyles & Hcleaned & H).
  apply bind_Returns in H as (kept & Hkept & [= <-]).
  exists given, kept. split; [done|]. split; [done|].
  apply filter_c_Returns in Hkept as (q & Hq & ->). split.
  - intros i j x y Hij Hx Hy.
    apply (distinct_by_lookup "name" (List.filter q (uniqBy cleanedStyles "name")) i j);
      [|done..].
    apply distinct_by_filter. apply uniqBy_from_spec.
  - intros style [Hin Hqs]%filter_In.
    pose proof (Hq style Hin) as Hp. apply uniqBy_In in Hin.
    destruct (mapM_Returns_In _ _ _ _ Hcleaned Hin) as (original & Horiginal & Hclean).
    apply bind_Returns in Hp as (s' & [_ ->]%destructure_Returns & Hp).
    apply fmap_Returns in Hp as (b & Hb & Hqb). rewrite Hqs in Hqb.
    symmetry in Hqb. apply negb_true_iff in Hqb. subst b.
    split; [done|]. split; [|eauto].
    unfold cleanStyle in Hclean.
    apply bind_Returns in Hclean as (st & _ & Hclean).
    apply bind_Returns in Hclean as (parsed & Hparsed & [= <-]).
    apply parseStyleName_string in Hparsed as (s & ->).
    exists s. by rewrite field_object.
Qed.

Definition sample_styles : value :=
  VArr [object ["name" ↦ VStr "roads"; "workspace" ↦ VStr "geonode"; "sld_title" ↦ VStr "Roads"];
        object ["name" ↦ VStr "geonode:roads"; "title" ↦ VStr "Roads again"];
        object ["name" ↦ VStr "rivers"; "workspace" ↦ object ["name" ↦ VStr "geonode"]];
        object ["name" ↦ VStr "lakes"]].

Lemma clean_styles_are_distinct_and_allowed_witness :
  cleanStyles sample_styles (VArr [VStr "lakes"])
  = Returns (VArr [
      object ["name" ↦ VStr "geonode:roads"; "title" ↦ VStr "Roads"; "metadata" ↦ VUndef;
              "format" ↦ VUndef; "canEdit" ↦ VUndef];
      object ["name" ↦ VStr "geonode:rivers"; "title" ↦ VStr "rivers"; "metadata" ↦ VUndef;
              "format" ↦ VUndef; "canEdit" ↦ VUndef]])
  /\ exists given kept,
       defaulted sample_styles (VArr []) = VArr given
       /\ VArr [
            object ["name" ↦ VStr "geonode:roads"; "title" ↦ VStr "Roads"; "metadata" ↦ VUndef;
                    "format" ↦ VUndef; "canEdit" ↦ VUndef];
            object ["name" ↦ VStr "geonode:rivers"; "title" ↦ VStr "rivers";
                    "metadata" ↦ VUndef; "format" ↦ VUndef; "canEdit" ↦ VUndef]] = VArr kept
       /\ (forall i j x y,
             i <> j -> kept !! i = Some x -> kept !! j = Some y ->
             strict_eq x?."name" y?."name" = false)
       /\ (forall style,
             In style kept ->
             includes (defaulted (VArr [VStr "lakes"]) (VArr [])) style?."name" = Returns false
             /\ (exists s, style?."name" = VStr s)
             /\ exists original, In original given /\ cleanStyle original = Returns style).
Proof.
  assert (cleanStyles sample_styles (VArr [VStr "lakes"])
          = Returns (VArr [
              object ["name" ↦ VStr "geonode:roads"; "title" ↦ VStr "Roads";
                      "metadata" ↦ VUndef; "format" ↦ VUndef; "canEdit" ↦ VUndef];
              object ["name" ↦ VStr "geonode:rivers"; "title" ↦ VStr "rivers";
                      "metadata" ↦ VUndef; "format" ↦ VUndef; "canEdit" ↦ VUndef]])) as Hrun
    by (vm_compute; reflexivity).
  split; [exact Hrun|].
  exact (clean_styles_are_distinct_and_allowed _ _ _ Hrun).
Defined.

(** ** Linked resources *)

Lemma isEmpty_object_nil : isEmpty (object []) = true.
Proof. reflexivity. Qed.

Lemma defaulted_object v ms : defaulted (defaulted v (object ms)) (object ms) = defaulted v (object ms).
Proof. by destruct v. Qed.

Lemma defaulted_of_object ms d : defaulted (object ms) d = object ms.
Proof. reflexivity. Qed.

Lemma omit_lookup v key k :
  own (omit v key) !! k = if decide (k = key) then None else own v !! k.
Proof.
  unfold omit. cbn [own]. case_decide as Hk.
  - subst. apply lookup_delete_eq.
  - by apply lookup_delete_ne.
Qed.

(** What [getResourceWithLinkedResources] puts in place of non-empty
    [linked_resources]. *)
Definition linkedResourcesOf (linked : value) : value :=
  let linkedTo := coalesce linked?."linked_to" (VArr []) in
  let linkedBy := coalesce linked?."linked_by" (VArr []) in
  if isEmpty linkedTo && isEmpty linkedBy then object []
  else object ["linkedTo" ↦ linkedTo; "linkedBy" ↦ linkedBy].

Lemma getResourceWithLinkedResources_Returns resource out :
  getResourceWithLinkedResources resource = Returns out ->
  let given := defaulted resource (object []) in
  nullish given = false
  /\ (isEmpty given?."linked_resources" = true -> out = given)
  /\ (isEmpty given?."linked_resources" = false ->
      out = object [Spread (omit given "linked_resources");
                    "linkedResources" ↦ linkedResourcesOf given?."linked_resources"]).
Proof.
  intros H given. unfold getResourceWithLinkedResources in H. fold given in H.
  apply bind_Returns in H as (linked & [Hn ->]%get_Returns & H).
  split; [done|].
  assert (isEmpty (coalesce given?."linked_resources" (object []))
          = isEmpty given?."linked_resources") as Hc.
  { unfold coalesce. by destruct given?."linked_resources". }
  rewrite Hc in H. destruct (isEmpty given?."linked_resources") eqn:He; cbn [negb] in H.
  - injection H as <-. split; [done|discriminate].
  - split; [discriminate|]. intros _. injection H as <-.
    assert (coalesce given?."linked_resources" (object []) = given?."linked_resources") as ->.
    { unfold coalesce. by destruct given?."linked_resources". }
    done.
Qed.

(** X9: [getResourceWithLinkedResources] normalises the linked resources
    once and for all.  Its result never has non-empty [linked_resources]: a
    resource that had some has [linkedResources] instead, and its other
    properties unchanged; a resource that had none is returned as it is.
    Applying the function to its result changes nothing. *)
Theorem linked_resources_are_normalized (resource out : value) :
  getResourceWithLinkedResources resource = Returns out ->
  isEmpty out?."linked_resources" = true
  /\ getResourceWithLinkedResources out = Returns out
  /\ (isEmpty resource?."linked_resources" = true -> out = defaulted resource (object []))
  /\ (isEmpty resource?."linked_resources" = false ->
      out?."linkedResources" = linkedResourcesOf resource?."linked_resources"
      /\ forall k, k <> "linked_resources" -> k <> "linkedResources" ->
                   own out !! k = own resource !! k).
Proof.
  intros H. apply getResourceWithLinkedResources_Returns in H as (Hn & Hsame & Hnew).
  assert ((defaulted resource (object []))?."linked_resources" = resource?."linked_resources")
    as Hl.
  { by destruct resource. }
  rewrite Hl in Hsame, Hnew.
  destruct (isEmpty resource?."linked_resources") eqn:He.
  - rewrite (Hsame eq_refl). clear Hsame Hnew. split; [by rewrite Hl|]. split; [|done].
    unfold getResourceWithLinkedResources. rewrite defaulted_object.
    rewrite (get_not_nullish _ _ Hn), Hl. cbn [mbind completion_bind].
    assert (isEmpty (coalesce resource?."linked_resources" (object [])) = true) as ->; [|done].
    unfold coalesce. by destruct resource?."linked_resources".
  - rewrite (Hnew eq_refl). clear Hsame Hnew.
    assert (forall ms, (object (Spread (omit (defaulted resource (object [])) "linked_resources")
                                  :: ms))?."linked_resources"
                       = default VUndef (resolve (rev ms) "linked_resources" None)) as Hgone.
    { intros ms. rewrite field_object. cbn [rev]. rewrite resolve_app. cbn [resolve].
      rewrite omit_lookup. by rewrite decide_True by done. }
    split; [|split; [|split; [discriminate|]]].
    + by rewrite Hgone.
    + unfold getResourceWithLinkedResources. rewrite defaulted_of_object.
      rewrite get_not_nullish by apply nullish_object. cbn [mbind completion_bind].
      rewrite Hgone. cbn [rev resolve app]. rewrite decide_False by done.
      cbn [default coalesce nullish]. by rewrite isEmpty_object_nil.
    + intros _. split; [by rewrite field_object|].
      intros k Hk Hk'. rewrite own_object_lookup. cbn [rev resolve app].
      rewrite decide_False by done. rewrite omit_lookup, decide_False by done.
      assert (own (defaulted resource (object [])) = own resource) as ->.
      { by destruct resource. }
      by destruct (own resource !! k).
Qed.

Definition sample_linked : value :=
  object ["pk" ↦ VStr "12"; "title" ↦ VStr "Roads";
          "linked_resources" ↦ object ["linked_to" ↦ VArr [object ["pk" ↦ VStr "5"]];
                                       "linked_by" ↦ VNull]].

Lemma linked_resources_are_normalized_witness :
  getResourceWithLinkedResources sample_linked
  = Returns (object ["pk" ↦ VStr "12"; "title" ↦ VStr "Roads";
                     "linkedResources" ↦ object ["linkedTo" ↦ VArr [object ["pk" ↦ VStr "5"]];
                                                 "linkedBy" ↦ VArr []]])
  /\ getResourceWithLinkedResources
       (object ["pk" ↦ VStr "12"; "title" ↦ VStr "Roads";
                "linkedResources" ↦ object ["linkedTo" ↦ VArr [object ["pk" ↦ VStr "5"]];
                                            "linkedBy" ↦ VArr []]])
     = Returns (object ["pk" ↦ VStr "12"; "title" ↦ VStr "Roads";
                        "linkedResources" ↦ object ["linkedTo" ↦ VArr [object ["pk" ↦ VStr "5"]];
                                                    "linkedBy" ↦ VArr []]]).
Proof.
  assert (getResourceWithLinkedResources sample_linked
          = Returns (object ["pk" ↦ VStr "12"; "title" ↦ VStr "Roads";
                             "linkedResources" ↦
                               object ["linkedTo" ↦ VArr [object ["pk" ↦ VStr "5"]];
                                       "linkedBy" ↦ VArr []]])) as Hrun
    by (vm_compute; reflexivity).
  split; [exact Hrun|].
  by destruct (linked_resources_are_normalized _ _ Hrun) as (_ & Hagain & _).
Defined.

(** ** Assets *)

(** X10: [getResourceAdditionalProperties] adds the assets of a resource
    to it, after its linked resources have been normalised: the links whose
    [extras] have type ['asset'] and a content with a title, in the order of
    the links.  A resource without such a link gets no [assets] at all, not
    an empty list, and every other property of the normalised resource is
    unchanged. *)
Theorem assets_are_the_titled_asset_links (resource out : value) :
  getResourceAdditionalProperties resource = Returns out ->
  exists normalized links,
    getResourceWithLinkedResources (defaulted resource (object [])) = Returns normalized
    /\ or normalized?."links" (VArr []) = VArr links
    /\ (forall k, k <> "assets" -> own out !! k = own normalized !! k)
    /\ (List.filter isAsset links = [] -> own out !! "assets" = own normalized !! "assets")
    /\ (List.filter isAsset links <> [] ->
        own out !! "assets" = Some (VArr (List.filter isAsset links)))
    /\ (forall link, In link (List.filter isAsset links) ->
          In link links
          /\ link?."extras"?."type" = VStr "asset"
          /\ truthy link?."extras"?."content"?."title" = true).
Proof.
  unfold getResourceAdditionalProperties. intros H.
  apply bind_Returns in H as (normalized & Hnorm & H).
  apply bind_Returns in H as (links & Hlinks & [= <-]).
  exists normalized, links. split; [done|].
  split; [by destruct (or normalized?."links" (VArr [])); try discriminate; injection Hlinks as ->|].
  set (assets := List.filter isAsset links).
  assert (forall k, k <> "assets" ->
            own (and (len assets) (object ["assets" ↦ VArr assets])) !! k = None) as Hother.
  { intros k Hk. apply own_and_lookup. simpl. by rewrite decide_False. }
  split; [|split; [|split]].
  - intros k Hk. rewrite own_object_lookup. cbn [rev resolve app]. rewrite Hother by done.
    by destruct (own normalized !! k).
  - intros Hnone. rewrite own_object_lookup. cbn [rev resolve app]. rewrite Hnone.
    by destruct (own normalized !! "assets").
  - intros Hsome. rewrite own_object_lookup. cbn [rev resolve app].
    destruct assets as [|a assets'] eqn:Ha; [done|].
    assert (truthy (len (a :: assets')) = true) as Ht.
    { unfold len, num. cbn [truthy length]. rewrite Nat2Z.inj_succ.
      destruct (Qeq_bool _ 0) eqn:Hq; [|done]. apply Qeq_bool_iff in Hq.
      unfold Qeq, inject_Z in Hq. cbn in Hq. lia. }
    unfold and. rewrite Ht. by rewrite own_object_lookup.
  - intros link [Hin Hasset]%filter_In. split; [done|].
    unfold isAsset in Hasset. rewrite truthy_and in Hasset.
    apply andb_prop in Hasset as [Htype Htitle]. split; [|done].
    cbn [truthy] in Htype. unfold is_str in Htype.
    destruct link?."extras"?."type"; try discriminate. cbn in Htype.
    by apply String.eqb_eq in Htype as ->.
Qed.

Definition sample_with_assets : value :=
  object ["pk" ↦ VStr "12";
          "links" ↦ VArr [
            object ["url" ↦ VStr "/roads.zip";
                    "extras" ↦ object ["type" ↦ VStr "asset";
                                       "content" ↦ object ["title" ↦ VStr "Original"]]];
            object ["url" ↦ VStr "/ows"; "link_type" ↦ VStr "OGC:WMS"];
            object ["url" ↦ VStr "/tmp"; "extras" ↦ object ["type" ↦ VStr "asset"]]]].

Lemma assets_are_the_titled_asset_links_witness :
  exists out,
    getResourceAdditionalProperties sample_with_assets = Returns out
    /\ out?."assets"
       = VArr [object ["url" ↦ VStr "/roads.zip";
                       "extras" ↦ object ["type" ↦ VStr "asset";
                                          "content" ↦ object ["title" ↦ VStr "Original"]]]]
    /\ exists normalized links,
         getResourceWithLinkedResources (defaulted sample_with_assets (object []))
         = Returns normalized
         /\ or normalized?."links" (VArr []) = VArr links
         /\ (forall k, k <> "assets" -> own out !! k = own normalized !! k)
         /\ (List.filter isAsset links = [] -> own out !! "assets" = own normalized !! "assets")
         /\ (List.filter isAsset links <> [] ->
             own out !! "assets" = Some (VArr (List.filter isAsset links)))
         /\ (forall link, In link (List.filter isAsset links) ->
               In link links
               /\ link?."extras"?."type" = VStr "asset"
               /\ truthy link?."extras"?."content"?."title" = true).
Proof.
  destruct (getResourceAdditionalProperties sample_with_assets) as [out|] eqn:Hrun;
    [|vm_compute in Hrun; discriminate Hrun].
  exists out. split; [done|]. split.
  - vm_compute in Hrun. injection Hrun as <-. vm_compute. reflexivity.
  - exact (assets_are_the_titled_asset_links _ _ Hrun).
Defined.

(** ** Statuses *)

Lemma truthy_len {A} (l : list A) : truthy (len l) = negb (Nat.eqb (length l) 0).
Proof.
  destruct l as [|x l]; [done|]. unfold len, num. cbn [truthy length Nat.eqb negb].
  destruct (Qeq_bool _ 0) eqn:Hq; [|done]. apply Qeq_bool_iff in Hq.
  unfold Qeq, inject_Z in Hq. cbn in Hq. lia.
Qed.

Section Statuses.

Variable P : processes.

Definition deletes (e : value) : bool :=
  existsb (strict_eq e?."func_name") [VStr "delete"; ProcessTypes_DELETE_RESOURCE P].

Definition copies (e : value) : bool :=
  existsb (strict_eq e?."func_name") [VStr "copy"; ProcessTypes_COPY_RESOURCE P].

Lemma isRunning_Returns userInfo e b :
  isRunning P userInfo e = Returns b -> b = true -> deletes e || copies e = true.
Proof.
  unfold isRunning. intros H ->.
  apply bind_Returns in H as (x & [_ ->]%destructure_Returns & [= H]).
  apply andb_prop in H as [[_ H]%andb_prop _].
  unfold deletes, copies. cbn [existsb] in *.
  repeat match goal with |- context [strict_eq ?a ?b] => destruct (strict_eq a b) end;
    try done.
Qed.

Lemma running_is_deleting_or_copying (running : list value) :
  Forall (fun e => deletes e || copies e = true) running ->
  negb (Nat.eqb (length running) 0) = existsb deletes running || existsb copies running.
Proof.
  destruct 1 as [|e running He _]; [done|]. cbn [length Nat.eqb negb existsb].
  destruct (deletes e), (copies e); try done. cbn [orb]. by rewrite orb_true_r.
Qed.

(** X11: the statuses that [getResourceStatuses] gives are consistent.  A
    resource is processing exactly when it is being deleted or copied; it is
    published only if it is approved; and the items shown are, in this
    order, the icon of a resource that is not advertised, the label of the
    deletion and the label of the copy, each present exactly when its
    status holds.  On [null] and [undefined] the function throws, its first
    reads being guarded but not that of [advertised]. *)
Theorem statuses_are_consistent (resource userInfo : value) :
  (nullish resource = true -> getResourceStatuses P resource userInfo = Throws TypeError)
  /\ (forall out,
        getResourceStatuses P resource userInfo = Returns out ->
        exists isDeleting isCopying items,
          out?."isDeleting" = VBool isDeleting
          /\ out?."isCopying" = VBool isCopying
          /\ out?."isProcessing" = VBool (isDeleting || isCopying)
          /\ (truthy out?."isPublished" = true ->
              truthy out?."isApproved" = true /\ truthy resource?."is_published" = true)
          /\ out?."items" = VArr items
          /\ (fun item => or item?."tooltipId" item?."labelId") <$> items
             = ((if strict_eq resource?."advertised" (VBool false)
                 then [VStr "resourcesCatalog.unadvertised"] else [])
                ++ (if isDeleting then [VStr "gnviewer.deleting"] else [])
                ++ (if isCopying then [VStr "gnviewer.cloning"] else []))%list).
Proof.
  split.
  - intros Hn. unfold getResourceStatuses.
    assert ((or resource (object []))?."executions" = VUndef) as ->
      by (by destruct resource).
    cbn [defaulted array mbind completion_bind filter_c].
    unfold get. by rewrite Hn.
  - intros out H. unfold getResourceStatuses in H.
    apply bind_Returns in H as (l & _ & H).
    apply bind_Returns in H as (running & Hrunning & H).
    apply bind_Returns in H as (advertised & [_ ->]%get_Returns & [= <-]).
    exists (existsb deletes running), (existsb copies running).
    exists ((if strict_eq resource?."advertised" (VBool false) then [object [
               "type" ↦ VStr "icon";
               "tooltipId" ↦ VStr "resourcesCatalog.unadvertised";
               "glyph" ↦ VStr "eye-slash"
             ]] else [])
            ++ (if existsb deletes running then [object [
                  "type" ↦ VStr "text";
                  "labelId" ↦ VStr "gnviewer.deleting";
                  "variant" ↦ VStr "danger"
                ]] else [])
            ++ (if existsb copies running then [object [
                  "type" ↦ VStr "text";
                  "labelId" ↦ VStr "gnviewer.cloning";
                  "variant" ↦ VStr "primary"
                ]] else []))%list.
    split; [by rewrite field_object|]. split; [by rewrite field_object|]. split.
    + rewrite field_object.
      change (VBool (truthy (len running))
              = VBool (existsb deletes running || existsb copies running)).
      f_equal. rewrite truthy_len. apply running_is_deleting_or_copying.
      apply filter_c_Returns in Hrunning as (q & Hq & ->).
      apply Forall_forall. intros e [He Hqe]%list_elem_of_In%filter_In.
      exact (isRunning_Returns userInfo e (q e) (Hq e He) Hqe).
    + split; [|split; [by rewrite field_object|]].
      * rewrite !field_object.
        change (truthy (and resource?."is_approved" resource?."is_published") = true ->
                truthy resource?."is_approved" = true
                /\ truthy resource?."is_published" = true).
        rewrite truthy_and. by intros [? ?]%andb_prop.
      * destruct (strict_eq resource?."advertised" (VBool false)),
          (existsb deletes running), (existsb copies running);
          cbn [app fmap list_fmap]; rewrite ?field_object; reflexivity.
Qed.

End Statuses.

Definition sample_processes : processes := {|
  ProcessStatus_RUNNING := VStr "running";
  ProcessStatus_READY := VStr "ready";
  ProcessTypes_DELETE_RESOURCE := VStr "deleteResource";
  ProcessTypes_COPY_RESOURCE := VStr "copyResource"
|}.

(** A resource that one of its executions is copying. *)
Example statuses_of_a_copied_resource :
  getResourceStatuses sample_processes
    (object ["is_approved" ↦ VBool true; "is_published" ↦ VBool false;
             "executions" ↦ VArr [object ["func_name" ↦ VStr "copy";
                                          "status" ↦ VStr "running"];
                                  object ["func_name" ↦ VStr "delete";
                                          "status" ↦ VStr "finished"]]])
    VUndef
  = Returns (object [
      "isApproved" ↦ VBool true; "isPublished" ↦ VBool false;
      "isProcessing" ↦ VBool true; "isDeleting" ↦ VBool false; "isCopying" ↦ VBool true;
      "items" ↦ VArr [object ["type" ↦ VStr "text"; "labelId" ↦ VStr "gnviewer.cloning";
                              "variant" ↦ VStr "primary"]]]).
Proof. vm_compute. reflexivity. Qed.

(** ** The layers of a resource *)

Section Layers.

Variable I : imports.








End Layers.

(** A map with two map layers, one of which has its dataset: one layer,
    with the second of the two identifiers drawn. *)
Example layers_of_a_map :
  resourceToLayers sample_imports
    (object ["resource_type" ↦ VStr "map";
             "maplayers" ↦ VArr [
               object ["pk" ↦ num 1; "current_style" ↦ VStr "geonode:roads_blue";
                       "dataset" ↦ object ["pk" ↦ VStr "12"; "alternate" ↦ VStr "geonode:roads";
                                           "subtype" ↦ VStr "3dtiles"]];
               object ["pk" ↦ num 2; "current_style" ↦ VStr "none"]]]) 0
  = (Returns (VArr [
       object ["id" ↦ VStr "uuid-1"; "type" ↦ VStr "3dtiles"; "title" ↦ VUndef;
               "url" ↦ VStr ""; "visibility" ↦ VBool true;
               "extendedParams" ↦ object [
                 "pk" ↦ VStr "12";
                 "mapLayer" ↦ object ["dataset" ↦
                   object ["pk" ↦ VStr "12"; "alternate" ↦ VStr "geonode:roads";
                           "subtype" ↦ VStr "3dtiles"]]];
               "style" ↦ VStr "geonode:roads_blue"]]), 2).
Proof. vm_compute. reflexivity. Qed.

(** ** The fields of a dataset *)

Lemma mapM_Returns_Forall2 {A B} (f : A -> completion B) l r :
  mapM f l = Returns r -> Forall2 (fun x y => f x = Returns y) l r.
Proof.
  revert r. induction l as [|x l IH]; intros r H.
  - injection H as <-. by apply Forall2_nil.
  - cbn in H. destruct (f x) as [b|] eqn:Hx; [|discriminate]. cbn in H.
    destruct (mapM f l) as [r'|]; [|discriminate]. cbn in H. injection H as <-.
    apply Forall2_cons. split; [done|]. by apply IH.
Qed.

(** An attribute that holds a geometry: its type includes ['gml:']. *)
Definition isGeometry (attribute : value) : bool :=
  match includes attribute?."attribute_type" (VStr "gml:") with
  | Returns b => b
  | Throws _ => false
  end.

Definition fieldOf (attribute : value) : value :=
  object ["name" ↦ attribute?."attribute";
          "alias" ↦ attribute?."attribute_label";
          "type" ↦ attribute?."attribute_type"].

(** X13: the fields that [datasetAttributeSetToFields] gives a layer are the
    attributes of the dataset that hold no geometry, in their order, each
    with its name, its label as alias and its type; an attribute whose type
    is a GML type never becomes a field. *)
Theorem fields_are_the_attributes_without_geometry (resource out : value) :
  datasetAttributeSetToFields resource = Returns out ->
  exists attributes,
    defaulted resource?."attribute_set" (VArr []) = VArr attributes
    /\ out = VArr (fieldOf <$> List.filter (fun a => negb (isGeometry a)) attributes)
    /\ forall field, In field (fieldOf <$> List.filter (fun a => negb (isGeometry a)) attributes) ->
         includes field?."type" (VStr "gml:") = Returns false.
Proof.
  unfold datasetAttributeSetToFields. intros H.
  apply bind_Returns in H as (r & [_ ->]%destructure_Returns & H).
  apply bind_Returns in H as (attributes & Hattributes & H).
  apply bind_Returns in H as (kept & Hkept & H).
  apply bind_Returns in H as (fields & Hfields & [= <-]).
  exists attributes.
  assert (defaulted resource?."attribute_set" (VArr []) = VArr attributes) as Ha.
  { destruct (defaulted _ _); try discriminate. by injection Hattributes as ->. }
  split; [done|].
  apply filter_c_Returns in Hkept as (q & Hq & ->).
  assert (forall a, In a attributes ->
            nullish a = false /\ q a = negb (isGeometry a)
            /\ exists b, includes a?."attribute_type" (VStr "gml:") = Returns b) as Hattr.
  { intros a Hin. specialize (Hq a Hin).
    apply bind_Returns in Hq as (a' & [Hn ->]%destructure_Returns & Hq).
    apply fmap_Returns in Hq as (b & Hb & ->). unfold isGeometry. rewrite Hb. eauto. }
  split.
  - f_equal. rewrite (filter_ext_in q (fun a => negb (isGeometry a)))
      in Hfields by (intros a Hin; by apply Hattr).
    rewrite (mapM_pure _ fieldOf) in Hfields; [by injection Hfields as <-|].
    intros a [Hin _]%filter_In. unfold destructure.
    destruct (Hattr a Hin) as (-> & _). done.
  - intros field (a & [Hin Hg]%filter_In & ->)%In_fmap.
    destruct (Hattr a Hin) as (_ & _ & b & Hb).
    unfold fieldOf. rewrite field_object. simpl. rewrite Hb.
    unfold isGeometry in Hg. rewrite Hb in Hg. by destruct b.
Qed.

Lemma fields_are_the_attributes_without_geometry_witness :
  exists attributes,
    defaulted
      (object ["attribute_set" ↦ VArr [
         object ["attribute" ↦ VStr "the_geom";
                 "attribute_type" ↦ VStr "gml:PointPropertyType"];
         object ["attribute" ↦ VStr "name"; "attribute_label" ↦ VStr "Name";
                 "attribute_type" ↦ VStr "xsd:string"]]])?."attribute_set" (VArr [])
    = VArr attributes
    /\ VArr [object ["name" ↦ VStr "name"; "alias" ↦ VStr "Name";
                     "type" ↦ VStr "xsd:string"]]
       = VArr (fieldOf <$> List.filter (fun a => negb (isGeometry a)) attributes)
    /\ forall field,
         In field (fieldOf <$> List.filter (fun a => negb (isGeometry a)) attributes) ->
         includes field?."type" (VStr "gml:") = Returns false.
Proof.
  apply (fields_are_the_attributes_without_geometry
           (object ["attribute_set" ↦ VArr [
              object ["attribute" ↦ VStr "the_geom";
                      "attribute_type" ↦ VStr "gml:PointPropertyType"];
              object ["attribute" ↦ VStr "name"; "attribute_label" ↦ VStr "Name";
                      "attribute_type" ↦ VStr "xsd:string"]]])).
  vm_compute. reflexivity.
Defined.

(** ** A layer and its dataset *)

(** The layer settings of a resource leave a property of the layer as the
    translation sets it: the settings are spread over the layers of type
    [wms] only. *)
Definition keepsProperty (resource : value) (k : string) : Prop :=
  layerType resource = "wms" -> own resource?."data" !! k = None.

Lemma extendedParams_of resource pk params :
  (truthy params = false \/ exists style, params = object ["defaultStyle" ↦ style]) ->
  (object ["pk" ↦ pk; "mapLayer" ↦ object ["dataset" ↦ resource]; Spread params])
    ?."mapLayer" = object ["dataset" ↦ resource]
  /\ (object ["pk" ↦ pk; "mapLayer" ↦ object ["dataset" ↦ resource]; Spread params])?."pk"
     = pk.
Proof.
  intros Hp. rewrite !field_object. simpl rev. simpl resolve.
  destruct Hp as [Hp|(style & ->)].
  - by rewrite (own_falsy _ Hp), !lookup_empty.
  - rewrite !own_object_lookup. simpl rev. simpl resolve. done.
Qed.

Lemma defaultStyleParams_shape (c : completion value) defaultStyle params :
  c = Returns params ->
  c = (if truthy defaultStyle then
         name ← (if truthy defaultStyle?."workspace" then
                   w ← to_string defaultStyle?."workspace";
                   n ← to_string defaultStyle?."name";
                   mret (VStr (w ++ ":" ++ n))
                 else mret defaultStyle?."name");
         mret (object ["defaultStyle" ↦
                 object ["title" ↦ defaultStyle?."sld_title"; "name" ↦ name]])
       else mret defaultStyle) ->
  truthy params = false \/ exists style, params = object ["defaultStyle" ↦ style].
Proof.
  intros Hc ->. destruct (truthy defaultStyle) eqn:Ht.
  - apply bind_Returns in Hc as (name & _ & [= <-]). right. eauto.
  - injection Hc as <-. by left.
Qed.

Section LayerOfDataset.

Variable I : imports.

(** X14: the layer that [resourceToLayerConfig] builds knows its dataset.
    Its type is ['3dtiles'], ['arcgis'] or ['wms'] by the subtype and the
    [ptype] of the resource; unless the layer settings of a [wms] layer say
    otherwise, its [id] is the identifier just drawn, it is visible, and its
    [extendedParams] hold the [pk] of the resource and, as the dataset of
    their [mapLayer], the resource itself: the layer counts as a map layer
    when the map is saved. *)
Theorem layer_knows_its_dataset (resource : value) (n : nat) (layer : value) (n' : nat) :
  resourceToLayerConfig I resource n = (Returns layer, n') ->
  (keepsProperty resource "type" -> layer?."type" = VStr (layerType resource))
  /\ (keepsProperty resource "id" -> layer?."id" = VStr (uuid_at I n))
  /\ (keepsProperty resource "visibility" -> layer?."visibility" = VBool true)
  /\ (keepsProperty resource "extendedParams" ->
      layer?."extendedParams"?."mapLayer"?."dataset" = resource
      /\ layer?."extendedParams"?."pk" = resource?."pk"
      /\ hasMapLayer layer = true).
Proof.
  intros H. unfold resourceToLayerConfig in H.
  returned_step H. apply destructure_Returns in Heqc as [_ ->].
  do 2 returned_step H.
  pose proof (defaultStyleParams_shape _ _ _ Heqc0 eq_refl) as Hparams.
  destruct (extendedParams_of resource resource?."pk" a0 Hparams) as [HmapLayer Hpk].
  unfold keepsProperty, layerType.
  destruct (is_str resource?."subtype" "3dtiles").
  { repeat returned_step H. injection H as <- <-. unfold hasMapLayer.
    rewrite !field_object. simpl rev. simpl resolve. cbn [default from_option id].
    rewrite HmapLayer, Hpk, field_object, truthy_object.
    rewrite ?own_and_lookup by done. simpl rev. simpl resolve. done. }
  destruct (is_str resource?."ptype" GXP_PTYPES.REST_MAP
            || is_str resource?."ptype" GXP_PTYPES.REST_IMG).
  { repeat returned_step H. injection H as <- <-. unfold hasMapLayer.
    assert (forall k, k <> "queryable" -> k <> "name" -> own a2 !! k = None) as Hnamed.
    { intros k Hq Hn. destruct (isImageServerUrl I _).
      - injection Heqc2 as <-. rewrite own_object_lookup. simpl. by rewrite decide_False.
      - apply bind_Returns in Heqc2 as (s & _ & [= <-]). rewrite own_object_lookup. simpl.
        by rewrite decide_False. }
    rewrite !field_object. simpl rev. simpl resolve. cbn [default from_option id].
    rewrite HmapLayer, Hpk, field_object, truthy_object.
    rewrite ?own_and_lookup by done. rewrite !Hnamed by done. simpl rev. simpl resolve. done. }
  repeat returned_step H. injection H as <- <-.
  assert (forall k, k <> "serverType" -> own a7 !! k = None) as Hvendor.
  { intros k Hk. destruct (is_str resource?."sourcetype" SOURCE_TYPES.REMOTE).
    - apply bind_Returns in Heqc7 as (inc & _ & [= <-]). apply own_and_lookup.
      simpl. by rewrite decide_False.
    - by injection Heqc7 as <-. }
  assert (forall k, k <> "bbox" -> k <> "bboxError" ->
            own (if truthy a then object ["bbox" ↦ a]
                 else object ["bboxError" ↦ VBool true]) !! k = None) as Hbbox.
  { intros k Hb He. destruct (truthy a); rewrite own_object_lookup; simpl;
      by rewrite decide_False. }
  unfold hasMapLayer.
  split; [|split; [|split]]; intros Hk; specialize (Hk eq_refl);
    rewrite !field_object; simpl rev; simpl resolve;
    rewrite Hk, Hvendor, ?Hbbox by done; rewrite ?own_and_lookup by done;
    cbn [default from_option id]; [done..|].
  rewrite HmapLayer, Hpk, field_object, truthy_object. done.
Qed.

End LayerOfDataset.

(** The layer of a dataset served by the local GeoServer. *)
Example layer_of_a_dataset :
  exists layer,
    resourceToLayerConfig sample_imports
      (object ["pk" ↦ VStr "12"; "alternate" ↦ VStr "geonode:roads"; "title" ↦ VStr "Roads";
               "links" ↦ VArr [object ["link_type" ↦ VStr "OGC:WMS";
                                       "url" ↦ VStr "/geoserver/ows"]]]) 4
    = (Returns layer, 5)
    /\ layer?."id" = VStr "uuid-4"
    /\ layer?."type" = VStr "wms"
    /\ layer?."name" = VStr "geonode:roads"
    /\ layer?."extendedParams"?."mapLayer"?."dataset"?."pk" = VStr "12".
Proof. eexists. split; [vm_compute; reflexivity|]. repeat split. Qed.

Lemma layer_knows_its_dataset_witness :
  exists layer,
    resourceToLayerConfig sample_imports sample_dataset 0 = (Returns layer, 1)
    /\ layer?."type" = VStr "wms"
    /\ layer?."id" = VStr (uuid_at sample_imports 0)
    /\ layer?."extendedParams"?."mapLayer"?."dataset" = sample_dataset
    /\ hasMapLayer layer = true.
Proof.
  destruct (resourceToLayerConfig_returns sample_imports sample_dataset 0) as (layer & Hlayer);
    [reflexivity..|].
  exists layer. split; [exact Hlayer|].
  destruct (layer_knows_its_dataset sample_imports sample_dataset 0 layer 1 Hlayer)
    as (Htype & Hid & _ & Hparams).
  split; [apply Htype; intros _; reflexivity|].
  split; [apply Hid; intros _; reflexivity|].
  destruct Hparams as (Hdataset & _ & Hmap); [intros _; reflexivity|].
  split; [exact Hdataset|exact Hmap].
Defined.

(** ** The layers of a map configuration *)

Lemma attachMapLayer_id maplayers layer out :
  attachMapLayer maplayers layer = out -> truthy out = true -> nullish layer = false ->
  out?."id" = layer?."id"
  /\ (hasMapLayer out = true ->
      In out?."extendedParams"?."mapLayer" maplayers
      /\ strict_eq out?."extendedParams"?."mapLayer"?."extra_params"?."msId" layer?."id"
         = true).
Proof.
  intros <- Hout Hn. unfold attachMapLayer in *.
  set (matches := fun mLayer : value =>
         negb (strict_eq layer?."id" VUndef)
         && strict_eq mLayer?."extra_params"?."msId" layer?."id") in *.
  unfold find in *. destruct (List.find matches maplayers) as [mapLayer|] eqn:Hfind;
    cbn [default from_option id] in *.
  - apply find_some in Hfind as [Hin Hm]. unfold matches in Hm.
    apply andb_prop in Hm as [Hdefined Hm]. apply negb_true_iff in Hdefined.
    rewrite (matching_entry_truthy mapLayer layer?."id" Hdefined Hm) in *.
    rewrite !field_object. simpl rev. simpl resolve. rewrite own_and_lookup by done.
    cbn [default from_option id]. rewrite field_object. simpl rev. simpl resolve.
    cbn [default from_option id]. rewrite (field_own layer "id") in Hm |- * by done.
    split; [by destruct (own layer !! "id")|]. intros _. split; [done|done].
  - unfold not in *. cbn [truthy negb andb] in *.
    destruct (truthy layer?."extendedParams"?."mapLayer") eqn:Hml; [done|].
    split; [done|]. unfold hasMapLayer. by rewrite Hml.
Qed.

(** The local constants [layers] and, before the translation of their
    datasets, [addMapLayers] of [toMapStoreMapConfig]. *)
Definition keptLayers (maplayers saved : list value) : list value :=
  List.filter truthy (attachMapLayer maplayers <$> List.filter foreground saved).

Definition missingMapLayers (maplayers layers : list value) : list value :=
  List.filter (fun mLayer => negb (truthy (find (fun layer =>
      negb (strict_eq layer?."id" VUndef)
      && strict_eq mLayer?."extra_params"?."msId" layer?."id") layers)))
    (List.filter (fun mLayer => truthy mLayer?."dataset") maplayers).

Definition isBackground (layer : value) : bool := is_str layer?."group" "background".

Lemma in_background_Returns l r :
  filter_c in_background l = Returns r -> r = List.filter isBackground l.
Proof.
  intros (q & Hq & ->)%filter_c_Returns. apply filter_ext_in. intros x Hx.
  specialize (Hq x Hx). unfold in_background in Hq.
  apply bind_Returns in Hq as (g & [_ ->]%get_Returns & [= <-]). done.
Qed.

(** A background layer of the base configuration as the map configuration
    has it: itself, or itself with its visibility set. *)
Definition isBackgroundOf (base layer : value) : Prop :=
  layer = base \/ exists visible : bool, layer = object [Spread base; "visibility" ↦ VBool visible].

Lemma mapM_run_Forall2 {A B} (f : A -> effect B) l n out n' :
  mapM f l n = (Returns out, n') ->
  Forall2 (fun x y => exists k k', f x k = (Returns y, k')) l out.
Proof.
  revert n out n'. induction l as [|x l IH]; intros n out n' H.
  - cbn in H. injection H as <- <-. by apply Forall2_nil.
  - cbn [mapM] in H. rewrite run_bind in H.
    destruct (f x n) as [[y|] n1] eqn:Hx; [|discriminate].
    rewrite run_bind in H.
    destruct (mapM f l n1) as [[ys|] n2] eqn:Hl; [|discriminate].
    rewrite run_ret in H. injection H as <- <-.
    apply Forall2_cons. split; [eauto|]. by eapply IH.
Qed.

(** The layers of the configuration: the backgrounds of the base
    configuration, the layers kept from the saved map, and the layers of
    the map layers that the saved map lacks. *)
Lemma toMapStoreMapConfig_shape I resource baseConfig n cfg n' :
  toMapStoreMapConfig I resource baseConfig n = (Returns cfg, n') ->
  exists baseLayers saved maplayers backgroundLayers addMapLayers,
    or baseConfig?."map"?."layers" (VArr []) = VArr baseLayers
    /\ or (or resource (object []))?."data"?."map"?."layers" (VArr []) = VArr saved
    /\ defaulted (or resource (object []))?."maplayers" (VArr []) = VArr maplayers
    /\ Forall (fun layer => nullish layer = false) saved
    /\ cfg?."map"?."layers"
       = VArr (backgroundLayers ++ keptLayers maplayers saved ++ addMapLayers)
    /\ Forall2 isBackgroundOf (List.filter isBackground baseLayers) backgroundLayers
    /\ Forall2 (fun mLayer layer =>
                  exists k k', resourceToLayerConfig I mLayer?."dataset" k = (Returns layer, k'))
         (missingMapLayers maplayers (keptLayers maplayers saved)) addMapLayers.
Proof.
  unfold toMapStoreMapConfig. intros H.
  do 5 returned_step H.
  rewrite run_bind in H.
  destruct (@mapM effect _ _ _ _ _ _ n) as [[added|e] n1] eqn:Hadded; [|discriminate H].
  rewrite run_ret in H. injection H as <- <-.
  apply bind_Returns in Heqc as (baseLayers & HbaseLayers & ->%in_background_Returns).
  assert (or baseConfig?."map"?."layers" (VArr []) = VArr baseLayers) as Hbase.
  { destruct (or _ _); try discriminate. by injection HbaseLayers as ->. }
  apply mapStoreLayers_Returns in Heqc2 as (saved & ml & Hsaved & Hml & Hn & ->).
  rewrite Hml in Heqc3. injection Heqc3 as <-.
  exists baseLayers, saved, ml, a1, added.
  split; [done|]. split; [done|]. split; [done|]. split; [done|].
  split; [by read_object|]. split.
  - destruct (not a0).
    + injection Heqc1 as <-. clear. induction (List.filter isBackground baseLayers) as [|x l IH].
      * by apply Forall2_nil.
      * apply Forall2_cons. split; [by left|done].
    + apply mapM_Returns_Forall2 in Heqc1. eapply Forall2_impl; [exact Heqc1|].
      intros b o Ho. apply bind_Returns in Ho as (same & _ & [= <-]). right. eauto.
  - by apply mapM_run_Forall2 in Hadded.
Qed.

(** The map layer of the resource that goes with a layer of the saved
    map: the first whose [extra_params.msId] is the [id] of the layer. *)
Definition matchingMapLayer (maplayers : list value) (layer : value) : option value :=
  List.find (fun mLayer =>
    negb (strict_eq layer?."id" VUndef)
    && strict_eq mLayer?."extra_params"?."msId" layer?."id") maplayers.

(** The layers of the saved map that stay: those with a map layer of the
    resource, and those that are bound to no map layer at all. *)
Definition stays (maplayers : list value) (layer : value) : bool :=
  match matchingMapLayer maplayers layer with
  | Some _ => true
  | None => negb (hasMapLayer layer) && truthy layer
  end.

(** A layer of the saved map as the configuration has it: with its map
    layer, when it has one, and unchanged otherwise. *)
Definition isKeptFrom (maplayers : list value) (saved layer : value) : Prop :=
  layer = attachMapLayer maplayers saved
  /\ layer?."id" = saved?."id"
  /\ match matchingMapLayer maplayers saved with
     | Some mapLayer => layer?."extendedParams"?."mapLayer" = mapLayer
     | None => layer = saved
     end.

Lemma attachMapLayer_stays maplayers layer :
  nullish layer = false ->
  truthy (attachMapLayer maplayers layer) = stays maplayers layer
  /\ (stays maplayers layer = true ->
      isKeptFrom maplayers layer (attachMapLayer maplayers layer)).
Proof.
  intros Hn. unfold stays, isKeptFrom, matchingMapLayer, hasMapLayer.
  destruct (List.find _ maplayers) as [mapLayer|] eqn:Hfind.
  - pose proof Hfind as [Hin Hm]%find_some.
    apply andb_prop in Hm as [Hdefined Hm]. apply negb_true_iff in Hdefined.
    pose proof (matching_entry_truthy mapLayer layer?."id" Hdefined Hm) as Ht.
    assert (attachMapLayer maplayers layer
            = object [
                Spread layer;
                Spread (and (VBool (is_str layer?."type" "wms"))
                          (object ["style" ↦
                             or (or mapLayer?."current_style" layer?."style") (VStr "")]));
                "extendedParams" ↦
                  object [Spread layer?."extendedParams"; "mapLayer" ↦ mapLayer]]) as ->.
    { unfold attachMapLayer, find. rewrite Hfind. cbn [default from_option id]. by rewrite Ht. }
    split; [apply truthy_object|]. intros _. split; [done|].
    rewrite !field_object. simpl rev. simpl resolve. rewrite own_and_lookup by done.
    cbn [default from_option id]. rewrite field_object. simpl rev. simpl resolve.
    cbn [default from_option id]. rewrite (field_own layer "id") by done.
    split; [by destruct (own layer !! "id")|done].
  - assert (attachMapLayer maplayers layer
            = if truthy layer?."extendedParams"?."mapLayer" then VNull else layer) as ->.
    { unfold attachMapLayer, find. rewrite Hfind. cbn [default from_option id].
      unfold not. cbn [truthy negb andb]. done. }
    destruct (truthy layer?."extendedParams"?."mapLayer"); cbn [negb andb]; [done|].
    split; [done|]. intros _. done.
Qed.

Lemma keptLayers_stay maplayers saved :
  Forall (fun layer => nullish layer = false) saved ->
  keptLayers maplayers saved
  = attachMapLayer maplayers
      <$> List.filter (fun layer => foreground layer && stays maplayers layer) saved
  /\ Forall2 (isKeptFrom maplayers)
       (List.filter (fun layer => foreground layer && stays maplayers layer) saved)
       (keptLayers maplayers saved).
Proof.
  unfold keptLayers. induction 1 as [|layer saved Hn _ [IHeq IH]]; [split; [done|by apply Forall2_nil]|].
  cbn [List.filter]. destruct (foreground layer); cbn [andb]; [|done].
  cbn [fmap list_fmap List.filter].
  destruct (attachMapLayer_stays maplayers layer Hn) as [-> Hkept].
  destruct (stays maplayers layer).
  - cbn [fmap list_fmap]. split; [by f_equal|]. apply Forall2_cons. split; [by apply Hkept|done].
  - done.
Qed.

(** X15: the layers of the map that [toMapStoreMapConfig] keeps follow the
    map layers of the resource.  After the backgrounds of the base
    configuration and before the layers added for the map layers that the
    saved map lacks, the configuration has, in their order, the layers of
    the saved map that are not backgrounds and that stay: a layer with a
    map layer of the resource whose [extra_params.msId] is its [id], which
    then carries the first such map layer, and a layer bound to no map
    layer, unchanged.  A layer bound to a map layer that the resource no
    longer has is dropped, so that every layer kept that is bound to a map
    layer is bound to one of the resource, with its [id]. *)
Theorem kept_layers_follow_the_maplayers (I : imports) (resource baseConfig : value)
    (n : nat) (cfg : value) (n' : nat) :
  toMapStoreMapConfig I resource baseConfig n = (Returns cfg, n') ->
  exists baseLayers saved maplayers backgroundLayers addMapLayers,
    or baseConfig?."map"?."layers" (VArr []) = VArr baseLayers
    /\ or (or resource (object []))?."data"?."map"?."layers" (VArr []) = VArr saved
    /\ defaulted (or resource (object []))?."maplayers" (VArr []) = VArr maplayers
    /\ cfg?."map"?."layers"
       = VArr (backgroundLayers ++ keptLayers maplayers saved ++ addMapLayers)
    /\ length backgroundLayers = length (List.filter isBackground baseLayers)
    /\ length addMapLayers
       = length (missingMapLayers maplayers (keptLayers maplayers saved))
    /\ Forall2 (isKeptFrom maplayers)
         (List.filter (fun layer => foreground layer && stays maplayers layer) saved)
         (keptLayers maplayers saved)
    /\ (forall layer,
          In layer saved -> hasMapLayer layer = true ->
          matchingMapLayer maplayers layer = None -> stays maplayers layer = false)
    /\ forall layer,
         In layer (keptLayers maplayers saved) ->
         truthy layer = true
         /\ (hasMapLayer layer = true ->
             In layer?."extendedParams"?."mapLayer" maplayers
             /\ strict_eq layer?."extendedParams"?."mapLayer"?."extra_params"?."msId"
                  layer?."id" = true).
Proof.
  intros H. apply toMapStoreMapConfig_shape in H
    as (baseLayers & saved & ml & bg & added & Hbase & Hsaved & Hml & Hn & Hcfg & Hbg & Hadded).
  exists baseLayers, saved, ml, bg, added.
  split; [done|]. split; [done|]. split; [done|]. split; [done|].
  split; [symmetry; by eapply Forall2_length|]. split; [symmetry; by eapply Forall2_length|].
  split; [by apply keptLayers_stay|]. split.
  - intros layer _ Hbound Hnone. unfold stays. by rewrite Hnone, Hbound.
  - intros layer [Hin Ht]%filter_In. split; [done|].
    apply In_fmap in Hin as (original & [Hin _]%filter_In & ->).
    rewrite Forall_forall in Hn. apply list_elem_of_In, Hn in Hin.
    destruct (attachMapLayer_id ml original _ eq_refl Ht Hin) as [Hid Hbound].
    intros Hm. destruct (Hbound Hm) as [? Hmatch]. split; [done|]. by rewrite Hid.
Qed.

(** A map saved with a layer, [rivers], whose map layer the resource no
    longer has, and a resource with a map layer, [airports], that the saved
    map lacks. *)
Definition sample_stale_map : value :=
  object [
    "data" ↦ object ["map" ↦ object ["layers" ↦ VArr (sample_layers ++ [
      object ["id" ↦ VStr "rivers"; "type" ↦ VStr "wms"; "name" ↦ VStr "geonode:rivers";
              "extendedParams" ↦ object ["mapLayer" ↦ object ["pk" ↦ num 6]]]])]];
    "maplayers" ↦ VArr [
      sample_maplayer;
      object ["pk" ↦ num 9; "extra_params" ↦ object ["msId" ↦ VStr "airports"];
              "dataset" ↦ sample_dataset]]
  ].

Definition sample_base_config : value :=
  object ["map" ↦ object ["layers" ↦ VArr [
    object ["group" ↦ VStr "background"; "type" ↦ VStr "osm"; "name" ↦ VStr "mapnik";
            "visibility" ↦ VBool true];
    object ["group" ↦ VStr "background"; "type" ↦ VStr "empty"; "name" ↦ VStr "empty";
            "visibility" ↦ VBool false]]]].

(** The layers of the configuration of that map: the two backgrounds of the
    base configuration, the two layers that stay, and the layer added. *)
Example layers_of_a_stale_map :
  exists cfg layers,
    toMapStoreMapConfig sample_imports sample_stale_map sample_base_config 0
    = (Returns cfg, 1)
    /\ cfg?."map"?."layers" = VArr layers
    /\ (fun layer => or layer?."id" layer?."name") <$> layers
       = [VStr "mapnik"; VStr "empty"; VStr "annotations"; VStr "roads"; VStr "uuid-0"].
Proof. eexists _, _. split; [vm_compute; reflexivity|]. split; vm_compute; reflexivity. Qed.

Lemma kept_layers_follow_the_maplayers_witness :
  exists cfg baseLayers saved maplayers backgroundLayers addMapLayers,
    toMapStoreMapConfig sample_imports sample_stale_map sample_base_config 0
    = (Returns cfg, 1)
    /\ or sample_base_config?."map"?."layers" (VArr []) = VArr baseLayers
    /\ or (or sample_stale_map (object []))?."data"?."map"?."layers" (VArr []) = VArr saved
    /\ defaulted (or sample_stale_map (object []))?."maplayers" (VArr []) = VArr maplayers
    /\ cfg?."map"?."layers"
       = VArr (backgroundLayers ++ keptLayers maplayers saved ++ addMapLayers)
    /\ length backgroundLayers = length (List.filter isBackground baseLayers)
    /\ length addMapLayers
       = length (missingMapLayers maplayers (keptLayers maplayers saved))
    /\ Forall2 (isKeptFrom maplayers)
         (List.filter (fun layer => foreground layer && stays maplayers layer) saved)
         (keptLayers maplayers saved)
    /\ (forall layer,
          In layer saved -> hasMapLayer layer = true ->
          matchingMapLayer maplayers layer = None -> stays maplayers layer = false)
    /\ forall layer,
         In layer (keptLayers maplayers saved) ->
         truthy layer = true
         /\ (hasMapLayer layer = true ->
             In layer?."extendedParams"?."mapLayer" maplayers
             /\ strict_eq layer?."extendedParams"?."mapLayer"?."extra_params"?."msId"
                  layer?."id" = true).
Proof.
  assert (exists cfg,
            toMapStoreMapConfig sample_imports sample_stale_map sample_base_config 0
            = (Returns cfg, 1)) as [cfg Hcfg] by (eexists; vm_compute; reflexivity).
  destruct (kept_layers_follow_the_maplayers
              sample_imports sample_stale_map sample_base_config 0 cfg 1 Hcfg)
    as (baseLayers & saved & maplayers & bg & added & H).
  exists cfg, baseLayers, saved, maplayers, bg, added. split; [exact Hcfg|exact H].
Defined.


(** ** The background layers of a map configuration *)

(** The group of the layer of a dataset is the one that the layer
    settings give, if any. *)
Lemma resourceToLayerConfig_group I resource n layer n' :
  resourceToLayerConfig I resource n = (Returns layer, n') ->
  layer?."group" = default VUndef (layerSetting resource "group").
Proof.
  intros H. unfold resourceToLayerConfig in H.
  returned_step H. apply destructure_Returns in Heqc as [_ ->].
  do 2 returned_step H.
  pose proof (defaultStyleParams_shape _ _ _ Heqc0 eq_refl) as Hparams.
  unfold layerSetting, layerType.
  destruct (is_str resource?."subtype" "3dtiles").
  { repeat returned_step H. injection H as <- <-.
    rewrite !field_object. simpl rev. simpl resolve.
    rewrite ?own_and_lookup by done. done. }
  destruct (is_str resource?."ptype" GXP_PTYPES.REST_MAP
            || is_str resource?."ptype" GXP_PTYPES.REST_IMG).
  { repeat returned_step H. injection H as <- <-.
    assert (forall k, k <> "queryable" -> k <> "name" -> own a2 !! k = None) as Hnamed.
    { intros k Hq Hn. destruct (isImageServerUrl I _).
      - injection Heqc2 as <-. rewrite own_object_lookup. simpl. by rewrite decide_False.
      - apply bind_Returns in Heqc2 as (s & _ & [= <-]). rewrite own_object_lookup. simpl.
        by rewrite decide_False. }
    rewrite !field_object. simpl rev. simpl resolve.
    rewrite ?own_and_lookup by done. rewrite !Hnamed by done. done. }
  repeat returned_step H. injection H as <- <-.
  assert (forall k, k <> "serverType" -> own a7 !! k = None) as Hvendor.
  { intros k Hk. destruct (is_str resource?."sourcetype" SOURCE_TYPES.REMOTE).
    - apply bind_Returns in Heqc7 as (inc & _ & [= <-]). apply own_and_lookup.
      simpl. by rewrite decide_False.
    - by injection Heqc7 as <-. }
  assert (forall k, k <> "bbox" -> k <> "bboxError" ->
            own (if truthy a then object ["bbox" ↦ a]
                 else object ["bboxError" ↦ VBool true]) !! k = None) as Hbbox.
  { intros k Hb He. destruct (truthy a); rewrite own_object_lookup; simpl;
      by rewrite decide_False. }
  rewrite !field_object. simpl rev. simpl resolve.
  change (String.eqb "wms" "wms") with true. cbv iota.
  destruct (own resource?."data" !! "group") as [v|]; [done|].
  rewrite Hvendor, ?Hbbox by done. rewrite ?own_and_lookup by done. done.
Qed.

(** X16: the background layers of the configuration that
    [toMapStoreMapConfig] builds are those of the base configuration, all of
    them and in their order, at the head of the layers; each is as the base
    configuration has it but for its visibility.  The layers kept from the
    saved map follow, none of which is a background layer: the backgrounds
    saved with the map are replaced.  The layers added at the end for the
    map layers that the saved map lacks are in the group that the layer
    settings of their dataset give, and in none without such settings. *)
Theorem backgrounds_come_from_the_base_configuration (I : imports)
    (resource baseConfig : value) (n : nat) (cfg : value) (n' : nat) :
  toMapStoreMapConfig I resource baseConfig n = (Returns cfg, n') ->
  exists baseLayers saved maplayers backgroundLayers addMapLayers,
    or baseConfig?."map"?."layers" (VArr []) = VArr baseLayers
    /\ or (or resource (object []))?."data"?."map"?."layers" (VArr []) = VArr saved
    /\ defaulted (or resource (object []))?."maplayers" (VArr []) = VArr maplayers
    /\ cfg?."map"?."layers"
       = VArr (backgroundLayers ++ keptLayers maplayers saved ++ addMapLayers)
    /\ Forall2 isBackgroundOf (List.filter isBackground baseLayers) backgroundLayers
    /\ Forall (fun layer => isBackground layer = true) backgroundLayers
    /\ Forall (fun layer => isBackground layer = false) (keptLayers maplayers saved)
    /\ Forall2 (fun mLayer layer =>
                  layer?."group" = default VUndef (layerSetting mLayer?."dataset" "group"))
         (missingMapLayers maplayers (keptLayers maplayers saved)) addMapLayers.
Proof.
  intros H. apply toMapStoreMapConfig_shape in H
    as (baseLayers & saved & ml & bg & added & Hbase & Hsaved & Hml & Hn & Hcfg & Hbg & Hadded).
  exists baseLayers, saved, ml, bg, added.
  split; [done|]. split; [done|]. split; [done|]. split; [done|]. split; [done|].
  split; [|split].
  - assert (Forall (fun layer => isBackground layer = true) (List.filter isBackground baseLayers))
      as Hall.
    { apply Forall_forall. intros x Hx%list_elem_of_In. by apply filter_In in Hx as [_ ?]. }
    revert Hall. clear -Hbg. induction Hbg as [|b o base bg Ho _ IH]; intros Hall; [done|].
    apply Forall_cons in Hall as [Hb Hall]. constructor; [|by apply IH].
    destruct Ho as [->|(visible & ->)]; [done|].
    unfold isBackground in *. rewrite field_object. simpl rev. simpl resolve.
    assert (nullish b = false) as Hn by (by destruct b).
    rewrite (field_own b "group") in Hb by done. by destruct (own b !! "group").
  - apply Forall_forall. intros layer [Hin Ht]%list_elem_of_In%filter_In.
    apply In_fmap in Hin as (original & [Hin Hfg]%filter_In & ->).
    apply negb_true_iff in Hfg. fold (isBackground original) in Hfg.
    rewrite Forall_forall in Hn. apply list_elem_of_In, Hn in Hin.
    revert Ht. unfold attachMapLayer.
    destruct (truthy (find _ ml)).
    + intros _. unfold isBackground in *. rewrite field_object. simpl rev. simpl resolve.
      rewrite own_and_lookup by done. rewrite (field_own original "group") in Hfg by done.
      by destruct (own original !! "group").
    + destruct (_ && _); [discriminate|done].
  - eapply Forall2_impl; [exact Hadded|]. intros mLayer layer (k & k' & Hrun).
    by eapply resourceToLayerConfig_group.
Qed.

Lemma backgrounds_come_from_the_base_configuration_witness :
  exists cfg baseLayers saved maplayers backgroundLayers addMapLayers,
    toMapStoreMapConfig sample_imports sample_stale_map sample_base_config 0
    = (Returns cfg, 1)
    /\ or sample_base_config?."map"?."layers" (VArr []) = VArr baseLayers
    /\ or (or sample_stale_map (object []))?."data"?."map"?."layers" (VArr []) = VArr saved
    /\ defaulted (or sample_stale_map (object []))?."maplayers" (VArr []) = VArr maplayers
    /\ cfg?."map"?."layers"
       = VArr (backgroundLayers ++ keptLayers maplayers saved ++ addMapLayers)
    /\ Forall2 isBackgroundOf (List.filter isBackground baseLayers) backgroundLayers
    /\ Forall (fun layer => isBackground layer = true) backgroundLayers
    /\ Forall (fun layer => isBackground layer = false) (keptLayers maplayers saved)
    /\ Forall2 (fun mLayer layer =>
                  layer?."group" = default VUndef (layerSetting mLayer?."dataset" "group"))
         (missingMapLayers maplayers (keptLayers maplayers saved)) addMapLayers.
Proof.
  assert (exists cfg,
            toMapStoreMapConfig sample_imports sample_stale_map sample_base_config 0
            = (Returns cfg, 1)) as [cfg Hcfg] by (eexists; vm_compute; reflexivity).
  destruct (backgrounds_come_from_the_base_configuration
              sample_imports sample_stale_map sample_base_config 0 cfg 1 Hcfg)
    as (baseLayers & saved & maplayers & bg & added & H).
  exists cfg, baseLayers, saved, maplayers, bg, added. split; [exact Hcfg|exact H].
Defined.

(** ** The catalog: responses and the loading flag *)

(** X17: whatever the catalog receives, it stops loading.  While the
    component is mounted, every response, well formed or not, and every
    rejection ends with the loading flag reset, and leaves the query and the
    page as they are; a response that cannot be read leaves the entries as
    they are.  Once the component is unmounted nothing is updated.  And the
    scroll asks for the next page only while nothing is loading. *)
Theorem catalog_always_stops_loading (p : props) (r : pending) (s : state) (response : value) :
  loading (run s (onResponse p r true response)) = false
  /\ q (run s (onResponse p r true response)) = q s
  /\ page (run s (onResponse p r true response)) = page s
  /\ (forall e, responseToEntries p response = Throws e ->
        entries (run s (onResponse p r true response)) = entries s)
  /\ run s (onRejected true)
     = {| entries := entries s; loading := false; page := page s;
          isNextPageAvailable := isNextPageAvailable s; q := q s |}
  /\ run s (onResponse p r false response) = s
  /\ run s (onRejected false) = s
  /\ (shouldScroll s = true -> loading s = false /\ onLoad s = [setPage (page s + 1)]).
Proof.
  unfold onResponse, onRejected.
  split; [|split; [|split; [|split; [|split; [done|split; [done|split; [done|]]]]]]].
  - destruct (responseToEntries p response) as [newEntries|]; [|done].
    destruct (get response "isNextPageAvailable") as [next|]; [|done].
    by destruct (if Nat.eqb _ 1 then _ else _).
  - destruct (responseToEntries p response) as [newEntries|]; [|done].
    destruct (get response "isNextPageAvailable") as [next|]; [|done].
    by destruct (if Nat.eqb _ 1 then _ else _).
  - destruct (responseToEntries p response) as [newEntries|]; [|done].
    destruct (get response "isNextPageAvailable") as [next|]; [|done].
    by destruct (if Nat.eqb _ 1 then _ else _).
  - by intros e ->.
  - unfold shouldScroll. intros [Hl _]%andb_prop. by apply negb_true_iff in Hl.
Qed.

(** ** The download button: a link or an action *)

Section Button.

Import DownloadResource.

(** X18: what [DownloadButton] renders when it renders.  For a download
    that is not safe to fetch, a link that opens the url of the download in a
    new tab, and only if there is such a url; otherwise an element whose
    click calls [onAction], disabled while a download is running.  Never a
    link without a url, and never an action for a download that is not
    safe to fetch. *)
Theorem download_button_links_or_acts (p : DownloadResource.props) (out : rendered) :
  DownloadButton p = Returns out ->
  exists info,
    getDownloadUrlInfo (the_resource p) = Returns info
    /\ match out with
       | Null => True
       | LinkTo _ attrs _ =>
           truthy info?."ajaxSafe" = false
           /\ truthy info?."url" = true
           /\ attrs?."href" = info?."url"
           /\ attrs?."target" = VStr "_blank"
           /\ attrs?."download" = VBool true
       | CallsOnAction _ attrs _ =>
           truthy info?."ajaxSafe" = true
           /\ attrs?."disabled" = VBool (truthy (downloading p))
       end.
Proof.
  unfold DownloadButton. fold (the_resource p). intros H.
  apply bind_Returns in H as (Component & _ & H).
  apply bind_Returns in H as (info & Hinfo & H).
  apply bind_Returns in H as (hidden & _ & H).
  exists info. split; [done|].
  destruct hidden; [by injection H as <-|].
  destruct (truthy info?."ajaxSafe") eqn:Hsafe; cbn [negb] in H.
  - injection H as <-. split; [done|].
    rewrite field_object. simpl rev. simpl resolve. by rewrite !own_and_lookup by done.
  - destruct (truthy info?."url") eqn:Hurl; [|by injection H as <-].
    injection H as <-. rewrite !field_object. simpl rev. simpl resolve. done.
Qed.

(** A document kept on another site, which the user may download. *)
Definition external_document : value :=
  object ["resource_type" ↦ VStr "document"; "sourcetype" ↦ VStr "REMOTE";
          "href" ↦ VStr "https://example.org/report.pdf";
          "perms" ↦ VArr [VStr "view_resourcebase"; VStr "download_resourcebase"]].

Lemma download_button_links_or_acts_witness :
  exists component attrs child,
    DownloadButton (sample_props external_document) = Returns (LinkTo component attrs child)
    /\ attrs?."href" = VStr "https://example.org/report.pdf"
    /\ attrs?."target" = VStr "_blank".
Proof.
  destruct (DownloadButton (sample_props external_document)) as [out|] eqn:Hout;
    [|vm_compute in Hout; discriminate Hout].
  destruct (download_button_links_or_acts _ _ Hout) as (info & Hinfo & H).
  vm_compute in Hinfo. injection Hinfo as <-.
  vm_compute in Hout. injection Hout as <-.
  destruct H as (_ & _ & Hhref & Htarget & _).
  eexists _, _, _. split; [reflexivity|]. split; [exact Hhref|exact Htarget].
Defined.

End Button.

(** ** The direct save: the requests and the failure of the fetch *)

(** The requests of a run, in the order in which they are issued. *)
Definition requests_of (trace : list event) : list GnSave.request :=
  omap (fun e => match e with Issued _ r => Some r | _ => None end) trace.

Lemma requests_of_app t1 t2 :
  requests_of (t1 ++ t2) = (requests_of t1 ++ requests_of t2)%list.
Proof. apply omap_app. Qed.

Lemma requests_of_not_issued t :
  Forall (fun e => is_issued e = false) t -> requests_of t = [].
Proof.
  induction 1 as [|e t He Ht IH]; [done|]. destruct e; try discriminate; exact IH.
Qed.

Lemma requests_of_issued_from (g : nat -> nat) ps :
  requests_of (imap (fun i p => Issued (g i) (call p)) ps) = call <$> ps.
Proof.
  revert g. induction ps as [|p ps IH]; intros g; [done|].
  cbn [imap]. cbn. f_equal. exact (IH (g ∘ Datatypes.S)).
Qed.

Lemma all_rejected ps outcome_of arrival got fetch reason :
  ps !! 0 = Some fetch -> handler fetch = None ->
  outcome_of 0 = Rejected reason ->
  (forall i p, ps !! Datatypes.S i = Some p -> is_Some (handler p)) ->
  got !! 0 = None -> In 0 arrival ->
  exists events remaining,
    all ps outcome_of arrival got = (events, OneRejected reason, remaining).
Proof.
  intros Hfetch Hnone Hout Hcaught. revert got.
  induction arrival as [|i rest IH]; intros got Hgot Hin; [destruct Hin|].
  cbn [all].
  destruct (collected ps got) as [vs|] eqn:Hc.
  { exfalso. apply collected_Some in Hc as [Hlen Hvs].
    destruct (lookup_lt_is_Some_2 vs 0) as [v Hv].
    - rewrite Hlen. by eapply lookup_lt_Some.
    - apply Hvs in Hv. congruence. }
  destruct i as [|i].
  - rewrite Hfetch, Hgot. unfold settle. rewrite Hout, Hnone. eauto.
  - assert (In 0 rest) as Hrest by (destruct Hin as [?|?]; [discriminate|done]).
    destruct (ps !! Datatypes.S i) as [p|] eqn:Hp; [|by apply IH].
    destruct (got !! Datatypes.S i) as [w|] eqn:Hi; [by apply IH|].
    destruct (Hcaught i p Hp) as [h Hh]. unfold settle. rewrite Hh.
    destruct (outcome_of (Datatypes.S i)) as [v|r].
    + destruct (IH (<[Datatypes.S i:=v]> got)) as (events & remaining & ->);
        [by rewrite lookup_insert_ne|done|]. eauto.
    + destruct (IH (<[Datatypes.S i:=h r]> got)) as (events & remaining & ->);
        [by rewrite lookup_insert_ne|done|]. eauto.
Qed.

Section DirectSave.

Variable S : selectors.

(** X19: the requests of the direct save.  It issues the fetch of the
    resource and then one request for each geo limit of the permissions
    payload, in their order and all for the resource of the epic: the
    deletion of the limit when its list of features is empty, its update with
    these features otherwise; and it issues no other request, however the
    requests settle. *)
Theorem direct_save_requests (state : value) (outcome_of : nat -> outcome)
    (arrival : list nat) (limits : list value) :
  let resourceId := or (mapInfoSelector S state)?."id" (getResourceId S state) in
  nullish (getPermissionsPayload S state) = false ->
  (getPermissionsPayload S state)?."geoLimits" = VArr limits ->
  Forall (fun l => limits_ok l = true) limits ->
  requests_of (gnSaveDirectContent S state outcome_of arrival)
  = getResourceByPk resourceId :: (geoLimitsRequest resourceId <$> limits)
  /\ forall l, In l limits ->
       (l?."features" = VArr [] ->
        geoLimitsRequest resourceId l = deleteGeoLimits resourceId l?."id" l?."type")
       /\ (forall f fs, l?."features" = VArr (f :: fs) ->
           geoLimitsRequest resourceId l
           = updateGeoLimits resourceId l?."id" l?."type"
               (object ["features" ↦ VArr (f :: fs)])).
Proof.
  intros resourceId Hpayload Hlimits Hok. split.
  - unfold gnSaveDirectContent, destructure. rewrite Hpayload, Hlimits.
    fold resourceId. unfold calls. cbn [truthy array].
    rewrite (geoLimitsCalls_ok resourceId limits Hok).
    set (ps := {| call := getResourceByPk resourceId; handler := None |}
               :: (geoLimitsPromise resourceId <$> limits)).
    destruct (all ps outcome_of arrival ∅) as [[waiting v] remaining] eqn:Hall.
    pose proof (all_settled_only ps outcome_of arrival ∅) as Hwaiting. rewrite Hall in Hwaiting.
    simpl in Hwaiting.
    assert (forall t, Forall (fun e => is_settled e = true) t ->
                      Forall (fun e => is_issued e = false) t) as Hsettled.
    { intros t Ht. eapply Forall_impl; [exact Ht|]. by intros []. }
    change (Emitted savingResource :: ?l) with ([Emitted savingResource] ++ l)%list.
    rewrite !requests_of_app, (requests_of_issued_from id).
    rewrite (requests_of_not_issued waiting) by (by apply Hsettled).
    rewrite (requests_of_not_issued (late _ _ _ _)) by apply Hsettled, late_settled_only.
    rewrite (requests_of_not_issued (match v with
                                     | AllResolved _ => _ | OneRejected _ => _ | Pending => _
                                     end)).
    + rewrite !app_nil_r. subst ps. cbn. f_equal. by rewrite <- list_fmap_compose.
    + destruct v; [apply caught_not_issued| |constructor].
      eapply Forall_impl; [apply onError_no_saveContent|]. by intros ? [_ ?].
  - intros l Hl. unfold geoLimitsRequest. split.
    + intros ->. done.
    + intros f fs Hf. rewrite Hf.
      assert (strict_eq (VArr (f :: fs))?."length" (num 0) = false) as ->; [|done].
      cbn [field String.eqb Ascii.eqb Bool.eqb]. unfold len, num. cbn [strict_eq length].
      rewrite Nat2Z.inj_succ.
      destruct (Qeq_bool _ _) eqn:Hq; [|done]. apply Qeq_bool_iff in Hq.
      unfold Qeq, inject_Z in Hq. cbn in Hq. lia.
Qed.

(** X20: only the failure of the fetch aborts the direct save.  When the
    fetch of the resource is rejected, whatever becomes of the requests for
    the geo limits, the epic announces the save and then reports the error:
    [saveError] with the data or the message of the rejection and the error
    notification; it emits neither [saveContent] nor [resetGeoLimits]. *)
Theorem failed_fetch_aborts_the_direct_save (state : value) (outcome_of : nat -> outcome)
    (arrival : list nat) (limits : list value) (reason : value) :
  let resourceId := or (mapInfoSelector S state)?."id" (getResourceId S state) in
  nullish (getPermissionsPayload S state) = false ->
  (getPermissionsPayload S state)?."geoLimits" = VArr limits ->
  Forall (fun l => limits_ok l = true) limits ->
  outcome_of 0 = Rejected reason ->
  nullish reason = false ->
  In 0 arrival ->
  actions_of (gnSaveDirectContent S state outcome_of arrival)
  = [savingResource;
     saveError (or reason?."data" reason?."message");
     errorNotification (object [
       "title" ↦ VStr "map.mapError.errorTitle";
       "message" ↦ or (or reason?."data"?."detail" reason?."message")
                      (VStr "map.mapError.errorDefault")])].
Proof.
  intros resourceId Hpayload Hlimits Hok Hfetch Hreason Harrival.
  unfold gnSaveDirectContent, destructure. rewrite Hpayload, Hlimits.
  fold resourceId. unfold calls. cbn [truthy array].
  rewrite (geoLimitsCalls_ok resourceId limits Hok).
  set (ps := {| call := getResourceByPk resourceId; handler := None |}
             :: (geoLimitsPromise resourceId <$> limits)).
  destruct (all_rejected ps outcome_of arrival ∅
              {| call := getResourceByPk resourceId; handler := None |} reason)
    as (events & remaining & Hall); [done..| | |done|].
  { intros i p Hp. change ((geoLimitsPromise resourceId <$> limits) !! i = Some p) in Hp.
    rewrite list_lookup_fmap in Hp.
    destruct (limits !! i); [|discriminate]. injection Hp as <-. by eexists. }
  { apply lookup_empty. }
  rewrite Hall.
  pose proof (all_settled_only ps outcome_of arrival ∅) as Hevents. rewrite Hall in Hevents.
  simpl in Hevents.
  assert (onError reason
          = Returns [saveError (or reason?."data" reason?."message");
                     errorNotification (object [
                       "title" ↦ VStr "map.mapError.errorTitle";
                       "message" ↦ or (or reason?."data"?."detail" reason?."message")
                                      (VStr "map.mapError.errorDefault")])]) as ->.
  { unfold onError. by rewrite (get_not_nullish _ _ Hreason). }
  cbn [emit].
  change (Emitted savingResource :: ?l) with ([Emitted savingResource] ++ l)%list.
  rewrite !actions_of_app, actions_of_issued, (actions_of_settled events Hevents),
    actions_of_emitted, (actions_of_settled _ (late_settled_only _ _ _ _)).
  reflexivity.
Qed.

End DirectSave.

(** The fetch is refused; the deletion of the second limits succeeds and
    the update of the first is refused too. *)
Definition refused_outcomes (i : nat) : outcome :=
  match i with
  | 0 => Rejected (object ["data" ↦ object ["detail" ↦ VStr "Not found."]])
  | 1 => Rejected (object ["status" ↦ num 403])
  | _ => Resolved (VStr "")
  end.

Lemma direct_save_requests_witness :
  requests_of (gnSaveDirectContent sample_selectors sample_state sample_outcomes [2; 0; 1])
  = [getResourceByPk (num 12);
     updateGeoLimits (num 12) (num 4) (VStr "user")
       (object ["features" ↦ VArr [object ["type" ↦ VStr "Feature"]]]);
     deleteGeoLimits (num 12) (num 9) (VStr "group")].
Proof.
  destruct (direct_save_requests sample_selectors sample_state sample_outcomes [2; 0; 1]
              sample_limits) as [Hrequests _].
  - reflexivity.
  - vm_compute. reflexivity.
  - repeat constructor.
  - rewrite Hrequests. vm_compute. reflexivity.
Defined.

Lemma failed_fetch_aborts_the_direct_save_witness :
  actions_of (gnSaveDirectContent sample_selectors sample_state refused_outcomes [2; 1; 0])
  = [savingResource;
     saveError (object ["detail" ↦ VStr "Not found."]);
     errorNotification (object ["title" ↦ VStr "map.mapError.errorTitle";
                                "message" ↦ VStr "Not found."])].
Proof.
  rewrite (failed_fetch_aborts_the_direct_save sample_selectors sample_state refused_outcomes
             [2; 1; 0] sample_limits
             (object ["data" ↦ object ["detail" ↦ VStr "Not found."]])).
  - vm_compute. reflexivity.
  - reflexivity.
  - vm_compute. reflexivity.
  - repeat constructor.
  - reflexivity.
  - reflexivity.
  - simpl. auto.
Defined.


(** ** The catalog: pages accumulate *)

(** The state once the request that an effect has issued, if any, has been
    answered by [response]. *)
Definition answered (p : props) (s : state) (effect : list update * option pending)
    (response : value) : state :=
  match snd effect with
  | Some r => run (run s (fst effect)) (onResponse p r true response)
  | None => run s (fst effect)
  end.

(** A new search: the effect on [q], and its response. *)
Definition searched (p : props) (s : state) (response : value) : state :=
  answered p s (queryEffect p s) response.

(** A scroll to the end of the list: [onLoad], then the effect on [page] in
    the next render, and its response. *)
Definition scrolled (p : props) (s : state) (response : value) : state :=
  let s' := run s (onLoad s) in
  answered p s' (pageEffect p s') response.

(** A response that the catalog can read, with the entries it holds. *)
Definition readable (p : props) (response : value) (found : list value) : Prop :=
  nullish response = false /\ responseToEntries p response = Returns (VArr found).

Lemma searched_readable p s response found :
  request p = true -> loading s = false -> readable p response found ->
  searched p s response
  = {| entries := VArr found; loading := false; page := 1;
       isNextPageAvailable := response?."isNextPageAvailable"; q := q s |}.
Proof.
  intros Hr Hl [Hn Hfound]. unfold searched, answered, queryEffect, updateRequest.
  cbn [apply loading]. rewrite Hl, Hr. cbn [negb andb fst snd].
  unfold onResponse. cbn [requested_page captured_entries]. rewrite Hfound.
  rewrite (get_not_nullish _ _ Hn). cbn [Nat.eqb].
  by destruct (scrollContainer p).
Qed.

Lemma scrolled_readable p s response old found :
  request p = true -> loading s = false -> 1 <= page s -> entries s = VArr old ->
  readable p response found ->
  scrolled p s response
  = {| entries := VArr (old ++ found); loading := false; page := page s + 1;
       isNextPageAvailable := response?."isNextPageAvailable"; q := q s |}.
Proof.
  intros Hr Hl Hp Hold [Hn Hfound]. unfold scrolled, answered, onLoad, pageEffect.
  cbn [run foldl apply page].
  assert (Nat.ltb 1 (page s + 1) = true) as -> by (apply Nat.ltb_lt; lia).
  unfold updateRequest. cbn [loading]. rewrite Hl, Hr. cbn [negb andb fst snd].
  rewrite andb_false_r. cbn [app run foldl apply].
  unfold onResponse. cbn [requested_page captured_entries entries]. rewrite Hfound.
  rewrite (get_not_nullish _ _ Hn).
  assert (Nat.eqb (page s + 1) 1 = false) as -> by (apply Nat.eqb_neq; lia).
  rewrite Hold. done.
Qed.

Lemma last_cons {A} (x d : A) l : List.last (x :: l) d = List.last l x.
Proof.
  revert x d. induction l as [|a l IH]; intros x d; [done|].
  change (List.last (a :: l) d = List.last (a :: l) x). by rewrite !IH.
Qed.

Lemma scrolled_all p s more founds old last :
  request p = true ->
  Forall2 (readable p) more founds ->
  loading s = false -> 1 <= page s -> entries s = VArr old ->
  isNextPageAvailable s = last?."isNextPageAvailable" ->
  entries (foldl (scrolled p) s more) = VArr (old ++ concat founds)
  /\ page (foldl (scrolled p) s more) = page s + length more
  /\ q (foldl (scrolled p) s more) = q s
  /\ loading (foldl (scrolled p) s more) = false
  /\ isNextPageAvailable (foldl (scrolled p) s more)
     = (List.last more last)?."isNextPageAvailable".
Proof.
  intros Hr Hmore. revert s old last.
  induction Hmore as [|response fs more founds Hresponse Hmore IH];
    intros s old last Hl Hp He Hn.
  - cbn. rewrite app_nil_r. repeat split; try done; lia.
  - cbn [foldl concat length].
    rewrite (scrolled_readable p s response old fs Hr Hl Hp He Hresponse).
    destruct (IH {| entries := VArr (old ++ fs); loading := false; page := page s + 1;
                    isNextPageAvailable := response?."isNextPageAvailable"; q := q s |}
                 (old ++ fs)%list response) as (IHe & IHp & IHq & IHl & IHn);
      [done|cbn; lia|done|done|].
    rewrite IHe, IHp, IHq, IHl, IHn. rewrite <- app_assoc. cbn [page q].
    rewrite last_cons. repeat split; try done; lia.
Qed.

(** X21: the catalog accumulates its pages.  After a search, answered by a
    first response, and any number of scrolls to the end of the list, each
    answered before the next, the entries are those of all the responses, in
    the order of the pages; the page is the number of responses, the query is
    unchanged and nothing is loading. *)
Theorem catalog_accumulates_pages (p : props) (s : state) (first : value)
    (found : list value) (more : list value) (founds : list (list value)) :
  request p = true ->
  loading s = false ->
  readable p first found ->
  Forall2 (readable p) more founds ->
  let final := foldl (scrolled p) (searched p s first) more in
  entries final = VArr (found ++ concat founds)
  /\ page final = 1 + length more
  /\ q final = q s
  /\ loading final = false
  /\ isNextPageAvailable final = (List.last more first)?."isNextPageAvailable".
Proof.
  intros Hr Hl Hfirst Hmore final. subst final.
  rewrite (searched_readable p s first found Hr Hl Hfirst).
  set (s1 := {| entries := VArr found; loading := false; page := 1;
                isNextPageAvailable := first?."isNextPageAvailable"; q := q s |}).
  change (1 + length more) with (page s1 + length more). change (q s) with (q s1).
  apply (scrolled_all p s1 more founds found first); [done|done|done|cbn; lia|done|done].
Qed.

Definition third_page : value :=
  object ["resources" ↦ VArr [object ["pk" ↦ num 4]]; "isNextPageAvailable" ↦ VBool false].

Lemma catalog_accumulates_pages_witness :
  entries (foldl (scrolled sample_catalog) (searched sample_catalog initial first_page)
             [second_page; third_page])
  = VArr [object ["pk" ↦ num 1]; object ["pk" ↦ num 2]; object ["pk" ↦ num 3];
          object ["pk" ↦ num 4]]
  /\ page (foldl (scrolled sample_catalog) (searched sample_catalog initial first_page)
             [second_page; third_page]) = 3.
Proof.
  destruct (catalog_accumulates_pages sample_catalog initial first_page
              [object ["pk" ↦ num 1]; object ["pk" ↦ num 2]]
              [second_page; third_page]
              [[object ["pk" ↦ num 3]]; [object ["pk" ↦ num 4]]])
    as (Hentries & Hpage & _).
  - reflexivity.
  - reflexivity.
  - split; [reflexivity|vm_compute; reflexivity].
  - repeat constructor; vm_compute; reflexivity.
  - split; [exact Hentries|exact Hpage].
Defined.

(** ** Uploads: a parsed list stays as it is *)

Lemma comparable_Permutation key l l' :
  l ≡ₚ l' -> comparable key l = true -> comparable key l' = true.
Proof.
  unfold comparable. rewrite !forallb_forall. intros Hp H x Hx%list_elem_of_In.
  rewrite <- Hp in Hx. apply list_elem_of_In in Hx. specialize (H x Hx).
  rewrite forallb_forall in H |- *. intros y Hy%list_elem_of_In.
  rewrite <- Hp in Hy. by apply H, list_elem_of_In.
Qed.

Lemma sorted_stays key l :
  StronglySorted (not_before key) l -> foldr (insert_by (precedes key desc)) [] l = l.
Proof.
  induction 1 as [|x l Hs IH Hx]; [done|]. cbn [foldr]. rewrite IH.
  destruct l as [|y l]; [done|]. cbn [insert_by].
  apply Forall_cons in Hx as [(r & Hr & Hne) _]. unfold precedes. rewrite Hr. by destruct r.
Qed.

Lemma parseUploadResponse_fixed upload out :
  parseUploadResponse upload = Returns out -> parseUploadResponse out = Returns out.
Proof.
  unfold parseUploadResponse. intros H.
  apply bind_Returns in H as (l & _ & H).
  apply fmap_Returns in H as (sorted & Hsorted & ->). cbn [iterate mbind completion_bind].
  pose proof Hsorted as Hspec. apply orderBy_desc_spec in Hspec as [Hperm Hstrong].
  assert (uniqBy sorted "id" = sorted) as ->.
  { apply uniqBy_from_distinct; [|by apply Forall_forall].
    apply (distinct_by_Permutation "id" (uniqBy l "id")); [done|]. apply uniqBy_from_spec. }
  unfold orderBy in *. destruct (comparable "create_date" (uniqBy l "id")) eqn:Hc; [|discriminate].
  rewrite (comparable_Permutation _ _ sorted (symmetry Hperm) Hc).
  by rewrite sorted_stays.
Qed.

(** X22: a parsed list of uploads stays as it is.  [parseUploadResponse]
    leaves its own results unchanged, and so those of
    [processUploadResponse]: a list that is already without duplicates and
    ordered by date is neither reordered nor shortened. *)
Theorem parsed_uploads_stay_as_they_are (upload out : value) :
  parseUploadResponse upload = Returns out \/ processUploadResponse upload = Returns out ->
  parseUploadResponse out = Returns out.
Proof.
  intros [H|H]; [by apply (parseUploadResponse_fixed upload)|].
  unfold processUploadResponse in H.
  apply bind_Returns in H as (l & _ & H). apply bind_Returns in H as (newResponse & _ & H).
  by apply (parseUploadResponse_fixed (VArr newResponse)).
Qed.

Lemma parsed_uploads_stay_as_they_are_witness :
  parseUploadResponse
    (VArr [object ["id" ↦ num 3; "create_date" ↦ VStr "2024-01-05"];
           object ["exec_id" ↦ VStr "e1"; "created" ↦ VStr "2024-01-03";
                   "status" ↦ VStr "finished";
                   "create_date" ↦ VStr "2024-01-03"; "id" ↦ VStr "e1"]])
  = Returns
      (VArr [object ["id" ↦ num 3; "create_date" ↦ VStr "2024-01-05"];
             object ["exec_id" ↦ VStr "e1"; "created" ↦ VStr "2024-01-03";
                     "status" ↦ VStr "finished";
                     "create_date" ↦ VStr "2024-01-03"; "id" ↦ VStr "e1"]]).
Proof.
  apply (parsed_uploads_stay_as_they_are (VArr sample_uploads)).
  right. vm_compute. reflexivity.
Defined.
